(** * Janode core: transaction manager, address iterator, transports,
      and the Connection / Session / Handle message routing.

    A shallow embedding of the TypeScript sources.  Conventions:

    - a JavaScript value that the code reads from an [any]-typed message is a
      [JsValue]; truthiness, strict equality with a string constant, member
      access and template-literal conversion are written out;
    - objects compared with [===] carry a reference ([ObjRef]);
    - every method is a function from the state before to the state after,
      returning its result next to the new state; a method that may throw
      returns a [Completion];
    - an [async] method is cut at its [await]: the part that runs before and
      the part that runs after are two functions, the second taking the way
      the awaited promise settled;
    - calls to [Logger] write to an external sink and are left out; a log
      line that prints a member of a message converts it to a string first,
      and the statements about such a message take that member to have a
      string form. *)

From Equations Require Import Equations.
From stdpp Require Import gmap strings list fin_maps pretty.
From Stdlib Require Import ZArith Lia.

Local Open Scope Z_scope.
Local Set Warnings "-register-all".

(* ===================================================================== *)
(** ** JavaScript values                                                  *)
(* ===================================================================== *)

(** JSON-like values; numbers are the integers (identifiers, codes and
    millisecond counts are all the code computes with).  [JNum n] is the
    Number that the integer literal [n] denotes: [n] itself up to 2^53 in
    magnitude, the nearest double beyond. *)
Inductive JsValue : Type :=
| JUndefined
| JNull
| JBool (b : bool)
| JNum (n : Z)
| JStr (s : string)
| JObj (props : list (string * JsValue)).

(** [new Error(message)], and the [TypeError] raised by a member access on
    [undefined] or [null]. *)
Inductive JsError : Type :=
| Error (message : string)
| TypeError.

(** Normal or abrupt completion of a call. *)
Inductive Completion (A : Type) : Type :=
| Return (a : A)
| Throw (e : JsError).
Arguments Return {A} a.
Arguments Throw {A} e.

(** [if (v)]: ToBoolean. *)
Definition truthy (v : JsValue) : bool :=
  match v with
  | JUndefined | JNull => false
  | JBool b => b
  | JNum n => negb (n =? 0)
  | JStr s => negb (String.eqb s "")
  | JObj _ => true
  end.

(** [v === 'constant']. *)
Definition is_str (v : JsValue) (s : string) : bool :=
  match v with
  | JStr s' => String.eqb s' s
  | _ => false
  end.

(** The double quote, for the messages that contain one. *)
Definition dquote : string := String (Ascii.ascii_of_nat 34) EmptyString.

(** [typeof v !== 'undefined']. *)
Definition defined (v : JsValue) : bool :=
  match v with
  | JUndefined => false
  | _ => true
  end.

(* ===================================================================== *)
(** ** [Map]: string keys, insertion order                                *)
(* ===================================================================== *)

(** A JavaScript [Map] iterates in insertion order; [set] on a key that is
    present replaces the value in place. *)
Section JsMap.
Context {V : Type}.

Fixpoint Map_get (k : string) (m : list (string * V)) : option V :=
  match m with
  | [] => None
  | (k', v) :: rest => if String.eqb k' k then Some v else Map_get k rest
  end.

Definition Map_has (k : string) (m : list (string * V)) : bool :=
  match Map_get k m with
  | Some _ => true
  | None => false
  end.

Fixpoint Map_set (k : string) (v : V) (m : list (string * V)) : list (string * V) :=
  match m with
  | [] => [(k, v)]
  | (k', v') :: rest =>
      if String.eqb k' k then (k, v) :: rest else (k', v') :: Map_set k v rest
  end.

Fixpoint Map_delete (k : string) (m : list (string * V)) : list (string * V) :=
  match m with
  | [] => []
  | (k', v') :: rest =>
      if String.eqb k' k then Map_delete k rest else (k', v') :: Map_delete k rest
  end.
End JsMap.

(** [obj.name] on an object literal: [undefined] when the property is
    missing. *)
Definition prop (name : string) (props : list (string * JsValue)) : JsValue :=
  match Map_get name props with
  | Some v => v
  | None => JUndefined
  end.

(** [v.name] on an arbitrary value. *)
Definition member (v : JsValue) (name : string) : Completion JsValue :=
  match v with
  | JUndefined | JNull => Throw TypeError
  | JObj props => Return (prop name props)
  | _ => Return JUndefined
  end.

(* ===================================================================== *)
(** ** Conversion to a string                                             *)
(* ===================================================================== *)

(** The double nearest to the integer [n >= 0]: 53 significant bits, a tie
    going to the even significand. *)
Definition nearest_double (n : Z) : Z :=
  if n <? 2 ^ 53 then n
  else
    let e := Z.log2 n - 52 in
    let q := n / 2 ^ e in
    let r := n mod 2 ^ e in
    if (2 ^ (e - 1) <? r) || ((r =? 2 ^ (e - 1)) && Z.odd q)
    then (q + 1) * 2 ^ e
    else q * 2 ^ e.

(** The decimal with the fewest significant digits that reads back as the
    double [x], and among those the one nearest to [x].  [lo2] and [hi2]
    are twice the midpoints between [x] and its two neighbours; a midpoint
    reads back as [x] when the significand of [x] is even ([closed]).  The
    candidates are the multiples of [10 ^ p] around [x], for [p] going down
    from the position of the leading digit. *)
Fixpoint shortest_decimal (steps : nat) (p : Z) (x lo2 hi2 : Z) (closed : bool) : Z :=
  match steps with
  | O => x
  | S steps' =>
      let down := x / 10 ^ p * 10 ^ p in
      let up := down + 10 ^ p in
      let fits d :=
        if closed then (lo2 <=? 2 * d) && (2 * d <=? hi2)
        else (lo2 <? 2 * d) && (2 * d <? hi2) in
      match fits down, fits up with
      | true, true =>
          if x - down <? up - x then down
          else if up - x <? x - down then up
          else if Z.even (down / 10 ^ p) then down else up
      | true, false => down
      | false, true => up
      | false, false => shortest_decimal steps' (p - 1) x lo2 hi2 closed
      end
  end.

Fixpoint strip_zeros (fuel : nat) (d : Z) : Z :=
  match fuel with
  | O => d
  | S fuel' => if (0 <? d) && (d mod 10 =? 0) then strip_zeros fuel' (d / 10) else d
  end.

(** [1.2345e+21]: the significant digits of [d], a point after the first
    one, and the position of the leading digit. *)
Definition exponent_form (d : Z) : string :=
  let n := String.length (pretty d) in
  match pretty (strip_zeros n d) with
  | String c rest =>
      String c (if String.eqb rest "" then "" else "." +:+ rest)
        +:+ "e+" +:+ pretty (Z.of_nat n - 1)
  | EmptyString => ""
  end.

(** [Number::toString] of a Number that is not negative.  Up to 2^53 every
    integer is a double and is printed digit by digit; beyond, the shortest
    decimal that reads back as the same double is printed, followed by
    zeros while it has at most 21 digits and in exponent form from
    [1e+21] on. *)
Definition Number_magnitude (n : Z) : string :=
  let x := nearest_double n in
  if x <? 2 ^ 53 then pretty x
  else if 2 ^ 1024 <=? x then "Infinity"
  else
    let u := 2 ^ (Z.log2 x - 52) in
    let below := if x =? 2 ^ Z.log2 x then u / 2 else u in
    let n := String.length (pretty x) in
    let d := shortest_decimal n (Z.of_nat n - 1) x (2 * x - below) (2 * x + u)
               (Z.even (x / u)) in
    if (String.length (pretty d) <=? 21)%nat then pretty d else exponent_form d.

Definition Number_toString (n : Z) : string :=
  if n <? 0 then "-" +:+ Number_magnitude (- n) else Number_magnitude n.

(** [`${v}`]: ToString.  An object is converted by its [toString] method.
    The objects of a message are plain ones: the method is the inherited
    [Object.prototype.toString], unless the object has a member of its own
    under that name.  Such a member is no function, the conversion falls
    back on [valueOf], which gives no primitive value either (the inherited
    one returns the object, one of its own is no function), and a
    [TypeError] is thrown. *)
Definition ToString (v : JsValue) : Completion string :=
  match v with
  | JUndefined => Return "undefined"
  | JNull => Return "null"
  | JBool true => Return "true"
  | JBool false => Return "false"
  | JNum n => Return (Number_toString n)
  | JStr s => Return s
  | JObj props =>
      if Map_has "toString" props then Throw TypeError else Return "[object Object]"
  end.

(* ===================================================================== *)
(** ** tmanager.ts                                                        *)
(* ===================================================================== *)

(** Identity of the objects that own transactions. *)
Inductive ObjRef : Type :=
| RConnection (a : nat)
| RSession (a : nat)
| RHandle (a : nat)
| RTransport (a : nat).

Global Instance ObjRef_eq_dec : EqDecision ObjRef.
Proof. solve_decision. Defined.

(** [TransactionOwner = { id }], together with the identity of the object. *)
Record TransactionOwner : Type := mkOwner {
  owner_ref : ObjRef;
  owner_id : Z
}.

(** [a === b] on owners. *)
Definition same_owner (a b : TransactionOwner) : bool :=
  bool_decide (owner_ref a = owner_ref b).

(** The continuations handed to [createTransaction] are the [resolve] and
    [reject] functions of the promise built by [sendRequest]. *)
Inductive Callback : Type :=
| Resolve (p : nat)
| Reject (p : nat).

(** What a continuation is called with. *)
Inductive Arg : Type :=
| Data (v : JsValue)
| Failure (e : JsError).

(** [tx_uid] is the identity of the record allocated by [createTransaction];
    the handle returned by [setTimeout] for its timer is identified with it. *)
Record PendingTransaction : Type := mkTx {
  tx_id : string;
  tx_owner : TransactionOwner;
  tx_request : string;
  tx_done : Callback;
  tx_error : Callback;
  tx_timeout : option nat;
  tx_uid : nat
}.

(** The closure armed by [setTimeout] in [createTransaction]; it captures
    [id] and [error]. *)
Record TimeoutTask : Type := mkTask {
  tk_id : string;
  tk_error : Callback;
  tk_delay : Z
}.

(** One invocation of a continuation: which transaction record it belongs
    to, the function called and its argument. *)
Record Call : Type := mkCall {
  call_tx : nat;
  call_fn : Callback;
  call_arg : Arg
}.

(** The manager, the timers it armed and not yet fired or cleared, and the
    continuations it has invoked so far (oldest first).  [_dbgtask] tells
    whether the field holds a handle, [dbg_running] whether that interval is
    still scheduled ([clear] stops the interval and keeps the handle). *)
Record TransactionManager : Type := mkTM {
  debug : bool;
  transactions : list (string * PendingTransaction);
  _dbgtask : bool;
  dbg_running : bool;
  timers : gmap nat TimeoutTask;
  calls : list Call;
  next_uid : nat
}.

(** [new TransactionManager()]; [dbg] is the [--debug-tx] flag read when the
    module is loaded. *)
Definition new_TransactionManager (dbg : bool) : TransactionManager :=
  mkTM dbg [] false false ∅ [] 0.

Definition with_transactions (t : list (string * PendingTransaction))
    (tm : TransactionManager) : TransactionManager :=
  mkTM (debug tm) t (_dbgtask tm) (dbg_running tm) (timers tm) (calls tm) (next_uid tm).

Definition with_timers (ts : gmap nat TimeoutTask)
    (tm : TransactionManager) : TransactionManager :=
  mkTM (debug tm) (transactions tm) (_dbgtask tm) (dbg_running tm) ts (calls tm) (next_uid tm).

Definition with_calls (cs : list Call) (tm : TransactionManager) : TransactionManager :=
  mkTM (debug tm) (transactions tm) (_dbgtask tm) (dbg_running tm) (timers tm) cs (next_uid tm).

(** [clear()]: the debug interval is stopped and the table emptied; the
    timers of the transactions are not touched. *)
Definition tm_clear (tm : TransactionManager) : TransactionManager :=
  mkTM (debug tm) [] (_dbgtask tm) false (timers tm) (calls tm) (next_uid tm).

(** [has(id)]: an empty id is never found. *)
Definition tm_has (id : string) (tm : TransactionManager) : bool :=
  if String.eqb id "" then false
  else Map_has id (transactions tm).

(** [get(id)]. *)
Definition tm_get (id : string) (tm : TransactionManager) : option PendingTransaction :=
  if String.eqb id "" then None
  else if negb (tm_has id tm) then None
  else Map_get id (transactions tm).

(** [size()]. *)
Definition tm_size (tm : TransactionManager) : nat :=
  length (transactions tm).

(** [set(id, transaction)]: nothing is stored under an empty id; the debug
    interval is armed the first time when [--debug-tx] is given. *)
Definition tm_set (id : string) (transaction : PendingTransaction)
    (tm : TransactionManager) : TransactionManager :=
  if String.eqb id "" then tm
  else
    let arm := debug tm && negb (_dbgtask tm) in
    mkTM (debug tm) (Map_set id transaction (transactions tm))
         (if arm then true else _dbgtask tm)
         (if arm then true else dbg_running tm)
         (timers tm) (calls tm) (next_uid tm).

(** [delete(id)]. *)
Definition tm_delete (id : string) (tm : TransactionManager) : TransactionManager :=
  if String.eqb id "" then tm
  else if negb (tm_has id tm) then tm
  else with_transactions (Map_delete id (transactions tm)) tm.

(** [getTransactionOwner(id)]. *)
Definition getTransactionOwner (id : string) (tm : TransactionManager)
    : option TransactionOwner :=
  if String.eqb id "" then None
  else if negb (tm_has id tm) then None
  else tx_owner <$> tm_get id tm.

(** [clearTimeout(h)]; clearing [undefined] does nothing. *)
Definition clearTimeout (h : option nat) (tm : TransactionManager) : TransactionManager :=
  match h with
  | Some t => with_timers (delete t (timers tm)) tm
  | None => tm
  end.

(** Calling a continuation of the record [uid]. *)
Definition invoke (uid : nat) (f : Callback) (a : Arg)
    (tm : TransactionManager) : TransactionManager :=
  with_calls (calls tm ++ [mkCall uid f a]) tm.

(** [createTransaction(id, owner, request, done, error, timeout_ms = 0)]:
    nothing when the id is taken; otherwise a new record, with a timer armed
    when [timeout_ms > 0], handed to [set] and returned. *)
Definition createTransaction (id : string) (owner : TransactionOwner) (request : string)
    (done error : Callback) (timeout_ms : Z) (tm : TransactionManager)
    : option PendingTransaction * TransactionManager :=
  if tm_has id tm then (None, tm)
  else
    let uid := next_uid tm in
    let tm := mkTM (debug tm) (transactions tm) (_dbgtask tm) (dbg_running tm)
                   (timers tm) (calls tm) (S uid) in
    let tx := mkTx id owner request done error None uid in
    let '(tx, tm) :=
      if 0 <? timeout_ms
      then (mkTx id owner request done error (Some uid) uid,
            with_timers (<[uid := mkTask id error timeout_ms]> (timers tm)) tm)
      else (tx, tm) in
    (Some tx, tm_set id tx tm).

(** The timer [h] expires: the arrow function given to [setTimeout] runs.
    A timer that was cleared, or has fired already, never runs. *)
Definition fire_timeout (h : nat) (tm : TransactionManager) : TransactionManager :=
  match timers tm !! h with
  | None => tm
  | Some task =>
      let tm := with_timers (delete h (timers tm)) tm in
      let tm := tm_delete (tk_id task) tm in
      invoke h (tk_error task) (Failure (Error "Transaction timed out!")) tm
  end.

(** [closeTransactionWithError(id, owner, error)]. *)
Definition closeTransactionWithError (id : string) (owner : TransactionOwner)
    (error : JsError) (tm : TransactionManager)
    : option PendingTransaction * TransactionManager :=
  match tm_get id tm with
  | None => (None, tm)
  | Some tx =>
      if negb (same_owner (tx_owner tx) owner) then (None, tm)
      else
        let tm := clearTimeout (tx_timeout tx) tm in
        let tm := tm_delete id tm in
        let tm := invoke (tx_uid tx) (tx_error tx) (Failure error) tm in
        (Some tx, tm)
  end.

(** [!owner || pendingTx.owner === owner]. *)
Definition selected (owner : option TransactionOwner) (pendingTx : PendingTransaction) : bool :=
  match owner with
  | None => true
  | Some o => same_owner (tx_owner pendingTx) o
  end.

(** The [for ... of] over the live table: entries are visited in insertion
    order and an entry deleted before its turn is skipped. *)
Fixpoint closeAll_loop (entries : list (string * PendingTransaction))
    (owner : option TransactionOwner) (error : JsError)
    (tm : TransactionManager) : TransactionManager :=
  match entries with
  | [] => tm
  | (k, pendingTx) :: rest =>
      let tm :=
        if Map_has k (transactions tm) && selected owner pendingTx
        then (closeTransactionWithError (tx_id pendingTx) (tx_owner pendingTx) error tm).2
        else tm in
      closeAll_loop rest owner error tm
  end.

(** [closeAllTransactionsWithError(owner, error)]. *)
Definition closeAllTransactionsWithError (owner : option TransactionOwner)
    (error : JsError) (tm : TransactionManager) : TransactionManager :=
  closeAll_loop (transactions tm) owner error tm.

(** [closeTransactionWithSuccess(id, owner, data)]. *)
Definition closeTransactionWithSuccess (id : string) (owner : TransactionOwner)
    (data : JsValue) (tm : TransactionManager)
    : option PendingTransaction * TransactionManager :=
  match tm_get id tm with
  | None => (None, tm)
  | Some tx =>
      if negb (same_owner (tx_owner tx) owner) then (None, tm)
      else
        let tm := clearTimeout (tx_timeout tx) tm in
        let tm := tm_delete id tm in
        let tm := invoke (tx_uid tx) (tx_done tx) (Data data) tm in
        (Some tx, tm)
  end.

(** *** Runs of the manager

    The calls that Connection, Session and Handle make on the manager, and
    the expiry of a timer; [set], [delete] and [has] are only reached
    through them. *)
Inductive Op : Type :=
| OpCreate (id : string) (owner : TransactionOwner) (request : string)
           (done error : Callback) (timeout_ms : Z)
| OpCloseSuccess (id : string) (owner : TransactionOwner) (data : JsValue)
| OpCloseError (id : string) (owner : TransactionOwner) (error : JsError)
| OpCloseAll (owner : option TransactionOwner) (error : JsError)
| OpClear
| OpTimeout (h : nat).

Definition step (tm : TransactionManager) (op : Op) : TransactionManager :=
  match op with
  | OpCreate id owner request done error timeout_ms =>
      (createTransaction id owner request done error timeout_ms tm).2
  | OpCloseSuccess id owner data => (closeTransactionWithSuccess id owner data tm).2
  | OpCloseError id owner error => (closeTransactionWithError id owner error tm).2
  | OpCloseAll owner error => closeAllTransactionsWithError owner error tm
  | OpClear => tm_clear tm
  | OpTimeout h => fire_timeout h tm
  end.

Definition run (ops : list Op) (tm : TransactionManager) : TransactionManager :=
  fold_left step ops tm.

(** [op] creates a transaction under [id]. *)
Definition creates (id : string) (op : Op) : bool :=
  match op with
  | OpCreate id' _ _ _ _ _ => String.eqb id' id
  | _ => false
  end.

(** The records whose continuation has been invoked. *)
Definition called (tm : TransactionManager) : list nat :=
  call_tx <$> calls tm.

(** In the state [tm], [op] closes the record [uid] stored under [id]:
    a close call that goes through, or the expiry of the record's timer. *)
Definition closes (op : Op) (tm : TransactionManager) (id : string) (uid : nat) : Prop :=
  match op with
  | OpCloseSuccess id' owner data =>
      id' = id /\ exists tx, (closeTransactionWithSuccess id owner data tm).1 = Some tx
                            /\ tx_uid tx = uid
  | OpCloseError id' owner error =>
      id' = id /\ exists tx, (closeTransactionWithError id owner error tm).1 = Some tx
                            /\ tx_uid tx = uid
  | OpTimeout h =>
      h = uid /\ exists task, timers tm !! h = Some task /\ tk_id task = id
  | _ => False
  end.

(** *** Well-formed managers

    What [createTransaction], the closes, [clear] and the timers keep true:
    the table is keyed by the non-empty id of each record, records and armed
    timers are those allocated so far, and a record that is stored or whose
    timer is armed has not been called yet. *)
Record tm_wf (tm : TransactionManager) : Prop := mk_tm_wf {
  wf_keys : NoDup ((transactions tm).*1);
  wf_entry : forall k tx, (k, tx) ∈ transactions tm ->
      tx_id tx = k /\ k <> "" /\ (tx_uid tx < next_uid tm)%nat /\
      (tx_uid tx ∉ called tm) /\
      (tx_timeout tx = Some (tx_uid tx) \/
       (tx_timeout tx = None /\ timers tm !! tx_uid tx = None));
  wf_uids : forall k1 tx1 k2 tx2,
      (k1, tx1) ∈ transactions tm -> (k2, tx2) ∈ transactions tm ->
      tx_uid tx1 = tx_uid tx2 -> k1 = k2;
  wf_timer : forall h task, timers tm !! h = Some task ->
      (h < next_uid tm)%nat /\ (h ∉ called tm) /\
      forall k tx, (k, tx) ∈ transactions tm -> tx_uid tx = h -> tk_id task = k;
  wf_called : NoDup (called tm);
  wf_called_lt : forall u, u ∈ called tm -> (u < next_uid tm)%nat
}.

(** What a close does once the record is found and the owner matches. *)
Definition close_effect (tx : PendingTransaction) (id : string) (f : Callback) (a : Arg)
    (tm : TransactionManager) : TransactionManager :=
  invoke (tx_uid tx) f a (tm_delete id (clearTimeout (tx_timeout tx) tm)).

(** [id] is not a key of the table and the timer [uid] is not armed and
    cannot be armed again. *)
Definition settled (id : string) (uid : nat) (tm : TransactionManager) : Prop :=
  tm_get id tm = None /\ timers tm !! uid = None /\ (uid < next_uid tm)%nat.

(** The record [u] has been allocated and is not in the table. *)
Definition unstored (u : nat) (tm : TransactionManager) : Prop :=
  (u < next_uid tm)%nat /\
  forall k tx, (k, tx) ∈ transactions tm -> tx_uid tx <> u.

(** Every armed timer that carries a non-empty id belongs to the record
    stored under that id. *)
Definition tidy (tm : TransactionManager) : Prop :=
  forall h task, timers tm !! h = Some task -> tk_id task <> "" ->
    exists tx, (tk_id task, tx) ∈ transactions tm /\ tx_uid tx = h.

(** A run in which [clear()] is only called on an empty table, as
    [_signalClose] does after it has closed every transaction. *)
Fixpoint orderly (ops : list Op) (tm : TransactionManager) : Prop :=
  match ops with
  | [] => True
  | op :: rest => (op = OpClear -> transactions tm = []) /\ orderly rest (step tm op)
  end.

(* ===================================================================== *)
(** ** tmanager.ts: the circular iterator [newIterator]                  *)
(* ===================================================================== *)

(** [newIterator(list)]: the closure state is the copied array [l] and the
    counter [i]. *)
Record CircularIterator (T : Type) : Type := mkIterator {
  it_l : list T;
  it_i : nat
}.
Arguments mkIterator {T} it_l it_i.
Arguments it_l {T} c.
Arguments it_i {T} c.

(** [newIterator(list)]. *)
Definition newIterator {T} (list : list T) : CircularIterator T :=
  mkIterator list 0.

(** [l[i % len]]; indexing out of the array (an empty array) is
    [undefined]. *)
Definition currElem {T} (it : CircularIterator T) : option T :=
  it_l it !! (it_i it mod length (it_l it))%nat.

(** [l[i++ % len]]: the element is read with the old [i], then [i] is
    incremented. *)
Definition nextElem {T} (it : CircularIterator T) : option T * CircularIterator T :=
  (it_l it !! (it_i it mod length (it_l it))%nat, mkIterator (it_l it) (S (it_i it))).

(* ===================================================================== *)
(** ** configuration.ts                                                   *)
(* ===================================================================== *)

Record ServerObjectConf : Type := mkServer {
  url : string;
  apisecret : string;
  token : option string
}.

Definition DEF_RETRY_TIME : Z := 10.
Definition DEF_MAX_RETRIES : Z := 5.

Record Configuration : Type := mkConfiguration {
  address : list ServerObjectConf;
  retry_time_secs : Z;
  max_retries : Z;
  is_admin : bool
}.

(** The constructor: an empty address list or an empty url is refused, the
    optional settings fall back to their defaults. *)
Definition new_Configuration (addr : list ServerObjectConf)
    (retry max : option Z) (admin : option bool) : Completion Configuration :=
  match addr with
  | [] => Throw (Error ("invalid configuration, empty parameter "
                        +:+ dquote +:+ "address" +:+ dquote))
  | _ =>
      if forallb (fun server => negb (String.eqb (url server) "")) addr
      then Return (mkConfiguration addr (default DEF_RETRY_TIME retry)
                                   (default DEF_MAX_RETRIES max) (default false admin))
      else Throw (Error "invalid configuration, missing server url attribute ")
  end.

(* ===================================================================== *)
(** ** transport-ws.ts and transport-unix.ts: opening with retries        *)
(* ===================================================================== *)

(** The two transports, and the stub that a connection keeps when the scheme
    of its first address selects neither. *)
Inductive TransportKind : Type :=
| WebSocketTransport
| UnixTransport
| NoTransport.

(** What the transport did: a socket opened towards an address, a wait of
    so many milliseconds, and the connection told that the socket closed
    ([this._connection._signalClose(graceful)]). *)
Inductive NetEvent : Type :=
| Dial (to : string)
| Sleep (ms : Z)
| Closed (graceful : bool).

(** The flags and the attempt counter of a transport, the socket it holds
    (by the url it was opened towards), and the trace of what it did,
    oldest first. *)
Record Transport : Type := mkTransport {
  kind : TransportKind;
  _ws : option string;
  _attempts : Z;
  _opening : bool;
  _opened : bool;
  _closing : bool;
  _closed : bool;
  net : list NetEvent
}.

Definition new_Transport (k : TransportKind) : Transport :=
  mkTransport k None 0 false false false false [].

(** The transport with the two fields of its connection that it uses: the
    configuration and the address iterator. *)
Record Link : Type := mkLink {
  _config : Configuration;
  _address_iterator : CircularIterator ServerObjectConf;
  _transport : Transport
}.

Definition with_transport (t : Transport) (c : Link) : Link :=
  mkLink (_config c) (_address_iterator c) t.

(** The addresses dialled so far. *)
Definition dialed (t : Transport) : list string :=
  omap (fun e => match e with Dial to => Some to | _ => None end) (net t).

(** A socket that failed to connect: the error it reported, and whether it
    also closed (the [close] event that a WebSocket fires after its [error],
    an error of a Unix socket with a negative [errno]). *)
Record Refusal : Type := mkRefusal {
  rf_error : JsError;
  rf_closed : bool
}.

(** The socket closed: the [close] listener of [_initWebSocket], and
    [_close()] of the Unix transport, which also drops the socket.  The
    connection is told with the value [_closing] had. *)
Definition socket_closed (t : Transport) : Transport :=
  mkTransport (kind t)
    (match kind t with UnixTransport => None | _ => _ws t end)
    (_attempts t) (_opening t) (_opened t) false true
    (net t ++ [Closed (_closing t)]).

(** What a refused socket adds to the trace after its [Dial]: nothing, or
    the closing reported to the connection, as an unexpected one since
    [_closing] is reset at the beginning of the attempt. *)
Definition close_report (refusal : Refusal) : list NetEvent :=
  if rf_closed refusal then [Closed false] else [].

(** Keeps the equation of a matched value in the context. *)
Definition inspect {A} (a : A) : {b : A | a = b} := exist _ a eq_refl.

Section Opening.

(** The network: whether the socket opened by the attempt number [n]
    (counting from 0 over the life of the transport) towards [to] connects,
    or how it fails.  [_initWebSocket] and [_initUnixSocket] resolve or
    reject according to it. *)
Variable network : nat -> string -> option Refusal.

(** [_initWebSocket] / [_initUnixSocket]: reading the url of an undefined
    current address throws before any socket is created; otherwise a socket
    is created and stored, and the promise settles with what the network
    does. *)
Definition _initSocket (c : Link) : option JsError * Link :=
  match currElem (_address_iterator c) with
  | None => (Some TypeError, c)
  | Some server =>
      let t := _transport c in
      let t1 := mkTransport (kind t) (Some (url server)) (_attempts t) (_opening t)
                            (_opened t) (_closing t) (_closed t)
                            (net t ++ [Dial (url server)]) in
      match network (length (dialed t)) (url server) with
      | None => (None, with_transport t1 c)
      | Some refusal =>
          (Some (rf_error refusal),
           with_transport (if rf_closed refusal then socket_closed t1 else t1) c)
      end
  end.

(** The status reset at the beginning of every attempt. *)
Definition reset_status (c : Link) : Link :=
  let t := _transport c in
  with_transport
    (mkTransport (kind t) (_ws t) (_attempts t) (_opening t) false false false (net t)) c.

(** The success branch: [_opening = false; _opened = true]. *)
Definition mark_opened (c : Link) : Link :=
  let t := _transport c in
  with_transport
    (mkTransport (kind t) (_ws t) (_attempts t) false true (_closing t) (_closed t)
                 (net t)) c.

(** [this._attempts++]. *)
Definition count_attempt (c : Link) : Link :=
  let t := _transport c in
  with_transport
    (mkTransport (kind t) (_ws t) (_attempts t + 1) (_opening t) (_opened t)
                 (_closing t) (_closed t) (net t)) c.

(** The limit is reached: [_opening = false]. *)
Definition stop_opening (c : Link) : Link :=
  let t := _transport c in
  with_transport
    (mkTransport (kind t) (_ws t) (_attempts t) false (_opened t) (_closing t)
                 (_closed t) (net t)) c.

(** [await delayOp(ms)]. *)
Definition delayOp (ms : Z) (c : Link) : Link :=
  let t := _transport c in
  with_transport
    (mkTransport (kind t) (_ws t) (_attempts t) (_opening t) (_opened t)
                 (_closing t) (_closed t) (net t ++ [Sleep ms])) c.

(** [this._connection._address_iterator.nextElem()], result dropped. *)
Definition shift_iterator (c : Link) : Link :=
  mkLink (_config c) (nextElem (_address_iterator c)).2 (_transport c).

(** The attempts still allowed before the limit is reached. *)
Definition attempts_left (c : Link) : nat :=
  Z.to_nat (max_retries (_config c) + 1 - _attempts (_transport c)).

(** [_attemptOpen()], the same in both transports. *)
Equations? _attemptOpen (c : Link) : Completion unit * Link
  by wf (attempts_left c) lt :=
  _attemptOpen c with inspect (_initSocket (reset_status c)) := {
    | exist _ (None, c1) _ => (Return tt, mark_opened c1)
    | exist _ (Some error, c1) Hinit with inspect
        (_attempts (_transport (count_attempt c1))
           >=? max_retries (_config (count_attempt c1)) + 1) := {
        | exist _ true _ => (Throw error, stop_opening (count_attempt c1))
        | exist _ false Hlim =>
            _attemptOpen
              (shift_iterator
                 (delayOp (retry_time_secs (_config (count_attempt c1)) * 1000)
                          (count_attempt c1)))
      }
  }.
Proof.
  unfold attempts_left. simpl.
  assert (Hcfg : _config c1 = _config c /\
                 _attempts (_transport c1) = _attempts (_transport c)).
  { unfold _initSocket in Hinit.
    destruct (currElem (_address_iterator (reset_status c))) as [server|];
      [|by injection Hinit as _ <-].
    destruct (network _ _) as [refusal|]; [|done].
    injection Hinit as _ <-. by destruct (rf_closed refusal). }
  destruct Hcfg as [Hc Ha].
  simpl in Hlim. rewrite Hc, Ha in *. lia.
Qed.

Definition socket_name (k : TransportKind) : string :=
  match k with
  | UnixTransport => "unix socket"
  | _ => "websocket"
  end.

(** [open()]: the stub transport throws; a transport that is opening, open
    or closed refuses; otherwise the attempt counter restarts and
    [_attemptOpen] runs. *)
Definition transport_open (c : Link) : Completion unit * Link :=
  let t := _transport c in
  match kind t with
  | NoTransport =>
      (Throw (Error ("transport does not implement the " +:+ dquote +:+ "open"
                     +:+ dquote +:+ " function")), c)
  | k =>
      if _opening t then
        (Throw (Error ("unable to open, " +:+ socket_name k +:+ " is already being opened")), c)
      else if _opened t then
        (Throw (Error ("unable to open, " +:+ socket_name k +:+ " has already been opened")), c)
      else if _closed t then
        (Throw (Error ("unable to open, " +:+ socket_name k +:+ " has already been closed")), c)
      else
        _attemptOpen
          (with_transport
             (mkTransport (kind t) (_ws t) 0 true (_opened t) (_closing t) (_closed t)
                          (net t)) c)
  end.

End Opening.

(** [close()] up to the call that closes the socket: refused unless the
    transport is open and not closing or closed, else [_closing = true].
    The socket then reports its closing through [socket_closed]. *)
Definition transport_close (t : Transport) : Completion unit * Transport :=
  match kind t with
  | NoTransport =>
      (Throw (Error ("transport does not implement the " +:+ dquote +:+ "close"
                     +:+ dquote +:+ " function")), t)
  | k =>
      if negb (_opened t) then
        (Throw (Error ("unable to close, " +:+ socket_name k +:+ " has never been opened")), t)
      else if _closing t then
        (Throw (Error ("unable to close, " +:+ socket_name k +:+ " is already being closed")), t)
      else if _closed t then
        (Throw (Error ("unable to close, " +:+ socket_name k +:+ " has already been closed")), t)
      else
        (Return tt,
         mkTransport (kind t) (_ws t) (_attempts t) (_opening t) (_opened t) true
                     (_closed t) (net t))
  end.

(* ===================================================================== *)
(** ** protocol.ts                                                        *)
(* ===================================================================== *)

(** A message parsed from the wire: an object. *)
Definition JanusMessage : Type := list (string * JsValue).

Definition JANUS_REQUEST_KEEPALIVE : string := "keepalive".
Definition JANUS_REQUEST_TRICKLE : string := "trickle".
Definition JANUS_REQUEST_HANGUP : string := "hangup".
Definition JANUS_REQUEST_DETACH_PLUGIN : string := "detach".
Definition JANUS_ACK : string := "ack".
Definition JANUS_RESPONSE : list string := ["success"; "server_info"; "error"].

Definition CONNECTION_CLOSED : string := "connection_closed".
Definition SESSION_DESTROYED : string := "session_destroyed".
Definition HANDLE_DETACHED : string := "handle_detached".
Definition HANDLE_ICE_FAILED : string := "handle_ice_failed".
Definition HANDLE_HANGUP : string := "handle_hangup".
Definition HANDLE_MEDIA : string := "handle_media".
Definition HANDLE_WEBRTCUP : string := "handle_webrtcup".
Definition HANDLE_SLOWLINK : string := "handle_slowlink".
Definition HANDLE_TRICKLE : string := "handle_trickle".
Definition CONNECTION_ERROR : string := "connection_error".

(** [Object.values(JANUS.RESPONSE).includes(data.janus)]. *)
Definition isResponseData (data : JanusMessage) : bool :=
  existsb (is_str (prop "janus" data)) JANUS_RESPONSE.

Definition isEventData (data : JanusMessage) : bool :=
  is_str (prop "janus" data) "event".

Definition isErrorData (data : JanusMessage) : bool :=
  is_str (prop "janus" data) "error".

Definition isTimeoutData (data : JanusMessage) : bool :=
  is_str (prop "janus" data) "timeout".

Definition isAckData (data : JanusMessage) : bool :=
  is_str (prop "janus" data) JANUS_ACK.

(** [new Error(`${msg.error.code} ${msg.error.reason}`)]; reading a member
    of a missing [error] throws, and so does the conversion of a member that
    has no string form.  The template converts each value as soon as it is
    read. *)
Definition response_error (janus_message : JanusMessage) : Completion JsError :=
  match member (prop "error" janus_message) "code" with
  | Throw e => Throw e
  | Return code =>
      match ToString code with
      | Throw e => Throw e
      | Return code_text =>
          match member (prop "error" janus_message) "reason" with
          | Throw e => Throw e
          | Return reason =>
              match ToString reason with
              | Throw e => Throw e
              | Return reason_text =>
                  Return (Error (code_text +:+ " " +:+ reason_text))
              end
          end
      end
  end.

(** The id under which the manager is asked for the [transaction] of a
    message.  The keys of the table are strings, so a value of another type
    finds nothing, which is what every operation of the manager does for the
    empty id. *)
Definition transaction_id (transaction : JsValue) : string :=
  match transaction with
  | JStr s => s
  | _ => ""
  end.

(* ===================================================================== *)
(** ** The objects of one connection                                      *)
(* ===================================================================== *)

(** Listeners that the library itself registers.  On a handle, for
    [HANDLE_DETACHED]: the arrow function of [Session.attach]. *)
Inductive HandleListener : Type :=
| SessionForgetsHandle (session : nat).

(** On a session, for [SESSION_DESTROYED]: the arrow function of
    [Connection.create], and the bound [_signalDetach] of each handle. *)
Inductive SessionListener : Type :=
| ConnectionForgetsSession
| HandleDetaches (handle : nat).

Global Instance SessionListener_eq_dec : EqDecision SessionListener.
Proof. solve_decision. Defined.

Record Handle : Type := mkHandle {
  h_id : Z;
  h_session : nat;
  _detaching : bool;
  _detached : bool;
  h_onDetached : list HandleListener
}.

(** The interval armed by [_setKeepAlive]: its period and the timeout given
    to every [_sendKeepAlive], both in milliseconds. *)
Record KaTask : Type := mkKaTask {
  ka_delay : Z;
  ka_timeout : Z
}.

Record Session : Type := mkSession {
  s_id : Z;
  _destroying : bool;
  _destroyed : bool;
  _handles : gmap Z nat;
  _ka_task : option KaTask;
  s_onDestroyed : list SessionListener;
  s_maxListeners : Z
}.

(** The connection: its link (configuration, address iterator, transport),
    the session table, and the sessions listening for [CONNECTION_CLOSED]
    and for [CONNECTION_ERROR]. *)
Record Connection : Type := mkConnection {
  c_addr : nat;
  c_id : Z;
  c_link : Link;
  _sessions : gmap Z nat;
  c_onClosed : list nat;
  c_onError : list nat;
  c_maxListeners : Z
}.

(** An event handed to [emit]. *)
Record Emitted : Type := mkEmitted {
  em_source : ObjRef;
  em_event : string;
  em_payload : Arg
}.

(** The connection, the manager it shares with its sessions and handles
    ([session._tm = connection._tm], [handle._tm = session._tm]), the session
    and handle objects by address, the events emitted so far (oldest first)
    and the next free address. *)
Record World : Type := mkWorld {
  connection : Connection;
  _tm : TransactionManager;
  sessions : gmap nat Session;
  handles : gmap nat Handle;
  emitted : list Emitted;
  next_addr : nat
}.

Definition with_tm (tm : TransactionManager) (w : World) : World :=
  mkWorld (connection w) tm (sessions w) (handles w) (emitted w) (next_addr w).

Definition upd_connection (f : Connection -> Connection) (w : World) : World :=
  mkWorld (f (connection w)) (_tm w) (sessions w) (handles w) (emitted w) (next_addr w).

Definition upd_session (a : nat) (f : Session -> Session) (w : World) : World :=
  mkWorld (connection w) (_tm w) (alter f a (sessions w)) (handles w) (emitted w)
          (next_addr w).

Definition upd_handle (a : nat) (f : Handle -> Handle) (w : World) : World :=
  mkWorld (connection w) (_tm w) (sessions w) (alter f a (handles w)) (emitted w)
          (next_addr w).

(** [emitter.emit(event, payload)], as seen by the listeners of the
    application; the listeners of the library are run by the caller. *)
Definition emit (source : ObjRef) (event : string) (payload : Arg) (w : World) : World :=
  mkWorld (connection w) (_tm w) (sessions w) (handles w)
          (emitted w ++ [mkEmitted source event payload]) (next_addr w).

Definition connection_owner (c : Connection) : TransactionOwner :=
  mkOwner (RConnection (c_addr c)) (c_id c).

Definition session_owner (a : nat) (s : Session) : TransactionOwner :=
  mkOwner (RSession a) (s_id s).

Definition handle_owner (a : nat) (h : Handle) : TransactionOwner :=
  mkOwner (RHandle a) (h_id h).

(** [{ id: n }]. *)
Definition id_payload (n : Z) : Arg := Data (JObj [("id", JNum n)]).

(** [table.get(key)] on a table keyed by numeric ids. *)
Definition table_get (key : JsValue) (table : gmap Z nat) : option nat :=
  match key with
  | JNum n => table !! n
  | _ => None
  end.

(* ===================================================================== *)
(** ** handle.ts                                                          *)
(* ===================================================================== *)

Definition set_detach_flags (detaching detached : bool) (h : Handle) : Handle :=
  mkHandle (h_id h) (h_session h) detaching detached (h_onDetached h).

Definition set_detaching (detaching : bool) (h : Handle) : Handle :=
  mkHandle (h_id h) (h_session h) detaching (_detached h) (h_onDetached h).

Definition handle_removeAllListeners (h : Handle) : Handle :=
  mkHandle (h_id h) (h_session h) (_detaching h) (_detached h) [].

Definition session_removeListener (l : SessionListener) (s : Session) : Session :=
  mkSession (s_id s) (_destroying s) (_destroyed s) (_handles s) (_ka_task s)
            (filter (fun l' => l' <> l) (s_onDestroyed s)) (s_maxListeners s).

(** The listener of [Session.attach]:
    [this._handles.delete(id); this.setMaxListeners(this.getMaxListeners() - 1)]. *)
Definition session_forget_handle (id : Z) (s : Session) : Session :=
  mkSession (s_id s) (_destroying s) (_destroyed s) (delete id (_handles s)) (_ka_task s)
            (s_onDestroyed s) (s_maxListeners s - 1).

Definition run_handle_listener (id : Z) (w : World) (l : HandleListener) : World :=
  match l with
  | SessionForgetsHandle s => upd_session s (session_forget_handle id) w
  end.

(** [_signalDetach()]. *)
Definition Handle_signalDetach (a : nat) (w : World) : World :=
  match handles w !! a with
  | None => w
  | Some h =>
      if _detached h then w
      else
        let w := upd_handle a (set_detach_flags false true) w in
        let w := upd_session (h_session h) (session_removeListener (HandleDetaches a)) w in
        let w := with_tm (closeAllTransactionsWithError (Some (handle_owner a h))
                            (Error "handle detached") (_tm w)) w in
        let w := emit (RHandle a) HANDLE_DETACHED (id_payload (h_id h)) w in
        let w := fold_left (run_handle_listener (h_id h)) (h_onDetached h) w in
        upd_handle a handle_removeAllListeners w
  end.

(** [this._tm.getTransactionOwner(id) === this]. *)
Definition ownsTransaction (a : nat) (id : string) (w : World) : bool :=
  match getTransactionOwner id (_tm w) with
  | Some owner => bool_decide (owner_ref owner = RHandle a)
  | None => false
  end.

(** [_isTrickleTx], [_isHangupTx], [_isDetachTx], and [_isKeepaliveTx] of
    the session. *)
Definition is_request_tx (verb : string) (id : string) (w : World) : bool :=
  match tm_get id (_tm w) with
  | Some tx => String.eqb (tx_request tx) verb
  | None => false
  end.

Definition _isTrickleTx := is_request_tx JANUS_REQUEST_TRICKLE.
Definition _isHangupTx := is_request_tx JANUS_REQUEST_HANGUP.
Definition _isDetachTx := is_request_tx JANUS_REQUEST_DETACH_PLUGIN.
Definition _isKeepaliveTx := is_request_tx JANUS_REQUEST_KEEPALIVE.

(** The stub [handleMessage] of the generic handle. *)
Definition handleMessage (_janus_message : JanusMessage) : JsValue := JNull.

Definition Handle_closeTransactionWithError (a : nat) (h : Handle) (id : string)
    (error : JsError) (w : World) : World :=
  with_tm (closeTransactionWithError id (handle_owner a h) error (_tm w)).2 w.

Definition Handle_closeTransactionWithSuccess (a : nat) (h : Handle) (id : string)
    (data : JsValue) (w : World) : World :=
  with_tm (closeTransactionWithSuccess id (handle_owner a h) data (_tm w)).2 w.

(** [if (typeof msg.name !== 'undefined') data.name = msg.name]. *)
Definition copy_field (name : string) (janus_message : JanusMessage)
    : list (string * JsValue) :=
  if defined (prop name janus_message) then [(name, prop name janus_message)] else [].

(** The [switch (janus)] of [_handleMessage]: a message that closed no
    transaction. *)
Definition Handle_dispatch (a : nat) (h : Handle) (janus_message : JanusMessage)
    (w : World) : Completion unit * World :=
  let transaction := prop "transaction" janus_message in
  let janus := prop "janus" janus_message in
  if is_str janus "event" then
    if negb (truthy (handleMessage janus_message))
    then (Return tt,
          Handle_closeTransactionWithError a h (transaction_id transaction)
            (Error "unmanaged event") w)
    else (Return tt, w)
  else if is_str janus "detached" then (Return tt, Handle_signalDetach a w)
  else if is_str janus "ice-failed" then
    (Return tt, emit (RHandle a) HANDLE_ICE_FAILED (Data (JObj [])) w)
  else if is_str janus "hangup" then
    (Return tt,
     emit (RHandle a) HANDLE_HANGUP (Data (JObj (copy_field "reason" janus_message))) w)
  else if is_str janus "media" then
    (Return tt,
     emit (RHandle a) HANDLE_MEDIA
       (Data (JObj (copy_field "type" janus_message ++
                    copy_field "receiving" janus_message ++
                    copy_field "mid" janus_message ++
                    copy_field "substream" janus_message ++
                    copy_field "seconds" janus_message))) w)
  else if is_str janus "webrtcup" then
    (Return tt, emit (RHandle a) HANDLE_WEBRTCUP (Data (JObj [])) w)
  else if is_str janus "slowlink" then
    (Return tt,
     emit (RHandle a) HANDLE_SLOWLINK
       (Data (JObj (copy_field "uplink" janus_message ++
                    copy_field "mid" janus_message ++
                    copy_field "media" janus_message ++
                    copy_field "lost" janus_message))) w)
  else if is_str janus "trickle" then
    match prop "candidate" janus_message with
    | JUndefined | JNull => (Throw TypeError, w)
    | candidate =>
        let field name := match member candidate name with
                          | Return v => v
                          | Throw _ => JUndefined
                          end in
        if negb (truthy (field "completed"))
        then (Return tt,
              emit (RHandle a) HANDLE_TRICKLE
                (Data (JObj [("sdpMid", field "sdpMid");
                             ("sdpMLineIndex", field "sdpMLineIndex");
                             ("candidate", field "candidate")])) w)
        else (Return tt,
              emit (RHandle a) HANDLE_TRICKLE (Data (JObj [("completed", JBool true)])) w)
    end
  else (Return tt, w).

(** [_handleMessage(janus_message)] of the handle at address [a]. *)
Definition Handle_handleMessage (a : nat) (janus_message : JanusMessage) (w : World)
    : Completion unit * World :=
  match handles w !! a with
  | None => (Return tt, w)
  | Some h =>
      let transaction := prop "transaction" janus_message in
      let id := transaction_id transaction in
      let owned := truthy transaction && ownsTransaction a id w in
      if owned && isAckData janus_message then
        if _isTrickleTx id w
        then (Return tt, Handle_closeTransactionWithSuccess a h id (JObj janus_message) w)
        else (Return tt, w)
      else if owned && isResponseData janus_message then
        if isErrorData janus_message then
          match response_error janus_message with
          | Throw e => (Throw e, w)
          | Return error => (Return tt, Handle_closeTransactionWithError a h id error w)
          end
        else if _isHangupTx id w then
          (Return tt, Handle_closeTransactionWithSuccess a h id (JObj janus_message) w)
        else if _isDetachTx id w then
          (Return tt, Handle_closeTransactionWithSuccess a h id (JObj janus_message) w)
        else
          let _handled := truthy (handleMessage janus_message) in
          (Return tt, Handle_closeTransactionWithSuccess a h id (JObj janus_message) w)
      else Handle_dispatch a h janus_message w
  end.

(** How an awaited promise settled. *)
Inductive Settlement : Type :=
| Fulfilled (v : JsValue)
| Rejected (e : JsError).

(** [detach()] up to [await this.sendRequest(request)]: the two guards, then
    [_detaching = true] and the request is sent. *)
Definition Handle_detach_begin (a : nat) (w : World) : Completion unit * World :=
  match handles w !! a with
  | None => (Return tt, w)
  | Some h =>
      if _detaching h then (Throw (Error "detaching already in progress"), w)
      else if _detached h then (Throw (Error "already detached"), w)
      else (Return tt, upd_handle a (set_detaching true) w)
  end.

(** [detach()] after the [await]: [_signalDetach] when the request was
    answered; otherwise the [catch] resets [_detaching] and swallows the
    error.  Either way the promise of [detach()] is fulfilled. *)
Definition Handle_detach_resume (a : nat) (answer : Settlement) (w : World)
    : Settlement * World :=
  match answer with
  | Fulfilled _ => (Fulfilled JUndefined, Handle_signalDetach a w)
  | Rejected error => (Fulfilled JUndefined, upd_handle a (set_detaching false) w)
  end.

(* ===================================================================== *)
(** ** session.ts                                                         *)
(* ===================================================================== *)

Definition set_destroy_flags (destroying destroyed : bool) (s : Session) : Session :=
  mkSession (s_id s) destroying destroyed (_handles s) (_ka_task s)
            (s_onDestroyed s) (s_maxListeners s).

(** [_setKeepAlive(delay)]: nothing when a task is armed already, else an
    interval of period [delay] whose ticks run [_sendKeepAlive(delay / 2)].
    The only call passes [ka_interval * 1000], a multiple of two. *)
Definition _setKeepAlive (delay : Z) (s : Session) : Session :=
  match _ka_task s with
  | Some _ => s
  | None =>
      let timeout := delay / 2 in
      mkSession (s_id s) (_destroying s) (_destroyed s) (_handles s)
                (Some (mkKaTask delay timeout)) (s_onDestroyed s) (s_maxListeners s)
  end.

Definition _unsetKeepAlive (s : Session) : Session :=
  match _ka_task s with
  | None => s
  | Some _ =>
      mkSession (s_id s) (_destroying s) (_destroyed s) (_handles s)
                None (s_onDestroyed s) (s_maxListeners s)
  end.

Definition clear_handles (s : Session) : Session :=
  mkSession (s_id s) (_destroying s) (_destroyed s) ∅ (_ka_task s)
            (s_onDestroyed s) (s_maxListeners s).

Definition session_removeAllListeners (s : Session) : Session :=
  mkSession (s_id s) (_destroying s) (_destroyed s) (_handles s) (_ka_task s)
            [] (s_maxListeners s).

Definition session_on_destroyed (l : SessionListener) (s : Session) : Session :=
  mkSession (s_id s) (_destroying s) (_destroyed s) (_handles s) (_ka_task s)
            (s_onDestroyed s ++ [l]) (s_maxListeners s).

(** [connection.removeListener] for the two listeners of a session. *)
Definition connection_removeListeners (a : nat) (c : Connection) : Connection :=
  mkConnection (c_addr c) (c_id c) (c_link c) (_sessions c)
               (filter (fun a' => a' <> a) (c_onClosed c))
               (filter (fun a' => a' <> a) (c_onError c)) (c_maxListeners c).

(** The listener of [Connection.create]:
    [this._sessions.delete(id); this.setMaxListeners(this.getMaxListeners() - 2)]. *)
Definition connection_forget_session (id : Z) (c : Connection) : Connection :=
  mkConnection (c_addr c) (c_id c) (c_link c) (delete id (_sessions c))
               (c_onClosed c) (c_onError c) (c_maxListeners c - 2).

Definition run_session_listener (id : Z) (w : World) (l : SessionListener) : World :=
  match l with
  | ConnectionForgetsSession => upd_connection (connection_forget_session id) w
  | HandleDetaches h => Handle_signalDetach h w
  end.

(** [_signalDestroy()]. *)
Definition Session_signalDestroy (a : nat) (w : World) : World :=
  match sessions w !! a with
  | None => w
  | Some s =>
      if _destroyed s then w
      else
        let w := upd_session a (set_destroy_flags false true) w in
        let w := upd_session a _unsetKeepAlive w in
        let w := upd_connection (connection_removeListeners a) w in
        let w := with_tm (closeAllTransactionsWithError (Some (session_owner a s))
                            (Error "session destroyed") (_tm w)) w in
        let w := upd_session a clear_handles w in
        let w := emit (RSession a) SESSION_DESTROYED (id_payload (s_id s)) w in
        let w := fold_left (run_session_listener (s_id s)) (s_onDestroyed s) w in
        upd_session a session_removeAllListeners w
  end.

(** The keep-alive request of one tick, seen from [_sendKeepAlive]: the
    number of milliseconds after which [sendRequest] settles and how, or
    [None] when it never does. *)
Definition KaReply : Type := option (Z * Settlement).

(** [_sendKeepAlive(timeout)]: the race of the request against a timer of
    [timeout] milliseconds.  The request wins when it settles before the
    timer: fulfilled (the [then] returns nothing) or rejected with the error
    of the request; otherwise the result is the rejection of the timer. *)
Definition _sendKeepAlive (timeout : Z) (reply : KaReply) : Settlement :=
  match reply with
  | Some (after, Fulfilled _) =>
      if after <? timeout then Fulfilled JUndefined else Rejected (Error "timeout")
  | Some (after, Rejected e) =>
      if after <? timeout then Rejected e else Rejected (Error "timeout")
  | None => Rejected (Error "timeout")
  end.

(** One tick of the interval armed by [_setKeepAlive]:
    [this._sendKeepAlive(timeout).catch(... this._signalDestroy())].  A
    cleared interval does not tick. *)
Definition keepalive_tick (a : nat) (reply : KaReply) (w : World) : World :=
  match sessions w !! a with
  | None => w
  | Some s =>
      match _ka_task s with
      | None => w
      | Some task =>
          match _sendKeepAlive (ka_timeout task) reply with
          | Fulfilled _ => w
          | Rejected _ => Session_signalDestroy a w
          end
      end
  end.

Definition connection_once_closed_error (a : nat) (c : Connection) : Connection :=
  mkConnection (c_addr c) (c_id c) (c_link c) (_sessions c)
               (c_onClosed c ++ [a]) (c_onError c ++ [a]) (c_maxListeners c).

(** [new Session(connection, id, ka_interval = 30)]. *)
Definition new_Session (id : Z) (ka_interval : option Z) (w : World) : nat * World :=
  let a := next_addr w in
  let s := mkSession id false false ∅ None [] 10 in
  let s := _setKeepAlive (default 30 ka_interval * 1000) s in
  let w := mkWorld (connection w) (_tm w) (<[a := s]> (sessions w)) (handles w)
                   (emitted w) (S a) in
  (a, upd_connection (connection_once_closed_error a) w).

Definition session_set_handle (id : Z) (h : nat) (s : Session) : Session :=
  mkSession (s_id s) (_destroying s) (_destroyed s) (<[id := h]> (_handles s))
            (_ka_task s) (s_onDestroyed s) (s_maxListeners s).

Definition session_more_listeners (n : Z) (s : Session) : Session :=
  mkSession (s_id s) (_destroying s) (_destroyed s) (_handles s)
            (_ka_task s) (s_onDestroyed s) (s_maxListeners s + n).

(** [new Handle(session, id)]. *)
Definition new_Handle (session : nat) (id : Z) (w : World) : nat * World :=
  let a := next_addr w in
  let h := mkHandle id session false false [] in
  let w := mkWorld (connection w) (_tm w) (sessions w) (<[a := h]> (handles w))
                   (emitted w) (S a) in
  (a, upd_session session (session_on_destroyed (HandleDetaches a)) w).

Definition handle_once_detached (l : HandleListener) (h : Handle) : Handle :=
  mkHandle (h_id h) (h_session h) (_detaching h) (_detached h) (h_onDetached h ++ [l]).

(** [attach()] after [await this.sendRequest(request)] answered with the
    handle id [id], for the generic handle. *)
Definition Session_attach_resume (a : nat) (id : Z) (w : World) : nat * World :=
  let w := upd_session a (session_more_listeners 1) w in
  let '(h, w) := new_Handle a id w in
  let w := upd_session a (session_set_handle id h) w in
  (h, upd_handle h (handle_once_detached (SessionForgetsHandle a)) w).

Definition Session_closeTransactionWithError (a : nat) (s : Session) (id : string)
    (error : JsError) (w : World) : World :=
  with_tm (closeTransactionWithError id (session_owner a s) error (_tm w)).2 w.

Definition Session_closeTransactionWithSuccess (a : nat) (s : Session) (id : string)
    (data : JsValue) (w : World) : World :=
  with_tm (closeTransactionWithSuccess id (session_owner a s) data (_tm w)).2 w.

(** [owner ? this._handles.get(owner.id) : null], then
    [handle && handle === owner]: the handle of this session that owns the
    transaction, if there is one. *)
Definition owning_handle (s : Session) (id : string) (w : World) : option nat :=
  match getTransactionOwner id (_tm w) with
  | None => None
  | Some owner =>
      match _handles s !! owner_id owner with
      | None => None
      | Some handle =>
          if bool_decide (RHandle handle = owner_ref owner) then Some handle else None
      end
  end.

(** [this._tm.getTransactionOwner(transaction) !== this]. *)
Definition not_owned_by (me : ObjRef) (id : string) (w : World) : bool :=
  match getTransactionOwner id (_tm w) with
  | Some owner => negb (bool_decide (owner_ref owner = me))
  | None => true
  end.

(** [_handleMessage(janus_message)] of the session at address [a]. *)
Definition Session_handleMessage (a : nat) (janus_message : JanusMessage) (w : World)
    : Completion unit * World :=
  match sessions w !! a with
  | None => (Return tt, w)
  | Some s =>
      let sender := prop "sender" janus_message in
      let transaction := prop "transaction" janus_message in
      let id := transaction_id transaction in
      if truthy sender then
        match table_get sender (_handles s) with
        | None => (Return tt, w)
        | Some handle => Handle_handleMessage handle janus_message w
        end
      else
        match (if truthy transaction then owning_handle s id w else None) with
        | Some handle => Handle_handleMessage handle janus_message w
        | None =>
            if truthy transaction then
              if not_owned_by (RSession a) id w then (Return tt, w)
              else if isResponseData janus_message || _isKeepaliveTx id w then
                if isErrorData janus_message then
                  match response_error janus_message with
                  | Throw e => (Throw e, w)
                  | Return error =>
                      (Return tt, Session_closeTransactionWithError a s id error w)
                  end
                else
                  (Return tt,
                   Session_closeTransactionWithSuccess a s id (JObj janus_message) w)
              else (Return tt, w)
            else if isTimeoutData janus_message then
              (Return tt, Session_signalDestroy a w)
            else (Return tt, w)
        end
  end.

(* ===================================================================== *)
(** ** connection.ts                                                      *)
(* ===================================================================== *)

Definition clear_sessions (c : Connection) : Connection :=
  mkConnection (c_addr c) (c_id c) (c_link c) ∅ (c_onClosed c) (c_onError c)
               (c_maxListeners c).

Definition connection_removeAllListeners (c : Connection) : Connection :=
  mkConnection (c_addr c) (c_id c) (c_link c) (_sessions c) [] [] (c_maxListeners c).

(** [_signalClose(graceful)]. *)
Definition Connection_signalClose (graceful : bool) (w : World) : World :=
  let w := with_tm (closeAllTransactionsWithError None (Error "connection closed") (_tm w)) w in
  let w := with_tm (tm_clear (_tm w)) w in
  let w := upd_connection clear_sessions w in
  let c := connection w in
  let w :=
    if graceful
    then fold_left (fun w a => Session_signalDestroy a w) (c_onClosed c)
           (emit (RConnection (c_addr c)) CONNECTION_CLOSED (id_payload (c_id c)) w)
    else fold_left (fun w a => Session_signalDestroy a w) (c_onError c)
           (emit (RConnection (c_addr c)) CONNECTION_ERROR
                 (Failure (Error "unexpected disconnection")) w) in
  upd_connection connection_removeAllListeners w.

(** [new Connection(server_config)].  The transport is the one that the
    scheme of the first address selects ([ws], [wss], [ws+unix], [wss+unix]:
    WebSocket; [file]: Unix datagram; anything else leaves the stub); the
    caller passes the outcome of that check. *)
Definition new_Connection (addr : nat) (id : Z) (server_config : Configuration)
    (transport : TransportKind) (tm_debug : bool) : World :=
  mkWorld
    (mkConnection addr id
       (mkLink server_config (newIterator (address server_config))
               (new_Transport transport))
       ∅ [] [] 10)
    (new_TransactionManager tm_debug) ∅ ∅ [] 0.

Definition connection_set_session (id : Z) (a : nat) (c : Connection) : Connection :=
  mkConnection (c_addr c) (c_id c) (c_link c) (<[id := a]> (_sessions c))
               (c_onClosed c) (c_onError c) (c_maxListeners c).

Definition connection_more_listeners (n : Z) (c : Connection) : Connection :=
  mkConnection (c_addr c) (c_id c) (c_link c) (_sessions c)
               (c_onClosed c) (c_onError c) (c_maxListeners c + n).

(** [create(ka_interval)] after [await this.sendRequest(request)] answered
    with the session id [id]. *)
Definition Connection_create_resume (id : Z) (ka_interval : option Z) (w : World)
    : nat * World :=
  let w := upd_connection (connection_more_listeners 2) w in
  let '(a, w) := new_Session id ka_interval w in
  let w := upd_connection (connection_set_session id a) w in
  (a, upd_session a (session_on_destroyed ConnectionForgetsSession) w).

(** [_handleMessage(janus_message)] of the connection; what the session
    throws is caught and logged. *)
Definition Connection_handleMessage (janus_message : JanusMessage) (w : World)
    : Completion (option PendingTransaction) * World :=
  let c := connection w in
  let session_id := prop "session_id" janus_message in
  let transaction := prop "transaction" janus_message in
  let id := transaction_id transaction in
  if truthy session_id && negb (is_admin (_config (c_link c))) then
    match table_get session_id (_sessions c) with
    | None => (Return None, w)
    | Some session =>
        (* try { session._handleMessage(janus_message) } catch (error) { log } *)
        (Return None, (Session_handleMessage session janus_message w).2)
    end
  else if truthy transaction then
    if not_owned_by (RConnection (c_addr c)) id w then (Return None, w)
    else if isResponseData janus_message then
      if isErrorData janus_message then
        match response_error janus_message with
        | Throw e => (Throw e, w)
        | Return error =>
            let r := closeTransactionWithError id (connection_owner c) error (_tm w) in
            (Return r.1, with_tm r.2 w)
        end
      else
        (Return None,
         with_tm (closeTransactionWithSuccess id (connection_owner c)
                    (JObj janus_message) (_tm w)).2 w)
    else (Return None, w)
  else (Return None, w).

(* ===================================================================== *)
(** ** What the caller of [sendRequest] observes                          *)
(* ===================================================================== *)

(** From [w] to [w'] the transaction [tx] pending under [id] has been
    closed by one call of the continuation [f] with [arg], and nothing else
    has changed: the other transactions, the objects and the emitted events
    are those of [w]. *)
Definition settled_with (id : string) (tx : PendingTransaction) (f : Callback) (arg : Arg)
    (w w' : World) : Prop :=
  calls (_tm w') = calls (_tm w) ++ [mkCall (tx_uid tx) f arg] /\
  tm_has id (_tm w') = false /\
  (forall k, k <> id -> tm_get k (_tm w') = tm_get k (_tm w)) /\
  connection w' = connection w /\
  sessions w' = sessions w /\
  handles w' = handles w /\
  emitted w' = emitted w.

(** The promise of the [sendRequest] that created [tx] is resolved with
    [data]: [tx.done(data)]. *)
Definition resolves (id : string) (tx : PendingTransaction) (data : JsValue)
    (w w' : World) : Prop :=
  settled_with id tx (tx_done tx) (Data data) w w'.

(** The promise of the [sendRequest] that created [tx] is rejected with
    [error]: [tx.error(error)]. *)
Definition rejects (id : string) (tx : PendingTransaction) (error : JsError)
    (w w' : World) : Prop :=
  settled_with id tx (tx_error tx) (Failure error) w w'.

(** What a definitive response [m] does to the transaction [tx] pending
    under [id]: [success] and [server_info] resolve the caller with the
    message itself, [error] rejects it with an [Error] whose message is the
    code, a space, and the reason of the [error] member of the message, each
    in the string form [code], [reason] that the template gives it. *)
Definition definitive_outcome (id : string) (tx : PendingTransaction) (m : JanusMessage)
    (w w' : World) : Prop :=
  ((prop "janus" m = JStr "success" \/ prop "janus" m = JStr "server_info") ->
   resolves id tx (JObj m) w w') /\
  (forall e code reason,
     prop "janus" m = JStr "error" -> prop "error" m = JObj e ->
     ToString (prop "code" e) = Return code ->
     ToString (prop "reason" e) = Return reason ->
     rejects id tx (Error (code +:+ " " +:+ reason)) w w').

(* ===================================================================== *)
(** ** What a teardown leaves alone                                       *)
(* ===================================================================== *)

(** An event emitted by a session or by a handle. *)
Definition child_event (e : Emitted) : Prop :=
  match em_source e with
  | RSession _ | RHandle _ => True
  | _ => False
  end.

(** From [w] to [w'] the link of the connection (configuration, iterator,
    transport) is untouched, an empty session table stays empty, the events
    of [w] are followed only by events of sessions and handles, the manager
    stays well formed, and a manager with no pending transaction is left as
    it is. *)
Record calm (w w' : World) : Prop := mk_calm {
  calm_link : c_link (connection w') = c_link (connection w);
  calm_addr : c_addr (connection w') = c_addr (connection w);
  calm_sessions : _sessions (connection w) = ∅ -> _sessions (connection w') = ∅;
  calm_emitted : exists rest, emitted w' = emitted w ++ rest /\ Forall child_event rest;
  calm_tm : tm_wf (_tm w) -> tm_wf (_tm w');
  calm_idle : transactions (_tm w) = [] -> _tm w' = _tm w
}.

(** The identifier, the flags and the keep-alive task of a session. *)
Definition session_core (s : Session) : Z * bool * bool * option KaTask :=
  (s_id s, _destroying s, _destroyed s, _ka_task s).

(** [calm], and no session changes its identifier, flags or keep-alive
    task. *)
Definition quiet (w w' : World) : Prop :=
  calm w w' /\
  forall a, session_core <$> (sessions w' !! a) = session_core <$> (sessions w !! a).

Definition set_link (l : Link) (c : Connection) : Connection :=
  mkConnection (c_addr c) (c_id c) l (_sessions c) (c_onClosed c) (c_onError c)
               (c_maxListeners c).

(** The connection is told of every closing that the transport reported. *)
Definition replay_closes (events : list NetEvent) (w : World) : World :=
  fold_left (fun w e => match e with
                        | Closed graceful => Connection_signalClose graceful w
                        | _ => w
                        end) events w.

(** [open()] of the connection: [await this._transport.open()]. *)
Definition Connection_open (network : nat -> string -> option Refusal) (w : World)
    : Completion unit * World :=
  let before := c_link (connection w) in
  let r := transport_open network before in
  (r.1,
   replay_closes (drop (length (net (_transport before))) (net (_transport r.2)))
                 (upd_connection (set_link r.2) w)).

(** [close()] of the connection, up to the closing of the socket. *)
Definition Connection_close (w : World) : Completion unit * World :=
  let l := c_link (connection w) in
  let r := transport_close (_transport l) in
  (r.1, upd_connection (set_link (with_transport r.2 l)) w).

(** The socket of the connection closed, after [close()] or unexpectedly. *)
Definition Connection_socket_closed (w : World) : World :=
  let l := c_link (connection w) in
  let graceful := _closing (_transport l) in
  Connection_signalClose graceful
    (upd_connection (set_link (with_transport (socket_closed (_transport l)) l)) w).

(* ===================================================================== *)
(** ** Scenarios                                                          *)
(* ===================================================================== *)

(** Two owners with the same [id] that are different objects. *)
Definition demo_handle : TransactionOwner := mkOwner (RHandle 1) 7.
Definition demo_twin : TransactionOwner := mkOwner (RHandle 2) 7.

Definition demo_run : list Op :=
  [OpCreate "T1" demo_handle "trickle" (Resolve 0) (Reject 0) 100;
   OpCreate "T2" demo_handle "message" (Resolve 1) (Reject 1) 0].

(** Two addresses, one retry, no wait, and a network on which nothing
    connects. *)
Definition demo_A : ServerObjectConf := mkServer "ws://a.example:8188" "secret" None.
Definition demo_B : ServerObjectConf := mkServer "ws://b.example:8188" "secret" None.
Definition demo_config : Configuration := mkConfiguration [demo_A; demo_B] 0 1 false.
Definition demo_network_down (n : nat) (to : string) : option Refusal :=
  Some (mkRefusal (Error ("connect ECONNREFUSED " +:+ to)) true).
Definition demo_network_up (n : nat) (to : string) : option Refusal := None.
Definition demo_link : Link :=
  mkLink demo_config (newIterator [demo_A; demo_B]) (new_Transport WebSocketTransport).

(** A connection (id 1) opened on the first address, its session 42 created
    with a keep-alive interval of one second, and the handle 7 attached to
    it. *)
Definition demo_opened : World :=
  (Connection_open demo_network_up
     (new_Connection 0 1 demo_config WebSocketTransport false)).2.
Definition demo_with_session : World :=
  (Connection_create_resume 42 (Some 1) demo_opened).2.
Definition demo_attached : World :=
  (Session_attach_resume 0 7 demo_with_session).2.

Definition demo_connection_owner : TransactionOwner := mkOwner (RConnection 0) 1.
Definition demo_session_owner : TransactionOwner := mkOwner (RSession 0) 42.

(** Four requests in flight: [info] from the connection, [destroy] from the
    session, [message] and [trickle] from the handle. *)
Definition demo_requests : list Op :=
  [OpCreate "T1" demo_connection_owner "info" (Resolve 0) (Reject 0) 0;
   OpCreate "T3" demo_session_owner "destroy" (Resolve 1) (Reject 1) 0;
   OpCreate "T4" demo_handle "message" (Resolve 2) (Reject 2) 0;
   OpCreate "T5" demo_handle "trickle" (Resolve 3) (Reject 3) 0].

Definition demo_world : World :=
  with_tm (run demo_requests (_tm demo_attached)) demo_attached.

Definition demo_tx1 : PendingTransaction :=
  mkTx "T1" demo_connection_owner "info" (Resolve 0) (Reject 0) None 0.
Definition demo_tx3 : PendingTransaction :=
  mkTx "T3" demo_session_owner "destroy" (Resolve 1) (Reject 1) None 1.
Definition demo_tx4 : PendingTransaction :=
  mkTx "T4" demo_handle "message" (Resolve 2) (Reject 2) None 2.
Definition demo_tx5 : PendingTransaction :=
  mkTx "T5" demo_handle "trickle" (Resolve 3) (Reject 3) None 3.

Definition demo_session : Session :=
  mkSession 42 false false {[7 := 1%nat]} (Some (mkKaTask 1000 500))
            [ConnectionForgetsSession; HandleDetaches 1] 11.
Definition demo_handle_object : Handle :=
  mkHandle 7 0 false false [SessionForgetsHandle 0].

(** The messages of the end-to-end scenarios. *)
Definition demo_ack : JanusMessage :=
  [("janus", JStr "ack"); ("transaction", JStr "T5"); ("session_id", JNum 42)].
Definition demo_ack_message : JanusMessage :=
  [("janus", JStr "ack"); ("transaction", JStr "T4"); ("session_id", JNum 42)].
Definition demo_error : JanusMessage :=
  [("janus", JStr "error"); ("transaction", JStr "T4"); ("session_id", JNum 42);
   ("sender", JNum 7);
   ("error", JObj [("code", JNum 432); ("reason", JStr "no such room")])].
Definition demo_info : JanusMessage :=
  [("janus", JStr "server_info"); ("transaction", JStr "T1"); ("name", JStr "Janus")].
Definition demo_destroyed : JanusMessage :=
  [("janus", JStr "success"); ("transaction", JStr "T3"); ("session_id", JNum 42)].

(** A record that no operation of the manager can reach any more: it is
    not in the table, its timer is not armed, and none of its continuations
    has been called. *)
Definition stranded (u : nat) (tm : TransactionManager) : Prop :=
  unstored u tm /\ timers tm !! u = None /\ u ∉ called tm.

(** [n] calls of [nextElem()] in a row: what they return, oldest first, and
    the iterator they leave. *)
Fixpoint nextElems {T} (n : nat) (it : CircularIterator T)
    : list (option T) * CircularIterator T :=
  match n with
  | O => ([], it)
  | S n' =>
      let r := nextElem it in
      let rest := nextElems n' r.2 in
      (r.1 :: rest.1, rest.2)
  end.

(* ===================================================================== *)
(** ** tmanager.ts (module utils): identifiers and random strings        *)
(* ===================================================================== *)

(** [Number.MAX_SAFE_INTEGER], 2^53 - 1. *)
Definition MAX_SAFE_INTEGER : Z := 9007199254740991.

(** [getNumericID()]: the closure keeps [next], seeded at load time with
    [Math.floor(Number.MAX_SAFE_INTEGER * Math.random())]; a call returns
    the old value as a string (['' + now]) and steps the counter, which
    starts again from 0 when it reaches [MAX_SAFE_INTEGER]. *)
Definition getNumericID (next : Z) : string * Z :=
  let now := next in
  let next := next + 1 in
  let next := if next >=? MAX_SAFE_INTEGER then 0 else next in
  (Number_toString now, next).

(** [n] calls of [getNumericID()] in a row. *)
Fixpoint numericIDs (n : nat) (next : Z) : list string * Z :=
  match n with
  | O => ([], next)
  | S n' =>
      let r := getNumericID next in
      let rest := numericIDs n' r.2 in
      (r.1 :: rest.1, rest.2)
  end.

Definition charSet : string :=
  "ABCDEFGHIJKLMNOPQRSTUVWXYZabcdefghijklmnopqrstuvwxyz0123456789".

(** The [for] loop of [randomString]: [rand i] is the value of
    [Math.floor(Math.random() * charSet.length)] in the iteration [i], and
    [charSet.substring(p, p + 1)] is the character at [p], or nothing when
    [p] is out of range. *)
Fixpoint randomString_loop (todo i : nat) (rand : nat -> nat) (randomString : string)
    : string :=
  match todo with
  | O => randomString
  | S todo' =>
      let randomPoz := rand i in
      randomString_loop todo' (S i) rand
        (randomString +:+ String.substring randomPoz 1 charSet)
  end.

(** [randomString(len = 12)] for an integer [len]; the loop does not run
    when [len] is not positive. *)
Definition randomString (len : option Z) (rand : nat -> nat) : string :=
  randomString_loop (Z.to_nat (default 12 len)) 0 rand "".

(** [c] is one of the characters of [charSet]. *)
Definition alphanumeric (c : Ascii.ascii) : bool :=
  existsb (Ascii.eqb c) (String.list_ascii_of_string charSet).

(** The waits of the transport so far, in milliseconds. *)
Definition slept (t : Transport) : list Z :=
  omap (fun e => match e with Sleep ms => Some ms | _ => None end) (net t).

(** The address that the attempt number [j] of an [open()] dials, when the
    iterator stood at [it] before the first attempt. *)
Definition address_of_attempt (it : CircularIterator ServerObjectConf) (j : nat)
    : option ServerObjectConf :=
  it_l it !! ((it_i it + j) mod length (it_l it))%nat.

(** The urls dialled by the attempts [0 .. n-1]. *)
Definition urls_of_attempts (it : CircularIterator ServerObjectConf) (n : nat)
    : list string :=
  omap (fun j => url <$> address_of_attempt it j) (seq 0 n).

(** What happens to a transport: [open()] on some network, [close()], and
    the socket reporting that it closed. *)
Inductive TransportOp : Type :=
| TOpen (network : nat -> string -> option Refusal)
| TClose
| TSocketClosed.

Definition transport_step (c : Link) (op : TransportOp) : Link :=
  match op with
  | TOpen network => (transport_open network c).2
  | TClose => with_transport (transport_close (_transport c)).2 c
  | TSocketClosed => with_transport (socket_closed (_transport c)) c
  end.

Definition transport_run (ops : list TransportOp) (c : Link) : Link :=
  fold_left transport_step ops c.

(** Three addresses, two retries, a wait of two seconds. *)
Definition demo_C : ServerObjectConf := mkServer "ws://c.example:8188" "secret" (Some "tk").
Definition demo_link3 : Link :=
  mkLink (mkConfiguration [demo_A; demo_B; demo_C] 2 2 false)
         (newIterator [demo_A; demo_B; demo_C]) (new_Transport WebSocketTransport).

(** A network on which only the third socket connects. *)
Definition demo_network_flaky (n : nat) (to : string) : option Refusal :=
  if (n <? 2)%nat then Some (mkRefusal (Error ("connect ECONNREFUSED " +:+ to)) true)
  else None.

Definition demo_refusals (j : nat) : Refusal :=
  mkRefusal (Error ("connect ECONNREFUSED " +:+
                    match j with
                    | O => "ws://a.example:8188"
                    | 1%nat => "ws://b.example:8188"
                    | _ => "ws://c.example:8188"
                    end)) true.

(* ===================================================================== *)
(** ** session.ts: [destroy()]                                            *)
(* ===================================================================== *)

Definition set_destroying (destroying : bool) (s : Session) : Session :=
  mkSession (s_id s) destroying (_destroyed s) (_handles s) (_ka_task s)
            (s_onDestroyed s) (s_maxListeners s).

(** [destroy()] up to [await this.sendRequest(request)]: the two guards,
    then [_destroying = true] and the request is sent. *)
Definition Session_destroy_begin (a : nat) (w : World) : Completion unit * World :=
  match sessions w !! a with
  | None => (Return tt, w)
  | Some s =>
      if _destroying s then (Throw (Error "destroying already in progress"), w)
      else if _destroyed s then (Throw (Error "session already destroyed"), w)
      else (Return tt, upd_session a (set_destroying true) w)
  end.

(** [destroy()] after the [await]: [_signalDestroy] when the request was
    answered; otherwise the [catch] resets [_destroying] and throws the
    error again, so the promise of [destroy()] is rejected with it. *)
Definition Session_destroy_resume (a : nat) (answer : Settlement) (w : World)
    : Settlement * World :=
  match answer with
  | Fulfilled _ => (Fulfilled JUndefined, Session_signalDestroy a w)
  | Rejected error => (Rejected error, upd_session a (set_destroying false) w)
  end.

(** The call that fails the pending transaction [tx] with [error]. *)
Definition failed_with (error : JsError) (tx : PendingTransaction) : Call :=
  mkCall (tx_uid tx) (tx_error tx) (Failure error).

(** The transaction [tx] belongs to the object [r]. *)
Definition owned_by (r : ObjRef) (tx : PendingTransaction) : Prop :=
  owner_ref (tx_owner tx) = r.

(** What the detaching of the handle [ha] has established, and what
    everything that follows in a teardown keeps. *)
Record detached_in (ha : nat) (h : Handle) (torn : list (string * PendingTransaction))
    (w : World) : Prop := mk_detached_in {
  di_handle : exists h', handles w !! ha = Some h' /\
                         _detached h' = true /\ _detaching h' = false;
  di_event : mkEmitted (RHandle ha) HANDLE_DETACHED (id_payload (h_id h)) ∈ emitted w;
  di_gone : forall k tx, (k, tx) ∈ transactions (_tm w) -> ~ owned_by (RHandle ha) tx;
  di_failed : forall k tx, (k, tx) ∈ torn -> owned_by (RHandle ha) tx ->
                failed_with (Error "handle detached") tx ∈ calls (_tm w);
  di_wf : tm_wf (_tm w)
}.

(** The events that a handle only reports: the name it emits and the
    members of the message that it copies, in the order of the code. *)
Definition reported_event (janus : string) : option (string * list string) :=
  if String.eqb janus "ice-failed" then Some (HANDLE_ICE_FAILED, [])
  else if String.eqb janus "hangup" then Some (HANDLE_HANGUP, ["reason"])
  else if String.eqb janus "media" then
    Some (HANDLE_MEDIA, ["type"; "receiving"; "mid"; "substream"; "seconds"])
  else if String.eqb janus "webrtcup" then Some (HANDLE_WEBRTCUP, [])
  else if String.eqb janus "slowlink" then
    Some (HANDLE_SLOWLINK, ["uplink"; "mid"; "media"; "lost"])
  else None.

(** An error response whose [error] member is missing. *)
Definition demo_bare_error : JanusMessage :=
  [("janus", JStr "error"); ("transaction", JStr "T4"); ("session_id", JNum 42);
   ("sender", JNum 7)].

(** An event of the plugin that answers the [message] request [T4]. *)
Definition demo_event : JanusMessage :=
  [("janus", JStr "event"); ("transaction", JStr "T4"); ("session_id", JNum 42);
   ("sender", JNum 7); ("plugindata", JObj [])].

(** A [media] event. *)
Definition demo_media : JanusMessage :=
  [("janus", JStr "media"); ("session_id", JNum 42); ("sender", JNum 7);
   ("type", JStr "audio"); ("receiving", JBool true); ("transaction", JStr "T4")].

(** The value has a string form: a template that prints it, as those of the
    log lines do, does not throw. *)
Definition has_string_form (v : JsValue) : Prop := ToString v <> Throw TypeError.

(** An error response whose code is an object with a member [toString]. *)
Definition demo_odd_error : JanusMessage :=
  [("janus", JStr "error"); ("transaction", JStr "T4"); ("session_id", JNum 42);
   ("sender", JNum 7);
   ("error", JObj [("code", JObj [("toString", JNum 1)]); ("reason", JStr "x")])].

(* ===================================================================== *)
(** ** [_decorateRequest] of the handle, the session and the connection   *)
(* ===================================================================== *)

(** A request: the object that the caller hands to [sendRequest], which the
    decorations update in place. *)
Definition JanodeRequest : Type := list (string * JsValue).

(** [request.name = request.name || value]. *)
Definition keep_or_set (name : string) (value : JsValue) (request : JanodeRequest)
    : JanodeRequest :=
  Map_set name (if truthy (prop name request) then prop name request else value) request.

(** [request.transaction = request.transaction || getNumericID()]: the
    counter is stepped only when the request has no transaction yet. *)
Definition decorate_transaction (request : JanodeRequest) (next : Z)
    : JanodeRequest * Z :=
  if truthy (prop "transaction" request)
  then (Map_set "transaction" (prop "transaction" request) request, next)
  else
    let r := getNumericID next in
    (Map_set "transaction" (JStr r.1) request, r.2).

(** [Handle._decorateRequest(request)]. *)
Definition Handle_decorateRequest (h : Handle) (request : JanodeRequest) (next : Z)
    : JanodeRequest * Z :=
  let r := decorate_transaction request next in
  (keep_or_set "handle_id" (JNum (h_id h)) r.1, r.2).

(** [Session._decorateRequest(request)]. *)
Definition Session_decorateRequest (s : Session) (request : JanodeRequest) (next : Z)
    : JanodeRequest * Z :=
  let r := decorate_transaction request next in
  (keep_or_set "session_id" (JNum (s_id s)) r.1, r.2).

(** [Connection._decorateRequest(request)]: the secret of the current
    address goes to [apisecret], or to [admin_secret] on an admin
    connection, unless the request has one; its token replaces the one of
    the request.  Reading the current address of an empty iterator gives
    [undefined], whose member access throws. *)
Definition Connection_decorateRequest (c : Link) (request : JanodeRequest) (next : Z)
    : Completion unit * (JanodeRequest * Z) :=
  let r := decorate_transaction request next in
  match currElem (_address_iterator c) with
  | None => (Throw TypeError, r)
  | Some server =>
      let request :=
        if negb (String.eqb (apisecret server) "") then
          if negb (is_admin (_config c))
          then keep_or_set "apisecret" (JStr (apisecret server)) r.1
          else keep_or_set "admin_secret" (JStr (apisecret server)) r.1
        else r.1 in
      let request :=
        match token server with
        | Some t => if negb (String.eqb t "") then Map_set "token" (JStr t) request
                    else request
        | None => request
        end in
      (Return tt, (request, r.2))
  end.

(** A request as [Handle.sendRequest] passes it down when no [sendRequest]
    on the way refuses it: decorated by the handle, by its session, and by
    the connection. *)
Definition decorated (h : Handle) (s : Session) (c : Link)
    (request : JanodeRequest) (next : Z) : Completion unit * (JanodeRequest * Z) :=
  let r1 := Handle_decorateRequest h request next in
  let r2 := Session_decorateRequest s r1.1 r1.2 in
  Connection_decorateRequest c r2.1 r2.2.

(** A [message] request of a plugin, with a secret of its own. *)
Definition demo_request : JanodeRequest :=
  [("janus", JStr "message"); ("body", JObj [("request", JStr "list")]);
   ("apisecret", JStr "mine"); ("token", JStr "old")].

(* ===================================================================== *)
(** * Properties                                                          *)
(* ===================================================================== *)

(** ** The insertion-ordered map *)

Section JsMapFacts.
Context {V : Type}.
Implicit Types (m : list (string * V)) (k : string) (v : V).

Lemma Map_get_elem m k v : Map_get k m = Some v -> (k, v) ∈ m.
Proof.
  induction m as [|[k' v'] m IH]; simpl; [done|].
  destruct (String.eqb_spec k' k) as [->|Hne].
  - intros [= ->]. left.
  - intros H. right. auto.
Qed.

Lemma Map_get_notin m k : k ∉ m.*1 -> Map_get k m = None.
Proof.
  induction m as [|[k' v'] m IH]; simpl; [done|].
  intros Hn. apply not_elem_of_cons in Hn as [Hne Hn].
  destruct (String.eqb_spec k' k); [congruence|auto].
Qed.

Lemma Map_elem_get m k v : NoDup (m.*1) -> (k, v) ∈ m -> Map_get k m = Some v.
Proof.
  induction m as [|[k' v'] m IH]; simpl; intros Hnd Hin.
  - by apply elem_of_nil in Hin.
  - apply NoDup_cons in Hnd as [Hk Hnd].
    apply elem_of_cons in Hin as [[= -> ->]|Hin].
    + by rewrite String.eqb_refl.
    + destruct (String.eqb_spec k' k) as [->|Hne]; [|auto].
      exfalso. apply Hk. apply list_elem_of_fmap. by exists (k, v).
Qed.

Lemma Map_delete_subset m k x : x ∈ Map_delete k m -> x ∈ m.
Proof.
  induction m as [|[k' v'] m IH]; simpl; [done|].
  destruct (String.eqb k' k).
  - intros H. right. auto.
  - intros H. apply elem_of_cons in H as [->|H]; [left|right; auto].
Qed.

Lemma Map_delete_elem m k k' v :
  (k', v) ∈ Map_delete k m <-> (k', v) ∈ m /\ k' <> k.
Proof.
  induction m as [|[k1 v1] m IH]; simpl.
  - split; [intros H; by apply elem_of_nil in H|intros [H _]; by apply elem_of_nil in H].
  - destruct (String.eqb_spec k1 k) as [->|Hne].
    + rewrite IH. split.
      * intros [H1 H2]. split; [by right|done].
      * intros [H1 H2]. apply elem_of_cons in H1 as [[= -> ->]|H1]; [done|auto].
    + rewrite !elem_of_cons, IH. split.
      * intros [[= -> ->]|[H1 H2]]; auto.
      * intros [[[= -> ->]|H1] H2]; auto.
Qed.

Lemma Map_delete_keys_sub m k x : x ∈ (Map_delete k m).*1 -> x ∈ m.*1.
Proof.
  intros H. apply list_elem_of_fmap in H as [[k' v'] [-> H]].
  apply Map_delete_subset in H. apply list_elem_of_fmap. by exists (k', v').
Qed.

Lemma Map_delete_NoDup m k : NoDup (m.*1) -> NoDup ((Map_delete k m).*1).
Proof.
  induction m as [|[k' v'] m IH]; simpl; [done|].
  intros Hnd. apply NoDup_cons in Hnd as [Hk Hnd].
  destruct (String.eqb k' k); [auto|].
  simpl. apply NoDup_cons. split; [|auto].
  intros H. apply Hk. by apply Map_delete_keys_sub in H.
Qed.

Lemma Map_get_delete_eq m k : Map_get k (Map_delete k m) = None.
Proof.
  induction m as [|[k' v'] m IH]; simpl; [done|].
  destruct (String.eqb_spec k' k) as [->|Hne]; [done|].
  simpl. destruct (String.eqb_spec k' k); [congruence|done].
Qed.

Lemma Map_get_delete_ne m k k' :
  k' <> k -> Map_get k' (Map_delete k m) = Map_get k' m.
Proof.
  intros Hne. induction m as [|[k1 v1] m IH]; simpl; [done|].
  destruct (String.eqb_spec k1 k) as [->|Hne1].
  - destruct (String.eqb_spec k k'); [congruence|done].
  - simpl. by rewrite IH.
Qed.

Lemma Map_delete_absent m k : Map_get k m = None -> Map_delete k m = m.
Proof.
  induction m as [|[k' v'] m IH]; simpl; [done|].
  destruct (String.eqb_spec k' k) as [->|Hne]; [done|].
  intros H. by rewrite IH.
Qed.

Lemma Map_set_fresh m k v : Map_get k m = None -> Map_set k v m = m ++ [(k, v)].
Proof.
  induction m as [|[k' v'] m IH]; simpl; [done|].
  destruct (String.eqb_spec k' k) as [->|Hne]; [done|].
  intros H. by rewrite IH.
Qed.

Lemma Map_get_None_keys m k : Map_get k m = None -> k ∉ m.*1.
Proof.
  induction m as [|[k' v'] m IH]; simpl.
  - intros _ H. by apply elem_of_nil in H.
  - destruct (String.eqb_spec k' k) as [->|Hne]; [done|].
    intros H Hin. apply elem_of_cons in Hin as [->|Hin]; [done|]. by apply IH.
Qed.

End JsMapFacts.

(** ** The transaction manager *)

Lemma tm_get_spec id tm :
  tm_get id tm = if String.eqb id "" then None else Map_get id (transactions tm).
Proof.
  unfold tm_get, tm_has, Map_has.
  destruct (String.eqb id ""); [done|].
  by destruct (Map_get id (transactions tm)).
Qed.

Lemma tm_get_Some id tm tx :
  tm_get id tm = Some tx <-> id <> "" /\ Map_get id (transactions tm) = Some tx.
Proof.
  rewrite tm_get_spec. destruct (String.eqb_spec id "") as [->|Hne].
  - split; [done|]. by intros [? _].
  - split; [by intros ->|by intros [_ ->]].
Qed.

Lemma tm_has_get id tm : tm_has id tm = bool_decide (is_Some (tm_get id tm)).
Proof.
  rewrite tm_get_spec. unfold tm_has, Map_has.
  destruct (String.eqb id "").
  - symmetry. apply bool_decide_eq_false. by intros [? ?].
  - destruct (Map_get id (transactions tm)) eqn:E.
    + symmetry. by apply bool_decide_eq_true.
    + symmetry. apply bool_decide_eq_false. by intros [? ?].
Qed.

Lemma tm_has_false id tm : tm_has id tm = false <-> tm_get id tm = None.
Proof.
  rewrite tm_has_get. rewrite bool_decide_eq_false.
  destruct (tm_get id tm); split; try done.
  all: try (intros H; exfalso; apply H; by eexists).
  all: try (intros _ [? ?]; done).
Qed.

Lemma getTransactionOwner_spec id tm :
  getTransactionOwner id tm = tx_owner <$> tm_get id tm.
Proof.
  unfold getTransactionOwner.
  destruct (String.eqb id "") eqn:E.
  - by rewrite tm_get_spec, E.
  - destruct (tm_has id tm) eqn:H; simpl; [done|].
    apply tm_has_false in H. by rewrite H.
Qed.

Lemma tm_delete_spec id tm :
  tm_delete id tm =
    if String.eqb id "" then tm
    else with_transactions (Map_delete id (transactions tm)) tm.
Proof.
  unfold tm_delete. destruct (String.eqb id "") eqn:E; [done|].
  destruct (tm_has id tm) eqn:H; simpl; [done|].
  apply tm_has_false in H. rewrite tm_get_spec, E in H.
  rewrite Map_delete_absent by done. by destruct tm.
Qed.

Lemma same_owner_true a b : same_owner a b = true <-> owner_ref a = owner_ref b.
Proof. unfold same_owner. apply bool_decide_eq_true. Qed.

Lemma same_owner_false a b : same_owner a b = false <-> owner_ref a <> owner_ref b.
Proof. unfold same_owner. apply bool_decide_eq_false. Qed.

Lemma closeTransactionWithError_spec id owner err tm :
  closeTransactionWithError id owner err tm =
    match tm_get id tm with
    | Some tx =>
        if same_owner (tx_owner tx) owner
        then (Some tx, close_effect tx id (tx_error tx) (Failure err) tm)
        else (None, tm)
    | None => (None, tm)
    end.
Proof.
  unfold closeTransactionWithError, close_effect.
  destruct (tm_get id tm) as [tx|]; [|done].
  by destruct (same_owner (tx_owner tx) owner).
Qed.

Lemma closeTransactionWithSuccess_spec id owner data tm :
  closeTransactionWithSuccess id owner data tm =
    match tm_get id tm with
    | Some tx =>
        if same_owner (tx_owner tx) owner
        then (Some tx, close_effect tx id (tx_done tx) (Data data) tm)
        else (None, tm)
    | None => (None, tm)
    end.
Proof.
  unfold closeTransactionWithSuccess, close_effect.
  destruct (tm_get id tm) as [tx|]; [|done].
  by destruct (same_owner (tx_owner tx) owner).
Qed.

(** C2. Closing with an id that is not in the table, or with an owner that
    is not the very object recorded at creation, changes nothing: the
    manager (table, timers, invoked continuations) is returned as it was and
    no record is returned, for the success and for the error variant. *)
Theorem close_missing_or_foreign_is_noop
    (tm : TransactionManager) (id : string) (owner : TransactionOwner) :
  (tm_has id tm = false \/
   exists recorded, getTransactionOwner id tm = Some recorded /\
                    owner_ref recorded <> owner_ref owner) ->
  forall (data : JsValue) (err : JsError),
    closeTransactionWithSuccess id owner data tm = (None, tm) /\
    closeTransactionWithError id owner err tm = (None, tm).
Proof.
  intros H data err.
  rewrite closeTransactionWithSuccess_spec, closeTransactionWithError_spec.
  destruct H as [H|(recorded & Ho & Hne)].
  - apply tm_has_false in H. by rewrite H.
  - rewrite getTransactionOwner_spec in Ho.
    destruct (tm_get id tm) as [tx|]; [|done].
    simpl in Ho. injection Ho as <-.
    apply same_owner_false in Hne. by rewrite Hne.
Qed.

(** *** The invariant of the manager *)

Lemma tm_wf_new dbg : tm_wf (new_TransactionManager dbg).
Proof.
  split; simpl.
  - constructor.
  - intros k tx H. by apply elem_of_nil in H.
  - intros k1 tx1 k2 tx2 H. by apply elem_of_nil in H.
  - intros h task H. by rewrite lookup_empty in H.
  - constructor.
  - intros u H. by apply elem_of_nil in H.
Qed.

Lemma tm_wf_clear tm : tm_wf tm -> tm_wf (tm_clear tm).
Proof.
  intros [H1 H2 H3 H4 H5 H6]. split; simpl.
  - constructor.
  - intros k tx H. by apply elem_of_nil in H.
  - intros k1 tx1 k2 tx2 H. by apply elem_of_nil in H.
  - intros h task H. destruct (H4 h task H) as (? & ? & ?).
    repeat split; try done. intros k tx Hin. by apply elem_of_nil in Hin.
  - done.
  - done.
Qed.

Lemma tm_get_elem tm id tx :
  tm_wf tm -> tm_get id tm = Some tx <-> (id, tx) ∈ transactions tm.
Proof.
  intros Hwf. rewrite tm_get_Some. split.
  - intros [_ H]. by apply Map_get_elem.
  - intros H. split.
    + by destruct (wf_entry _ Hwf _ _ H) as (_ & ? & _).
    + apply Map_elem_get; [apply Hwf|done].
Qed.

Lemma close_effect_fields tx id f a tm :
  id <> "" ->
  transactions (close_effect tx id f a tm) = Map_delete id (transactions tm) /\
  timers (close_effect tx id f a tm) =
    match tx_timeout tx with Some t => delete t (timers tm) | None => timers tm end /\
  calls (close_effect tx id f a tm) = calls tm ++ [mkCall (tx_uid tx) f a] /\
  next_uid (close_effect tx id f a tm) = next_uid tm.
Proof.
  intros Hid. unfold close_effect. rewrite tm_delete_spec.
  destruct (String.eqb_spec id ""); [done|].
  unfold clearTimeout. by destruct (tx_timeout tx).
Qed.

Lemma called_snoc tm c : call_tx <$> (calls tm ++ [c]) = called tm ++ [call_tx c].
Proof. unfold called. by rewrite fmap_app. Qed.

Lemma tm_wf_close_effect tx id f a tm :
  tm_wf tm -> tm_get id tm = Some tx -> tm_wf (close_effect tx id f a tm).
Proof.
  intros Hwf Hget.
  assert (Hin : (id, tx) ∈ transactions tm) by (by apply tm_get_elem).
  destruct (wf_entry _ Hwf _ _ Hin) as (Hk & Hid & Hlt & Hnc & Hto).
  destruct (close_effect_fields tx id f a tm Hid) as (Et & Eti & Ec & En).
  assert (Hgone : timers (close_effect tx id f a tm) !! tx_uid tx = None).
  { rewrite Eti. destruct Hto as [->|[-> Hn]]; [apply lookup_delete_eq|done]. }
  assert (Hsub : forall h task, timers (close_effect tx id f a tm) !! h = Some task ->
                                timers tm !! h = Some task).
  { intros h task. rewrite Eti. destruct (tx_timeout tx); [|done].
    intros H. apply lookup_delete_Some in H. tauto. }
  assert (Hcalled : called (close_effect tx id f a tm) = called tm ++ [tx_uid tx]).
  { unfold called at 1. rewrite Ec. apply called_snoc. }
  split.
  - rewrite Et. apply Map_delete_NoDup, Hwf.
  - intros k tx' H. rewrite Et in H. apply Map_delete_elem in H as [H Hne].
    destruct (wf_entry _ Hwf _ _ H) as (Hk' & Hid' & Hlt' & Hnc' & Hto').
    rewrite En, Hcalled. repeat split; try done.
    + rewrite elem_of_app, list_elem_of_singleton. intros [? | Heq]; [done|].
      apply Hne. exact (wf_uids _ Hwf _ _ _ _ H Hin Heq).
    + destruct Hto' as [? | [? Hn]]; [by left|right; split; [done|]].
      rewrite Eti. destruct (tx_timeout tx); [|done].
      rewrite lookup_delete_None. by right.
  - intros k1 tx1 k2 tx2. rewrite Et, !Map_delete_elem.
    intros [? _] [? _]. by apply (wf_uids _ Hwf).
  - intros h task H. pose proof (Hsub _ _ H) as H'.
    destruct (wf_timer _ Hwf _ _ H') as (? & ? & Hk3).
    rewrite En, Hcalled. repeat split; try done.
    + rewrite elem_of_app, list_elem_of_singleton. intros [? | ->]; [done|].
      by rewrite Hgone in H.
    + intros k tx'. rewrite Et, Map_delete_elem. intros [? _]. by apply Hk3.
  - rewrite Hcalled. apply NoDup_app. repeat split.
    + apply Hwf.
    + intros u Hu Hu'. apply list_elem_of_singleton in Hu' as ->. done.
    + apply NoDup_singleton.
  - intros u. rewrite Hcalled, En, elem_of_app, list_elem_of_singleton.
    intros [? | ->]; [by apply (wf_called_lt _ Hwf)|done].
Qed.

Lemma tm_wf_closeTransactionWithError id owner err tm :
  tm_wf tm -> tm_wf (closeTransactionWithError id owner err tm).2.
Proof.
  intros Hwf. rewrite closeTransactionWithError_spec.
  destruct (tm_get id tm) as [tx|] eqn:E; [|done].
  destruct (same_owner (tx_owner tx) owner); [|done].
  by apply tm_wf_close_effect.
Qed.

Lemma tm_wf_closeTransactionWithSuccess id owner data tm :
  tm_wf tm -> tm_wf (closeTransactionWithSuccess id owner data tm).2.
Proof.
  intros Hwf. rewrite closeTransactionWithSuccess_spec.
  destruct (tm_get id tm) as [tx|] eqn:E; [|done].
  destruct (same_owner (tx_owner tx) owner); [|done].
  by apply tm_wf_close_effect.
Qed.

Lemma tm_wf_closeAll_loop entries owner err tm :
  tm_wf tm -> tm_wf (closeAll_loop entries owner err tm).
Proof.
  revert tm. induction entries as [|[k ptx] rest IH]; intros tm Hwf; simpl; [done|].
  apply IH. destruct (Map_has k (transactions tm) && selected owner ptx); [|done].
  by apply tm_wf_closeTransactionWithError.
Qed.

Lemma createTransaction_taken id owner request done error timeout_ms tm :
  tm_has id tm = true ->
  createTransaction id owner request done error timeout_ms tm = (None, tm).
Proof. unfold createTransaction. by intros ->. Qed.

Lemma createTransaction_fields id owner request done error timeout_ms tm :
  tm_has id tm = false ->
  let uid := next_uid tm in
  let tx := mkTx id owner request done error
                 (if 0 <? timeout_ms then Some uid else None) uid in
  let r := createTransaction id owner request done error timeout_ms tm in
  r.1 = Some tx /\
  transactions r.2 =
    (if String.eqb id "" then transactions tm else transactions tm ++ [(id, tx)]) /\
  timers r.2 =
    (if 0 <? timeout_ms then <[uid := mkTask id error timeout_ms]> (timers tm)
     else timers tm) /\
  calls r.2 = calls tm /\
  next_uid r.2 = S (next_uid tm).
Proof.
  intros Hhas. unfold createTransaction. rewrite Hhas.
  apply tm_has_false in Hhas. rewrite tm_get_spec in Hhas.
  unfold tm_set.
  destruct (0 <? timeout_ms); simpl;
    destruct (String.eqb id "") eqn:E; simpl; repeat split; try done;
    by rewrite Map_set_fresh.
Qed.

Lemma tm_wf_createTransaction id owner request done error timeout_ms tm :
  tm_wf tm -> tm_wf (createTransaction id owner request done error timeout_ms tm).2.
Proof.
  intros Hwf.
  destruct (tm_has id tm) eqn:Hhas.
  { by rewrite createTransaction_taken. }
  destruct (createTransaction_fields id owner request done error timeout_ms tm Hhas)
    as (_ & Et & Eti & Ec & En).
  set (tm' := (createTransaction id owner request done error timeout_ms tm).2) in *.
  set (uid := next_uid tm) in *.
  set (tx := mkTx id owner request done error
                  (if 0 <? timeout_ms then Some uid else None) uid) in *.
  assert (Hcalled : called tm' = called tm) by (unfold called; by rewrite Ec).
  assert (Hfresh : uid ∉ called tm).
  { intros H. apply (wf_called_lt _ Hwf) in H. unfold uid in H. lia. }
  assert (Hnotimer : timers tm !! uid = None).
  { destruct (timers tm !! uid) as [task|] eqn:E; [|done].
    destruct (wf_timer _ Hwf _ _ E) as (H & _). unfold uid in H. lia. }
  assert (Hold : forall k t, (k, t) ∈ transactions tm -> tx_uid t <> uid).
  { intros k t H. destruct (wf_entry _ Hwf _ _ H) as (_ & _ & Hlt & _).
    unfold uid. lia. }
  assert (Hin : forall k t, (k, t) ∈ transactions tm' ->
                 (k, t) ∈ transactions tm \/ (k = id /\ t = tx /\ id <> "")).
  { intros k t. rewrite Et. destruct (String.eqb_spec id ""); [by left|].
    rewrite elem_of_app, list_elem_of_singleton. intros [?|[= -> ->]]; auto. }
  apply tm_has_false in Hhas. rewrite tm_get_spec in Hhas.
  split.
  - rewrite Et. destruct (String.eqb_spec id ""); [apply Hwf|].
    rewrite fmap_app. apply NoDup_app. repeat split.
    + apply Hwf.
    + intros k Hk Hk'. simpl in Hk'. apply list_elem_of_singleton in Hk' as ->.
      by apply Map_get_None_keys in Hhas.
    + apply NoDup_singleton.
  - intros k t H. rewrite En, Hcalled. destruct (Hin _ _ H) as [H'|(-> & -> & Hid)].
    + destruct (wf_entry _ Hwf _ _ H') as (? & ? & ? & ? & Hto).
      repeat split; try done; [lia|].
      destruct Hto as [? | [? Hn]]; [by left|right; split; [done|]].
      rewrite Eti. destruct (0 <? timeout_ms); [|done].
      rewrite lookup_insert_ne; [done|]. intros Heq. by apply (Hold _ _ H').
    + simpl. repeat split; try done; [lia|].
      rewrite Eti. destruct (0 <? timeout_ms); [by left|by right].
  - intros k1 t1 k2 t2 H1 H2 Heq.
    destruct (Hin _ _ H1) as [H1'|(-> & -> & _)], (Hin _ _ H2) as [H2'|(-> & -> & _)];
      try done.
    + by apply (wf_uids _ Hwf _ _ _ _ H1' H2').
    + exfalso. by apply (Hold _ _ H1').
    + exfalso. by apply (Hold _ _ H2').
  - intros h task. rewrite Eti, En, Hcalled. intros H.
    assert (Hcase : timers tm !! h = Some task \/
                    (h = uid /\ task = mkTask id error timeout_ms)).
    { destruct (0 <? timeout_ms); [|by left].
      apply lookup_insert_Some in H as [[<- <-]|[_ ?]]; auto. }
    destruct Hcase as [H'|[-> ->]].
    + destruct (wf_timer _ Hwf _ _ H') as (Hlt & ? & Hk).
      repeat split; try done; [lia|].
      intros k t Hkt Hu. destruct (Hin _ _ Hkt) as [?|(-> & -> & _)];
        [by apply (Hk k t)|].
      simpl in Hu. unfold uid in Hu. lia.
    + repeat split; try done; [unfold uid; lia|].
      intros k t Hkt Hu. destruct (Hin _ _ Hkt) as [?|(-> & -> & _)]; [|done].
      exfalso. by apply (Hold k t).
  - rewrite Hcalled. apply Hwf.
  - intros u. rewrite Hcalled, En. intros H. apply (wf_called_lt _ Hwf) in H. lia.
Qed.

Lemma fire_timeout_fields h task tm :
  timers tm !! h = Some task ->
  transactions (fire_timeout h tm) =
    (if String.eqb (tk_id task) "" then transactions tm
     else Map_delete (tk_id task) (transactions tm)) /\
  timers (fire_timeout h tm) = delete h (timers tm) /\
  calls (fire_timeout h tm) =
    calls tm ++ [mkCall h (tk_error task) (Failure (Error "Transaction timed out!"))] /\
  next_uid (fire_timeout h tm) = next_uid tm.
Proof.
  intros H. unfold fire_timeout. rewrite H, tm_delete_spec.
  by destruct (String.eqb (tk_id task) "").
Qed.

Lemma fire_timeout_unarmed h tm : timers tm !! h = None -> fire_timeout h tm = tm.
Proof. unfold fire_timeout. by intros ->. Qed.

Lemma tm_wf_fire_timeout h tm : tm_wf tm -> tm_wf (fire_timeout h tm).
Proof.
  intros Hwf. destruct (timers tm !! h) as [task|] eqn:E;
    [|by rewrite fire_timeout_unarmed].
  destruct (fire_timeout_fields h task tm E) as (Et & Eti & Ec & En).
  destruct (wf_timer _ Hwf _ _ E) as (Hlt & Hnc & Hk).
  assert (Hcalled : called (fire_timeout h tm) = called tm ++ [h]).
  { unfold called at 1. rewrite Ec. apply called_snoc. }
  assert (Hin : forall k t, (k, t) ∈ transactions (fire_timeout h tm) ->
                 (k, t) ∈ transactions tm /\ tx_uid t <> h).
  { intros k t. rewrite Et. destruct (String.eqb_spec (tk_id task) "") as [He|He].
    - intros H. split; [done|]. intros Hu.
      destruct (wf_entry _ Hwf _ _ H) as (_ & Hne & _).
      apply Hne. rewrite <- (Hk _ _ H Hu). done.
    - rewrite Map_delete_elem. intros [H Hne]. split; [done|]. intros Hu.
      apply Hne. symmetry. by apply (Hk _ _ H). }
  split.
  - rewrite Et. destruct (String.eqb (tk_id task) ""); [apply Hwf|].
    apply Map_delete_NoDup, Hwf.
  - intros k t H. destruct (Hin _ _ H) as [H' Hu].
    destruct (wf_entry _ Hwf _ _ H') as (? & ? & ? & ? & Hto).
    rewrite En, Hcalled. repeat split; try done.
    + rewrite elem_of_app, list_elem_of_singleton. by intros [? | ?].
    + destruct Hto as [? | [? Hn]]; [by left|right; split; [done|]].
      rewrite Eti, lookup_delete_None. by right.
  - intros k1 t1 k2 t2 H1 H2. destruct (Hin _ _ H1), (Hin _ _ H2).
    by apply (wf_uids _ Hwf).
  - intros h' task'. rewrite Eti, lookup_delete_Some. intros [Hne H].
    destruct (wf_timer _ Hwf _ _ H) as (? & ? & Hk').
    rewrite En, Hcalled. repeat split; try done.
    + rewrite elem_of_app, list_elem_of_singleton. by intros [? | ?].
    + intros k t Hkt. destruct (Hin _ _ Hkt). by apply Hk'.
  - rewrite Hcalled. apply NoDup_app. repeat split.
    + apply Hwf.
    + intros u Hu Hu'. by apply list_elem_of_singleton in Hu' as ->.
    + apply NoDup_singleton.
  - intros u. rewrite Hcalled, En, elem_of_app, list_elem_of_singleton.
    intros [? | ->]; [by apply (wf_called_lt _ Hwf)|done].
Qed.

Lemma tm_wf_step tm op : tm_wf tm -> tm_wf (step tm op).
Proof.
  intros Hwf. destruct op; simpl.
  - by apply tm_wf_createTransaction.
  - by apply tm_wf_closeTransactionWithSuccess.
  - by apply tm_wf_closeTransactionWithError.
  - by apply tm_wf_closeAll_loop.
  - by apply tm_wf_clear.
  - by apply tm_wf_fire_timeout.
Qed.

Lemma tm_wf_run ops tm : tm_wf tm -> tm_wf (run ops tm).
Proof.
  revert tm. induction ops as [|op ops IH]; intros tm Hwf; simpl; [done|].
  apply IH. by apply tm_wf_step.
Qed.

(** *** A closed id stays closed until it is created again *)

Lemma Map_get_snoc_ne {V} (m : list (string * V)) k k' v :
  k' <> k -> Map_get k (m ++ [(k', v)]) = Map_get k m.
Proof.
  intros Hne. induction m as [|[k1 v1] m IH]; simpl.
  - destruct (String.eqb_spec k' k); [congruence|done].
  - by rewrite IH.
Qed.

Lemma Map_get_delete_None {V} (m : list (string * V)) k k' :
  Map_get k m = None -> Map_get k (Map_delete k' m) = None.
Proof.
  intros H. destruct (decide (k = k')) as [->|Hne].
  - apply Map_get_delete_eq.
  - by rewrite Map_get_delete_ne.
Qed.

Lemma settled_close_effect id uid tx id' f a tm :
  settled id uid tm -> settled id uid (close_effect tx id' f a tm).
Proof.
  intros (Hg & Ht & Hlt). unfold settled, close_effect.
  rewrite tm_get_spec in *. rewrite tm_delete_spec.
  destruct (String.eqb id "") eqn:E.
  - repeat split; try done.
    + destruct (String.eqb id' ""); simpl; unfold clearTimeout;
        destruct (tx_timeout tx); simpl; try done; by rewrite lookup_delete_None; right.
    + destruct (String.eqb id' ""); simpl; unfold clearTimeout;
        by destruct (tx_timeout tx).
  - repeat split.
    + destruct (String.eqb id' ""); simpl; unfold clearTimeout;
        destruct (tx_timeout tx); simpl; try done; by apply Map_get_delete_None.
    + destruct (String.eqb id' ""); simpl; unfold clearTimeout;
        destruct (tx_timeout tx); simpl; try done; by rewrite lookup_delete_None; right.
    + destruct (String.eqb id' ""); simpl; unfold clearTimeout;
        by destruct (tx_timeout tx).
Qed.

Lemma settled_closeTransactionWithError id uid id' owner err tm :
  settled id uid tm -> settled id uid (closeTransactionWithError id' owner err tm).2.
Proof.
  intros H. rewrite closeTransactionWithError_spec.
  destruct (tm_get id' tm) as [tx|]; [|done].
  destruct (same_owner (tx_owner tx) owner); [|done].
  by apply settled_close_effect.
Qed.

Lemma settled_closeTransactionWithSuccess id uid id' owner data tm :
  settled id uid tm -> settled id uid (closeTransactionWithSuccess id' owner data tm).2.
Proof.
  intros H. rewrite closeTransactionWithSuccess_spec.
  destruct (tm_get id' tm) as [tx|]; [|done].
  destruct (same_owner (tx_owner tx) owner); [|done].
  by apply settled_close_effect.
Qed.

Lemma settled_closeAll_loop id uid entries owner err tm :
  settled id uid tm -> settled id uid (closeAll_loop entries owner err tm).
Proof.
  revert tm. induction entries as [|[k ptx] rest IH]; intros tm H; simpl; [done|].
  apply IH. destruct (Map_has k (transactions tm) && selected owner ptx); [|done].
  by apply settled_closeTransactionWithError.
Qed.

Lemma settled_step id uid op tm :
  creates id op = false -> settled id uid tm -> settled id uid (step tm op).
Proof.
  intros Hc H. destruct op; simpl.
  - simpl in Hc. apply String.eqb_neq in Hc.
    destruct (tm_has id0 tm) eqn:Hhas; [by rewrite createTransaction_taken|].
    destruct (createTransaction_fields id0 owner request done error timeout_ms tm Hhas)
      as (_ & Et & Eti & _ & En).
    destruct H as (Hg & Ht & Hlt). unfold settled.
    rewrite tm_get_spec in *. rewrite Et, Eti, En. repeat split.
    + destruct (String.eqb id ""); [done|].
      destruct (String.eqb id0 ""); [done|]. by rewrite Map_get_snoc_ne.
    + destruct (0 <? timeout_ms); [|done]. rewrite lookup_insert_ne; [done|lia].
    + lia.
  - by apply settled_closeTransactionWithSuccess.
  - by apply settled_closeTransactionWithError.
  - by apply settled_closeAll_loop.
  - destruct H as (Hg & Ht & Hlt). unfold settled. rewrite tm_get_spec in *.
    simpl. by destruct (String.eqb id "").
  - destruct (timers tm !! h) as [task|] eqn:E; [|by rewrite fire_timeout_unarmed].
    destruct (fire_timeout_fields h task tm E) as (Et & Eti & _ & En).
    destruct H as (Hg & Ht & Hlt). unfold settled.
    rewrite tm_get_spec in *. rewrite Et, Eti, En. repeat split; try done.
    + destruct (String.eqb id ""); [done|].
      destruct (String.eqb (tk_id task) ""); [done|]. by apply Map_get_delete_None.
    + rewrite lookup_delete_None. by right.
Qed.

Lemma settled_run id uid later tm :
  forallb (fun o => negb (creates id o)) later = true ->
  settled id uid tm -> settled id uid (run later tm).
Proof.
  revert tm. induction later as [|op later IH]; intros tm Hf H; simpl; [done|].
  simpl in Hf. apply andb_true_iff in Hf as [Hc Hf].
  apply IH; [done|]. apply settled_step; [|done]. by apply negb_true_iff.
Qed.

Lemma closes_settles op tm id uid :
  tm_wf tm -> closes op tm id uid ->
  settled id uid (step tm op) /\
  exists c, calls (step tm op) = calls tm ++ [c] /\ call_tx c = uid.
Proof.
  intros Hwf Hc. destruct op; simpl in Hc; try done.
  - destruct Hc as (-> & tx & Hr & Hu). simpl.
    rewrite closeTransactionWithSuccess_spec in *.
    destruct (tm_get id tm) as [tx'|] eqn:Hg; [|done].
    destruct (same_owner (tx_owner tx') owner); [|done].
    simpl in Hr. injection Hr as ->. simpl.
    assert (Hin : (id, tx) ∈ transactions tm) by (by apply tm_get_elem).
    destruct (wf_entry _ Hwf _ _ Hin) as (_ & Hid & Hlt & _ & Hto).
    destruct (close_effect_fields tx id (tx_done tx) (Data data) tm Hid)
      as (Et & Eti & Ec & En).
    split; [|eexists; split; [exact Ec|done]].
    unfold settled. rewrite tm_get_spec, Et, Eti, En, <- Hu.
    repeat split; try done.
    + destruct (String.eqb id ""); [done|apply Map_get_delete_eq].
    + destruct Hto as [-> | [-> ?]]; [apply lookup_delete_eq|done].
  - destruct Hc as (-> & tx & Hr & Hu). simpl.
    rewrite closeTransactionWithError_spec in *.
    destruct (tm_get id tm) as [tx'|] eqn:Hg; [|done].
    destruct (same_owner (tx_owner tx') owner); [|done].
    simpl in Hr. injection Hr as ->. simpl.
    assert (Hin : (id, tx) ∈ transactions tm) by (by apply tm_get_elem).
    destruct (wf_entry _ Hwf _ _ Hin) as (_ & Hid & Hlt & _ & Hto).
    destruct (close_effect_fields tx id (tx_error tx) (Failure error) tm Hid)
      as (Et & Eti & Ec & En).
    split; [|eexists; split; [exact Ec|done]].
    unfold settled. rewrite tm_get_spec, Et, Eti, En, <- Hu.
    repeat split; try done.
    + destruct (String.eqb id ""); [done|apply Map_get_delete_eq].
    + destruct Hto as [-> | [-> ?]]; [apply lookup_delete_eq|done].
  - destruct Hc as (-> & task & Ht & <-). simpl.
    destruct (fire_timeout_fields uid task tm Ht) as (Et & Eti & Ec & En).
    destruct (wf_timer _ Hwf _ _ Ht) as (Hlt & _).
    split; [|eexists; split; [exact Ec|done]].
    unfold settled. rewrite tm_get_spec, Et, Eti, En.
    repeat split; try done.
    + destruct (String.eqb (tk_id task) "") eqn:E; [done|apply Map_get_delete_eq].
    + apply lookup_delete_eq.
Qed.

(** *** Runs that clear only an empty table *)

Lemma tidy_close_effect tx id f a tm :
  tm_wf tm -> tidy tm -> tm_get id tm = Some tx -> tidy (close_effect tx id f a tm).
Proof.
  intros Hwf Hty Hg h task Ht Hne.
  assert (Hin : (id, tx) ∈ transactions tm) by (by apply tm_get_elem).
  destruct (wf_entry _ Hwf _ _ Hin) as (_ & Hid & _ & _ & Hto).
  destruct (close_effect_fields tx id f a tm Hid) as (Et & Eti & _ & _).
  rewrite Eti in Ht.
  assert (Ht' : timers tm !! h = Some task /\ h <> tx_uid tx).
  { destruct Hto as [Hs | [Hn Hnone]].
    - rewrite Hs in Ht. apply lookup_delete_Some in Ht as [Hd Ht]. split; congruence.
    - rewrite Hn in Ht. split; [done|]. intros Heq. rewrite Heq in Ht. congruence. }
  destruct Ht' as [Hold Hh].
  destruct (Hty h task Hold Hne) as (tx' & Hin' & Hu).
  exists tx'. split; [|done]. rewrite Et. apply Map_delete_elem. split; [done|].
  intros Heq. rewrite Heq in Hin'.
  pose proof (Map_elem_get _ _ _ (wf_keys _ Hwf) Hin) as E1.
  pose proof (Map_elem_get _ _ _ (wf_keys _ Hwf) Hin') as E2.
  rewrite E1 in E2. injection E2 as ->. done.
Qed.

Lemma tidy_closeTransactionWithError id owner err tm :
  tm_wf tm -> tidy tm -> tidy (closeTransactionWithError id owner err tm).2.
Proof.
  intros Hwf Hty. rewrite closeTransactionWithError_spec.
  destruct (tm_get id tm) as [tx|] eqn:E; [|done].
  destruct (same_owner (tx_owner tx) owner); [|done].
  by apply tidy_close_effect.
Qed.

Lemma tidy_closeAll_loop entries owner err tm :
  tm_wf tm -> tidy tm -> tidy (closeAll_loop entries owner err tm).
Proof.
  revert tm. induction entries as [|[k ptx] rest IH]; intros tm Hwf Hty; simpl; [done|].
  destruct (Map_has k (transactions tm) && selected owner ptx); [|by apply IH].
  apply IH; [by apply tm_wf_closeTransactionWithError|
             by apply tidy_closeTransactionWithError].
Qed.

Lemma tidy_step op tm :
  tm_wf tm -> tidy tm -> (op = OpClear -> transactions tm = []) -> tidy (step tm op).
Proof.
  intros Hwf Hty Hclear. destruct op; simpl.
  - destruct (tm_has id tm) eqn:Hhas; [by rewrite createTransaction_taken|].
    destruct (createTransaction_fields id owner request done error timeout_ms tm Hhas)
      as (_ & Et & Eti & _ & _).
    intros h task. rewrite Eti, Et. intros Ht Hne.
    assert (Hcase : timers tm !! h = Some task \/
                    (h = next_uid tm /\ task = mkTask id error timeout_ms /\
                     (0 <? timeout_ms) = true)).
    { destruct (0 <? timeout_ms); [|by left].
      apply lookup_insert_Some in Ht as [[<- <-]|[_ ?]]; auto. }
    destruct Hcase as [Hold | (-> & -> & Hpos)].
    + destruct (Hty h task Hold Hne) as (tx' & Hin' & Hu).
      exists tx'. split; [|done].
      destruct (String.eqb id ""); [done|]. apply elem_of_app. by left.
    + simpl in Hne. apply String.eqb_neq in Hne. rewrite Hne, Hpos.
      eexists. split; [apply elem_of_app; right; by apply list_elem_of_singleton|].
      reflexivity.
  - rewrite closeTransactionWithSuccess_spec.
    destruct (tm_get id tm) as [tx|] eqn:E; [|done].
    destruct (same_owner (tx_owner tx) owner); [|done].
    by apply tidy_close_effect.
  - by apply tidy_closeTransactionWithError.
  - by apply tidy_closeAll_loop.
  - intros h task Ht Hne. destruct (Hty h task Ht Hne) as (tx' & Hin' & _).
    rewrite Hclear in Hin' by done. by apply elem_of_nil in Hin'.
  - destruct (timers tm !! h) as [task0|] eqn:E; [|by rewrite fire_timeout_unarmed].
    destruct (fire_timeout_fields h task0 tm E) as (Et & Eti & _ & _).
    intros h' task. rewrite Eti, Et, lookup_delete_Some. intros [Hh Ht] Hne.
    destruct (Hty h' task Ht Hne) as (tx' & Hin' & Hu).
    exists tx'. split; [|done].
    destruct (String.eqb_spec (tk_id task0) "") as [|Hne0]; [done|].
    apply Map_delete_elem. split; [done|]. intros Heq.
    destruct (Hty h task0 E Hne0) as (tx0 & Hin0 & Hu0).
    rewrite Heq in Hin'.
    pose proof (Map_elem_get _ _ _ (wf_keys _ Hwf) Hin0) as E1.
    pose proof (Map_elem_get _ _ _ (wf_keys _ Hwf) Hin') as E2.
    rewrite E1 in E2. injection E2 as ->. congruence.
Qed.

Lemma tidy_new dbg : tidy (new_TransactionManager dbg).
Proof. intros h task H. simpl in H. by rewrite lookup_empty in H. Qed.

Lemma orderly_app l1 l2 tm :
  orderly (l1 ++ l2) tm <-> orderly l1 tm /\ orderly l2 (run l1 tm).
Proof.
  revert tm. induction l1 as [|op l1 IH]; intros tm; simpl; [tauto|].
  rewrite IH. tauto.
Qed.

Lemma tidy_run ops tm :
  tm_wf tm -> tidy tm -> orderly ops tm -> tidy (run ops tm).
Proof.
  revert tm. induction ops as [|op ops IH]; intros tm Hwf Hty Ho; simpl; [done|].
  destruct Ho as [Hc Ho].
  apply IH; [by apply tm_wf_step|by apply tidy_step|done].
Qed.

Lemma run_app l1 l2 tm : run (l1 ++ l2) tm = run l2 (run l1 tm).
Proof. unfold run. apply fold_left_app. Qed.

(** C1. Every transaction is closed at most once.  Over every run of the
    manager, no transaction record has a continuation invoked twice (its
    [done] and [error] together are called at most once).  Moreover, when an
    operation closes the record stored under [id] (a close with success, a
    close with error, or the expiry of the record's timer), it invokes
    exactly one continuation of that record, and from then on, as long as no
    new transaction is created under [id], any close with success or with
    error for [id] and any expiry of the record's timer invokes nothing and
    returns the manager unchanged.  In a run that clears only an empty
    table, no timer at all is left armed for a non-empty [id] once it is
    closed, so no timeout can fire for it. *)
Theorem transaction_closed_at_most_once (dbg : bool) (ops : list Op) :
  let tm := run ops (new_TransactionManager dbg) in
  NoDup (called tm) /\
  forall (op : Op) (id : string) (uid : nat) (later : list Op),
    closes op tm id uid ->
    forallb (fun o => negb (creates id o)) later = true ->
    let tm' := run later (step tm op) in
    (exists c, calls (step tm op) = calls tm ++ [c] /\ call_tx c = uid) /\
    NoDup (called tm') /\
    (forall owner data, closeTransactionWithSuccess id owner data tm' = (None, tm')) /\
    (forall owner err, closeTransactionWithError id owner err tm' = (None, tm')) /\
    fire_timeout uid tm' = tm' /\
    (id <> "" ->
     orderly (ops ++ op :: later) (new_TransactionManager dbg) ->
     forall h task, timers tm' !! h = Some task -> tk_id task <> id).
Proof.
  intros tm.
  assert (Hwf : tm_wf tm) by apply tm_wf_run, tm_wf_new.
  split; [apply Hwf|].
  intros op id uid later Hc Hl tm'.
  destruct (closes_settles op tm id uid Hwf Hc) as [Hs Hcall].
  pose proof (settled_run id uid later _ Hl Hs) as (Hg & Ht & _).
  fold tm' in Hg, Ht.
  assert (Hwf' : tm_wf tm') by (apply tm_wf_run; by apply tm_wf_step).
  split; [done|]. split; [apply Hwf'|].
  repeat split.
  - intros owner data. rewrite closeTransactionWithSuccess_spec. by rewrite Hg.
  - intros owner err. rewrite closeTransactionWithError_spec. by rewrite Hg.
  - by apply fire_timeout_unarmed.
  - intros Hid Ho h task Hh Heq.
    assert (Hty : tidy tm').
    { replace tm' with (run (ops ++ op :: later) (new_TransactionManager dbg))
        by (subst tm' tm; by rewrite run_app).
      apply tidy_run; [apply tm_wf_new|apply tidy_new|done]. }
    destruct (Hty h task Hh) as (tx & Hin & _); [by rewrite Heq|].
    rewrite Heq in Hin. apply (tm_get_elem tm' id tx Hwf') in Hin.
    by rewrite Hg in Hin.
Qed.

Lemma close_missing_or_foreign_is_noop_witness :
  let tm := run demo_run (new_TransactionManager false) in
  closeTransactionWithSuccess "T1" demo_twin (JStr "x") tm = (None, tm) /\
  closeTransactionWithError "T1" demo_twin (Error "e") tm = (None, tm).
Proof.
  intros tm.
  apply (close_missing_or_foreign_is_noop tm "T1" demo_twin).
  right. exists demo_handle. split; [reflexivity|]. discriminate.
Defined.

Lemma transaction_closed_at_most_once_witness :
  let tm := run demo_run (new_TransactionManager false) in
  let op := OpCloseSuccess "T1" demo_handle (JStr "ack") in
  let later := [OpTimeout 0; OpCreate "T3" demo_twin "hangup" (Resolve 2) (Reject 2) 5] in
  let tm' := run later (step tm op) in
  (exists c, calls (step tm op) = calls tm ++ [c] /\ call_tx c = 0%nat) /\
  NoDup (called tm') /\
  (forall owner data, closeTransactionWithSuccess "T1" owner data tm' = (None, tm')) /\
  (forall owner err, closeTransactionWithError "T1" owner err tm' = (None, tm')) /\
  fire_timeout 0 tm' = tm' /\
  forall h task, timers tm' !! h = Some task -> tk_id task <> "T1".
Proof.
  intros tm op later tm'.
  destruct (proj2 (transaction_closed_at_most_once false demo_run) op "T1" 0%nat later)
    as (H1 & H2 & H3 & H4 & H5 & H6).
  - split; [reflexivity|]. eexists. split; reflexivity.
  - reflexivity.
  - repeat split; try done. apply H6; [discriminate|].
    simpl. repeat split; discriminate.
Defined.

(** *** A record that was not stored is never found later *)

Lemma unstored_close_effect u tx id f a tm :
  unstored u tm -> unstored u (close_effect tx id f a tm).
Proof.
  intros [Hlt Hne]. unfold unstored, close_effect. rewrite tm_delete_spec.
  destruct (String.eqb id ""); simpl; unfold clearTimeout;
    destruct (tx_timeout tx); simpl; (split; [done|]); try done;
    intros k t Hin; apply Map_delete_subset in Hin; by apply (Hne k).
Qed.

Lemma unstored_closeTransactionWithError u id owner err tm :
  unstored u tm -> unstored u (closeTransactionWithError id owner err tm).2.
Proof.
  intros H. rewrite closeTransactionWithError_spec.
  destruct (tm_get id tm) as [tx|]; [|done].
  destruct (same_owner (tx_owner tx) owner); [|done].
  by apply unstored_close_effect.
Qed.

Lemma unstored_closeAll_loop u entries owner err tm :
  unstored u tm -> unstored u (closeAll_loop entries owner err tm).
Proof.
  revert tm. induction entries as [|[k ptx] rest IH]; intros tm H; simpl; [done|].
  apply IH. destruct (Map_has k (transactions tm) && selected owner ptx); [|done].
  by apply unstored_closeTransactionWithError.
Qed.

Lemma unstored_step u op tm : unstored u tm -> unstored u (step tm op).
Proof.
  intros H. destruct op; simpl.
  - destruct (tm_has id tm) eqn:Hhas; [by rewrite createTransaction_taken|].
    destruct (createTransaction_fields id owner request done error timeout_ms tm Hhas)
      as (_ & Et & _ & _ & En).
    destruct H as [Hlt Hne]. split; [rewrite En; lia|].
    intros k t. rewrite Et. destruct (String.eqb id ""); [by apply Hne|].
    rewrite elem_of_app, list_elem_of_singleton. intros [Hin|[= -> ->]].
    + by apply (Hne k).
    + simpl. lia.
  - rewrite closeTransactionWithSuccess_spec.
    destruct (tm_get id tm) as [tx|]; [|done].
    destruct (same_owner (tx_owner tx) owner); [|done].
    by apply unstored_close_effect.
  - by apply unstored_closeTransactionWithError.
  - by apply unstored_closeAll_loop.
  - destruct H as [Hlt _]. split; [done|]. intros k t Hin. by apply elem_of_nil in Hin.
  - destruct (timers tm !! h) as [task|] eqn:E; [|by rewrite fire_timeout_unarmed].
    destruct (fire_timeout_fields h task tm E) as (Et & _ & _ & En).
    destruct H as [Hlt Hne]. split; [by rewrite En|].
    intros k t. rewrite Et. destruct (String.eqb (tk_id task) ""); [by apply Hne|].
    intros Hin. apply Map_delete_subset in Hin. by apply (Hne k).
Qed.

Lemma unstored_run u ops tm : unstored u tm -> unstored u (run ops tm).
Proof.
  revert tm. induction ops as [|op ops IH]; intros tm H; simpl; [done|].
  apply IH. by apply unstored_step.
Qed.

(** C10. [createTransaction] with the empty id hands back a freshly built
    record, but nothing is stored: the table is the one before, [has('')] is
    false, the size is unchanged, no lookup changes, and no lookup or close
    with the empty id reaches the record.  When the manager is well formed,
    no later run of the manager ever has the record in its table, under any
    id. *)
Theorem createTransaction_empty_id_not_stored
    (tm : TransactionManager) (owner : TransactionOwner) (request : string)
    (done error : Callback) (timeout_ms : Z) :
  exists tx tm',
    createTransaction "" owner request done error timeout_ms tm = (Some tx, tm') /\
    tx_id tx = "" /\ tx_owner tx = owner /\ tx_request tx = request /\
    tx_done tx = done /\ tx_error tx = error /\
    transactions tm' = transactions tm /\
    tm_has "" tm' = false /\
    tm_size tm' = tm_size tm /\
    (forall k, tm_get k tm' = tm_get k tm) /\
    tm_get "" tm' = None /\
    getTransactionOwner "" tm' = None /\
    (forall o data err,
       closeTransactionWithSuccess "" o data tm' = (None, tm') /\
       closeTransactionWithError "" o err tm' = (None, tm')) /\
    (tm_wf tm ->
     forall later k tx', tm_get k (run later tm') = Some tx' -> tx_uid tx' <> tx_uid tx).
Proof.
  assert (Hlater : forall tx tm',
            tx_uid tx = next_uid tm -> transactions tm' = transactions tm ->
            next_uid tm' = S (next_uid tm) ->
            tm_wf tm ->
            forall later k tx', tm_get k (run later tm') = Some tx' ->
                                tx_uid tx' <> tx_uid tx).
  { intros tx tm' Hu Et En Hwf later k tx' Hg.
    assert (Hun : unstored (tx_uid tx) tm').
    { split; [rewrite Hu, En; lia|]. intros k0 t. rewrite Et. intros Hin.
      destruct (wf_entry _ Hwf _ _ Hin) as (_ & _ & Hlt & _). rewrite Hu. lia. }
    apply (unstored_run _ later) in Hun as [_ Hne].
    apply tm_get_Some in Hg as [_ Hg]. apply Map_get_elem in Hg. by apply (Hne k). }
  unfold createTransaction. simpl.
  destruct (0 <? timeout_ms); eexists _, _; (split; [reflexivity|]);
    repeat split; try done; by apply Hlater.
Qed.

Lemma createTransaction_empty_id_not_stored_witness :
  let tm := run demo_run (new_TransactionManager false) in
  exists tx tm',
    createTransaction "" demo_handle "message" (Resolve 9) (Reject 9) 50 tm = (Some tx, tm') /\
    tx_id tx = "" /\ tx_owner tx = demo_handle /\ tx_request tx = "message" /\
    tx_done tx = Resolve 9 /\ tx_error tx = Reject 9 /\
    transactions tm' = transactions tm /\
    tm_has "" tm' = false /\
    tm_size tm' = tm_size tm /\
    (forall k, tm_get k tm' = tm_get k tm) /\
    tm_get "" tm' = None /\
    getTransactionOwner "" tm' = None /\
    (forall o data err,
       closeTransactionWithSuccess "" o data tm' = (None, tm') /\
       closeTransactionWithError "" o err tm' = (None, tm')) /\
    forall later k tx', tm_get k (run later tm') = Some tx' -> tx_uid tx' <> tx_uid tx.
Proof.
  intros tm.
  destruct (createTransaction_empty_id_not_stored tm demo_handle "message"
              (Resolve 9) (Reject 9) 50)
    as (tx & tm' & H1 & H2 & H3 & H4 & H5 & H6 & H7 & H8 & H9 & H10 & H11 & H12 & H13 & H14).
  exists tx, tm'. repeat split; try done; try apply H13.
  apply H14. apply (tm_wf_run demo_run), tm_wf_new.
Defined.

(** ** The circular iterator *)

Lemma nextElem_returns_old_current {T} (it : CircularIterator T) :
  (nextElem it).1 = currElem it /\
  currElem (nextElem it).2 = it_l it !! (S (it_i it) mod length (it_l it))%nat.
Proof. split; reflexivity. Qed.

Lemma currElem_wraps {T} (it : CircularIterator T) :
  it_l it <> [] ->
  currElem (mkIterator (it_l it) (it_i it + length (it_l it))) = currElem it /\
  is_Some (currElem it).
Proof.
  intros Hne. unfold currElem. simpl.
  assert (Hlen : length (it_l it) <> 0%nat) by (destruct (it_l it); simpl; [done|lia]).
  split.
  - replace (it_i it + length (it_l it))%nat
      with (it_i it + 1 * length (it_l it))%nat by lia.
    by rewrite Nat.Div0.mod_add.
  - apply lookup_lt_is_Some. by apply Nat.mod_upper_bound.
Qed.

(** C8 (the code at the failing input). On the list [A; B] the first
    [nextElem()] returns [A], the element that was current before the call,
    and leaves the iterator on [B]: the [currElem()] that follows returns
    [B], not what [nextElem()] just returned. *)
Theorem nextElem_then_currElem_disagree :
  let it := newIterator ["A"; "B"] in
  (nextElem it).1 = Some "A" /\
  currElem (nextElem it).2 = Some "B" /\
  currElem (nextElem it).2 <> (nextElem it).1.
Proof. repeat split. discriminate. Qed.

(** ** Opening with retries *)

Section OpeningFacts.
Variable network : nat -> string -> option Refusal.

Lemma _initSocket_fails c server refusal :
  currElem (_address_iterator c) = Some server ->
  network (length (dialed (_transport c))) (url server) = Some refusal ->
  _initSocket network c =
    (Some (rf_error refusal),
     with_transport
       (let t1 := mkTransport (kind (_transport c)) (Some (url server))
                    (_attempts (_transport c))
                    (_opening (_transport c)) (_opened (_transport c))
                    (_closing (_transport c)) (_closed (_transport c))
                    (net (_transport c) ++ [Dial (url server)]) in
        if rf_closed refusal then socket_closed t1 else t1) c).
Proof. intros Hc Hn. unfold _initSocket. by rewrite Hc, Hn. Qed.

(** One failed attempt below the limit: wait, shift the iterator, retry. *)
Lemma _attemptOpen_retry c server refusal :
  currElem (_address_iterator c) = Some server ->
  network (length (dialed (_transport c))) (url server) = Some refusal ->
  _attempts (_transport c) + 1 < max_retries (_config c) + 1 ->
  _attemptOpen network c =
    _attemptOpen network
      (shift_iterator
         (delayOp (retry_time_secs (_config c) * 1000)
            (count_attempt (_initSocket network (reset_status c)).2))).
Proof.
  intros Hc Hn Hlt.
  pose proof (_initSocket_fails (reset_status c) server refusal Hc Hn) as Hinit.
  funelim (_attemptOpen network c).
  - congruence.
  - rewrite Hinit in *. simplify_eq. destruct (rf_closed refusal); simpl in *; lia.
  - rewrite Hinit in *. simplify_eq. by destruct (rf_closed refusal).
Qed.

(** A failed attempt that reaches the limit: the error of this attempt is
    thrown and the iterator is left where it is. *)
Lemma _attemptOpen_last c server refusal :
  currElem (_address_iterator c) = Some server ->
  network (length (dialed (_transport c))) (url server) = Some refusal ->
  _attempts (_transport c) + 1 >= max_retries (_config c) + 1 ->
  _attemptOpen network c =
    (Throw (rf_error refusal),
     stop_opening (count_attempt (_initSocket network (reset_status c)).2)).
Proof.
  intros Hc Hn Hge.
  pose proof (_initSocket_fails (reset_status c) server refusal Hc Hn) as Hinit.
  funelim (_attemptOpen network c).
  - congruence.
  - rewrite Hinit in *. by simplify_eq.
  - rewrite Hinit in *. simplify_eq. destruct (rf_closed refusal); simpl in *; lia.
Qed.

Lemma _initSocket_connects c server :
  currElem (_address_iterator c) = Some server ->
  network (length (dialed (_transport c))) (url server) = None ->
  (_initSocket network c).1 = None.
Proof. intros Hc Hn. unfold _initSocket. by rewrite Hc, Hn. Qed.

(** A successful attempt ends the opening. *)
Lemma _attemptOpen_connected c server :
  currElem (_address_iterator c) = Some server ->
  network (length (dialed (_transport c))) (url server) = None ->
  _attemptOpen network c =
    (Return tt, mark_opened (_initSocket network (reset_status c)).2).
Proof.
  intros Hc Hn.
  pose proof (_initSocket_connects (reset_status c) server Hc Hn) as Hinit.
  funelim (_attemptOpen network c);
    match goal with
    | E : _initSocket network (reset_status c) = _ |- _ => rewrite E in *
    end; done.
Qed.

End OpeningFacts.

(** C5 (amended). Two addresses [A] and [B], [max_retries = 1],
    [retry_time_secs = 0], a WebSocket or Unix transport, and a network on
    which both attempts fail: [open()] dials [A] once, waits 0 ms, shifts
    the iterator, dials [B] once, and rejects with the error of the attempt
    on [B]; two attempts have been counted, the transport is neither opening
    nor opened, and the iterator still stands on [B], the address of the
    last attempt (it is shifted between attempts only, not after the last
    failure). *)
Theorem open_fails_over_two_addresses
    (network : nat -> string -> option Refusal) (k : TransportKind)
    (A B : ServerObjectConf) (refA refB : Refusal) :
  k <> NoTransport ->
  network 0%nat (url A) = Some refA ->
  network 1%nat (url B) = Some refB ->
  let c := mkLink (mkConfiguration [A; B] 0 1 false) (newIterator [A; B])
                  (new_Transport k) in
  let r := transport_open network c in
  r.1 = Throw (rf_error refB) /\
  net (_transport r.2) =
    Dial (url A) :: close_report refA ++ Sleep 0 :: Dial (url B) :: close_report refB /\
  dialed (_transport r.2) = [url A; url B] /\
  _attempts (_transport r.2) = 2 /\
  _opening (_transport r.2) = false /\
  _opened (_transport r.2) = false /\
  currElem (_address_iterator r.2) = Some B.
Proof.
  intros Hk HA HB c r. subst r c. unfold transport_open. simpl.
  assert (Hrun :
    _attemptOpen network
      (mkLink (mkConfiguration [A; B] 0 1 false) (newIterator [A; B])
              (mkTransport k None 0 true false false false [])) =
    (Throw (rf_error refB),
     mkLink (mkConfiguration [A; B] 0 1 false) (mkIterator [A; B] 1)
            (mkTransport k
               (if rf_closed refB
                then match k with UnixTransport => None | _ => Some (url B) end
                else Some (url B))
               2 false false false (rf_closed refB)
               (Dial (url A) :: close_report refA ++
                Sleep 0 :: Dial (url B) :: close_report refB)))).
  { rewrite (_attemptOpen_retry network _ A refA); [|done|done|simpl; lia].
    rewrite (_initSocket_fails network _ A refA); [|done|done].
    unfold close_report.
    destruct (rf_closed refA) eqn:EA;
      (rewrite (_attemptOpen_last network _ B refB); [|done|done|simpl; lia]);
      (rewrite (_initSocket_fails network _ B refB); [|done|done]);
      by destruct (rf_closed refB) eqn:EB. }
  destruct k; [| |done];
    unfold with_transport; cbn [_config _address_iterator];
    rewrite Hrun; repeat split;
    unfold dialed, close_report; simpl;
    by destruct (rf_closed refA), (rf_closed refB).
Qed.

Lemma open_fails_over_two_addresses_witness :
  let r := transport_open demo_network_down demo_link in
  r.1 = Throw (Error "connect ECONNREFUSED ws://b.example:8188") /\
  net (_transport r.2) =
    [Dial "ws://a.example:8188"; Closed false; Sleep 0;
     Dial "ws://b.example:8188"; Closed false] /\
  dialed (_transport r.2) = ["ws://a.example:8188"; "ws://b.example:8188"] /\
  _attempts (_transport r.2) = 2 /\
  _opening (_transport r.2) = false /\
  _opened (_transport r.2) = false /\
  currElem (_address_iterator r.2) = Some demo_B.
Proof.
  apply (open_fails_over_two_addresses demo_network_down WebSocketTransport
           demo_A demo_B
           (mkRefusal (Error "connect ECONNREFUSED ws://a.example:8188") true)
           (mkRefusal (Error "connect ECONNREFUSED ws://b.example:8188") true));
    [discriminate|reflexivity|reflexivity].
Defined.

(** C5 (as stated, refuted). After the failed [open()] over [A] and [B] the
    current element of the iterator is [B], not [A], the successor of
    [B]. *)
Lemma open_failure_iterator_not_on_successor :
  currElem (_address_iterator (transport_open demo_network_down demo_link).2)
    <> Some demo_A.
Proof. vm_compute. discriminate. Qed.

(** ** Handles: detach *)

Lemma handles_upd_session a f w : handles (upd_session a f w) = handles w.
Proof. reflexivity. Qed.

Lemma handles_fold_handle_listeners id ls w :
  handles (fold_left (run_handle_listener id) ls w) = handles w.
Proof.
  revert w. induction ls as [|[s] ls IH]; intros w; simpl; [done|].
  by rewrite IH.
Qed.

Lemma Handle_signalDetach_handle a h w :
  handles w !! a = Some h ->
  _detached h = false ->
  handles (Handle_signalDetach a w) !! a =
    Some (mkHandle (h_id h) (h_session h) false true []).
Proof.
  intros Hh Hd. unfold Handle_signalDetach. rewrite Hh, Hd.
  unfold upd_handle at 1. simpl.
  rewrite lookup_alter_eq, handles_fold_handle_listeners. simpl.
  rewrite lookup_alter_eq, Hh. reflexivity.
Qed.

Lemma upd_handle_undo a f g h w :
  handles w !! a = Some h -> g (f h) = h ->
  upd_handle a g (upd_handle a f w) = w.
Proof.
  intros Hh Hfg. destruct w as [c tm ss hs em n]. unfold upd_handle. simpl in *.
  f_equal. apply map_eq. intros i. destruct (decide (i = a)) as [->|Hne].
  - rewrite !lookup_alter_eq, Hh. simpl. by rewrite Hfg.
  - by rewrite !lookup_alter_ne.
Qed.

(** C9 (amended). On a handle that is neither detaching nor detached,
    [detach()] sets [_detaching] and sends the request; while that request
    is pending a second [detach()] rejects with 'detaching already in
    progress'.  When the request fails, the error is caught, the promise of
    [detach()] is fulfilled (nothing is thrown), and [_detaching] is reset:
    the handle, and the whole state, are as before the call, with
    [_detaching = false] and [_detached = false], so that a further
    [detach()] is accepted.  When the request succeeds the handle is
    detached, and any later [detach()] rejects with 'already detached'. *)
Theorem detach_failure_resets_detaching (w : World) (a : nat) (h : Handle) :
  handles w !! a = Some h ->
  _detaching h = false ->
  _detached h = false ->
  let w1 := (Handle_detach_begin a w).2 in
  (Handle_detach_begin a w).1 = Return tt /\
  handles w1 !! a = Some (set_detaching true h) /\
  Handle_detach_begin a w1 = (Throw (Error "detaching already in progress"), w1) /\
  (forall error,
     let r := Handle_detach_resume a (Rejected error) w1 in
     r.1 = Fulfilled JUndefined /\
     r.2 = w /\
     (exists h', handles r.2 !! a = Some h' /\ _detaching h' = false /\ _detached h' = false) /\
     (Handle_detach_begin a r.2).1 = Return tt) /\
  (forall v,
     let r := Handle_detach_resume a (Fulfilled v) w1 in
     r.1 = Fulfilled JUndefined /\
     (exists h', handles r.2 !! a = Some h' /\ _detaching h' = false /\ _detached h' = true) /\
     Handle_detach_begin a r.2 = (Throw (Error "already detached"), r.2)).
Proof.
  intros Hh Hing Hed w1.
  assert (Hb : Handle_detach_begin a w = (Return tt, upd_handle a (set_detaching true) w)).
  { unfold Handle_detach_begin. by rewrite Hh, Hing, Hed. }
  subst w1. rewrite Hb. simpl.
  assert (H1 : handles (upd_handle a (set_detaching true) w) !! a
               = Some (set_detaching true h)).
  { simpl. by rewrite lookup_alter_eq, Hh. }
  split; [done|]. split; [done|]. split.
  { unfold Handle_detach_begin. by rewrite H1. }
  split.
  - intros error.
    assert (Hw : upd_handle a (set_detaching false) (upd_handle a (set_detaching true) w) = w).
    { apply (upd_handle_undo a _ _ h); [done|].
      destruct h; simpl in *. by subst. }
    unfold Handle_detach_resume. cbn [fst snd]. rewrite Hw.
    split; [done|]. split; [done|]. split; [|by rewrite Hb].
    exists h. split; [|done].
    rewrite !lookup_alter_eq, Hh. simpl. f_equal.
    destruct h; simpl in *. by subst.
  - intros v. unfold Handle_detach_resume. cbn [fst snd].
    pose proof (Handle_signalDetach_handle a _ _ H1 Hed) as Hd.
    split; [done|]. split.
    + eexists. split; [exact Hd|done].
    + unfold Handle_detach_begin. by rewrite Hd.
Qed.

(** ** Routing of responses *)

Lemma close_effect_settles id tx f arg w :
  tm_get id (_tm w) = Some tx ->
  settled_with id tx f arg w (with_tm (close_effect tx id f arg (_tm w)) w).
Proof.
  intros Hg. apply tm_get_Some in Hg as [Hid Hm].
  destruct (close_effect_fields tx id f arg (_tm w) Hid) as (Et & _ & Ec & _).
  unfold settled_with.
  change (_tm (with_tm (close_effect tx id f arg (_tm w)) w))
    with (close_effect tx id f arg (_tm w)).
  split; [exact Ec|]. split.
  { apply tm_has_false. rewrite tm_get_spec, Et.
    destruct (String.eqb id ""); [done|apply Map_get_delete_eq]. }
  split; [|done].
  intros k Hk. rewrite !tm_get_spec, Et.
  destruct (String.eqb k ""); [done|]. by apply Map_get_delete_ne.
Qed.

Lemma closeTransactionWithSuccess_owner id tx owner data tm :
  tm_get id tm = Some tx -> owner_ref (tx_owner tx) = owner_ref owner ->
  closeTransactionWithSuccess id owner data tm =
    (Some tx, close_effect tx id (tx_done tx) (Data data) tm).
Proof.
  intros Hg Ho. rewrite closeTransactionWithSuccess_spec, Hg.
  apply same_owner_true in Ho. by rewrite Ho.
Qed.

Lemma closeTransactionWithError_owner id tx owner err tm :
  tm_get id tm = Some tx -> owner_ref (tx_owner tx) = owner_ref owner ->
  closeTransactionWithError id owner err tm =
    (Some tx, close_effect tx id (tx_error tx) (Failure err) tm).
Proof.
  intros Hg Ho. rewrite closeTransactionWithError_spec, Hg.
  apply same_owner_true in Ho. by rewrite Ho.
Qed.

Lemma truthy_transaction id tm tx :
  tm_get id tm = Some tx -> negb (String.eqb id "") = true.
Proof.
  intros H. apply tm_get_Some in H as [Hid _].
  apply negb_true_iff. by apply String.eqb_neq.
Qed.

Lemma ownsTransaction_owner a id tx w :
  tm_get id (_tm w) = Some tx ->
  ownsTransaction a id w = bool_decide (owner_ref (tx_owner tx) = RHandle a).
Proof.
  intros Hg. unfold ownsTransaction. by rewrite getTransactionOwner_spec, Hg.
Qed.

Lemma not_owned_by_owner me id tx w :
  tm_get id (_tm w) = Some tx ->
  not_owned_by me id w = negb (bool_decide (owner_ref (tx_owner tx) = me)).
Proof.
  intros Hg. unfold not_owned_by. by rewrite getTransactionOwner_spec, Hg.
Qed.

Lemma is_request_tx_request verb id tx w :
  tm_get id (_tm w) = Some tx ->
  is_request_tx verb id w = String.eqb (tx_request tx) verb.
Proof. intros Hg. unfold is_request_tx. by rewrite Hg. Qed.

Lemma owning_handle_found s id tx ha w :
  tm_get id (_tm w) = Some tx ->
  owner_ref (tx_owner tx) = RHandle ha ->
  _handles s !! owner_id (tx_owner tx) = Some ha ->
  owning_handle s id w = Some ha.
Proof.
  intros Hg Ho Hh. unfold owning_handle.
  rewrite getTransactionOwner_spec, Hg. simpl. rewrite Hh.
  by rewrite bool_decide_eq_true_2.
Qed.

Lemma owning_handle_other s id tx w :
  tm_get id (_tm w) = Some tx ->
  (forall ha, owner_ref (tx_owner tx) <> RHandle ha) ->
  owning_handle s id w = None.
Proof.
  intros Hg Ho. unfold owning_handle.
  rewrite getTransactionOwner_spec, Hg. simpl.
  destruct (_handles s !! owner_id (tx_owner tx)) as [ha|]; [|done].
  rewrite bool_decide_eq_false_2; [done|]. intros H. by apply (Ho ha).
Qed.

(** C3. A transaction pending under [id], owned by a handle that the
    session holds in its table under the owner's id, and an inbound message
    without [sender], with [transaction = id] and [janus = "ack"]: the
    session hands the message to the owning handle, found through the owner
    of the transaction.  When the recorded verb is [trickle] the handle
    closes the transaction with success, so the caller of [sendRequest] is
    resolved with the message; for any other verb nothing is closed and the
    state is unchanged. *)
Theorem trickle_ack_closes_through_owner_lookup
    (w : World) (a ha : nat) (s : Session) (h : Handle)
    (id : string) (tx : PendingTransaction) (m : JanusMessage) :
  sessions w !! a = Some s ->
  handles w !! ha = Some h ->
  tm_get id (_tm w) = Some tx ->
  owner_ref (tx_owner tx) = RHandle ha ->
  _handles s !! owner_id (tx_owner tx) = Some ha ->
  prop "sender" m = JUndefined ->
  prop "transaction" m = JStr id ->
  prop "janus" m = JStr "ack" ->
  owning_handle s id w = Some ha /\
  Session_handleMessage a m w = Handle_handleMessage ha m w /\
  (tx_request tx = "trickle" ->
   (Session_handleMessage a m w).1 = Return tt /\
   resolves id tx (JObj m) w (Session_handleMessage a m w).2) /\
  (tx_request tx <> "trickle" ->
   Session_handleMessage a m w = (Return tt, w)).
Proof.
  intros Hs Hh Hg Ho Ht Hsender Htx Hjanus.
  pose proof (owning_handle_found s id tx ha w Hg Ho Ht) as Hown.
  assert (Hroute : Session_handleMessage a m w = Handle_handleMessage ha m w).
  { unfold Session_handleMessage. rewrite Hs, Hsender, Htx. simpl truthy.
    cbn iota. simpl transaction_id.
    rewrite (truthy_transaction id _ tx Hg), Hown. done. }
  split; [done|]. split; [done|]. rewrite Hroute.
  unfold Handle_handleMessage. rewrite Hh, Htx. simpl transaction_id. simpl truthy.
  rewrite (truthy_transaction id _ tx Hg), (ownsTransaction_owner ha id tx w Hg).
  rewrite bool_decide_eq_true_2 by done.
  unfold isAckData. rewrite Hjanus. simpl.
  unfold _isTrickleTx. rewrite (is_request_tx_request _ id tx w Hg).
  split.
  - intros Hreq. rewrite Hreq. simpl.
    unfold Handle_closeTransactionWithSuccess.
    rewrite (closeTransactionWithSuccess_owner id tx) by done.
    split; [done|]. by apply close_effect_settles.
  - intros Hreq. apply String.eqb_neq in Hreq.
    unfold JANUS_REQUEST_TRICKLE. by rewrite Hreq.
Qed.

(** ** Conversion to a string *)

(** A safe integer is printed digit by digit. *)
Lemma Number_toString_safe (n : Z) :
  - 2 ^ 53 < n < 2 ^ 53 -> Number_toString n = pretty n.
Proof.
  intros Hn. unfold Number_toString, Number_magnitude, nearest_double.
  destruct (Z.ltb_spec n 0) as [Hneg|Hpos].
  - destruct (Z.ltb_spec (- n) (2 ^ 53)) as [_|?]; [|lia].
    destruct (Z.ltb_spec (- n) (2 ^ 53)) as [_|?]; [|lia].
    by destruct n.
  - destruct (Z.ltb_spec n (2 ^ 53)) as [_|?]; [|lia].
    by destruct (Z.ltb_spec n (2 ^ 53)) as [_|?]; [|lia].
Qed.

(** Beyond, the shortest decimal that reads back as the same double, in
    exponent form from [1e+21] on; an object with a member [toString] of
    its own has no string form. *)
Lemma ToString_samples :
  ToString (JNum 432) = Return "432" /\
  ToString (JNum (2 ^ 53 + 1)) = Return "9007199254740992" /\
  ToString (JNum (2 ^ 64)) = Return "18446744073709552000" /\
  ToString (JNum (10 ^ 21 - 1)) = Return "1e+21" /\
  ToString (JNum (10 ^ 21)) = Return "1e+21" /\
  ToString (JNum (- 2 ^ 70)) = Return "-1.1805916207174113e+21" /\
  ToString (JObj [("code", JNum 1)]) = Return "[object Object]" /\
  ToString (JObj [("valueOf", JNum 1)]) = Return "[object Object]" /\
  ToString (JObj [("toString", JNum 1)]) = Throw TypeError.
Proof. vm_compute. repeat split. Qed.

Lemma success_kind m :
  prop "janus" m = JStr "success" \/ prop "janus" m = JStr "server_info" ->
  isResponseData m = true /\ isErrorData m = false /\ isAckData m = false.
Proof.
  unfold isResponseData, isErrorData, isAckData. by intros [-> | ->].
Qed.

Lemma error_kind m e code reason :
  prop "janus" m = JStr "error" -> prop "error" m = JObj e ->
  ToString (prop "code" e) = Return code ->
  ToString (prop "reason" e) = Return reason ->
  isResponseData m = true /\ isErrorData m = true /\ isAckData m = false /\
  response_error m = Return (Error (code +:+ " " +:+ reason)).
Proof.
  unfold isResponseData, isErrorData, isAckData, response_error.
  intros -> -> Hc Hr. cbn [member]. by rewrite Hc, Hr.
Qed.

Lemma Handle_definitive w ha h id tx m :
  handles w !! ha = Some h ->
  tm_get id (_tm w) = Some tx ->
  owner_ref (tx_owner tx) = RHandle ha ->
  prop "transaction" m = JStr id ->
  definitive_outcome id tx m w (Handle_handleMessage ha m w).2.
Proof.
  intros Hh Hg Ho Htx.
  unfold Handle_handleMessage. rewrite Hh, Htx. simpl transaction_id. simpl truthy.
  rewrite (truthy_transaction id _ tx Hg), (ownsTransaction_owner ha id tx w Hg).
  rewrite bool_decide_eq_true_2 by done. cbn [andb].
  split.
  - intros Hk. destruct (success_kind m Hk) as (-> & -> & ->).
    unfold Handle_closeTransactionWithSuccess.
    rewrite (closeTransactionWithSuccess_owner id tx) by done.
    destruct (_isHangupTx id w), (_isDetachTx id w); by apply close_effect_settles.
  - intros e code reason Hj He Hc Hr.
    destruct (error_kind m e code reason Hj He Hc Hr) as (-> & -> & -> & ->).
    unfold Handle_closeTransactionWithError.
    rewrite (closeTransactionWithError_owner id tx) by done.
    by apply close_effect_settles.
Qed.

Lemma Session_definitive w a s id tx m :
  sessions w !! a = Some s ->
  tm_get id (_tm w) = Some tx ->
  owner_ref (tx_owner tx) = RSession a ->
  truthy (prop "sender" m) = false ->
  prop "transaction" m = JStr id ->
  definitive_outcome id tx m w (Session_handleMessage a m w).2.
Proof.
  intros Hs Hg Ho Hsender Htx.
  unfold Session_handleMessage. rewrite Hs, Hsender, Htx.
  simpl transaction_id. simpl truthy.
  rewrite (truthy_transaction id _ tx Hg).
  rewrite (owning_handle_other s id tx w Hg) by (intros ha; by rewrite Ho).
  rewrite (not_owned_by_owner _ id tx w Hg).
  rewrite bool_decide_eq_true_2 by done. cbn [negb].
  split.
  - intros Hk. destruct (success_kind m Hk) as (-> & -> & _). cbn [orb].
    unfold Session_closeTransactionWithSuccess.
    rewrite (closeTransactionWithSuccess_owner id tx) by done.
    by apply close_effect_settles.
  - intros e code reason Hj He Hc Hr.
    destruct (error_kind m e code reason Hj He Hc Hr) as (-> & -> & _ & ->). cbn [orb].
    unfold Session_closeTransactionWithError.
    rewrite (closeTransactionWithError_owner id tx) by done.
    by apply close_effect_settles.
Qed.

Lemma Session_routes_to_handle w a s ha h id tx m :
  sessions w !! a = Some s ->
  tm_get id (_tm w) = Some tx ->
  owner_ref (tx_owner tx) = RHandle ha ->
  owner_id (tx_owner tx) = h_id h ->
  _handles s !! h_id h = Some ha ->
  prop "sender" m = JNum (h_id h) \/ prop "sender" m = JUndefined ->
  prop "transaction" m = JStr id ->
  Session_handleMessage a m w = Handle_handleMessage ha m w.
Proof.
  intros Hs Hg Ho Hid Ht Hsender Htx.
  unfold Session_handleMessage. rewrite Hs, Htx.
  simpl transaction_id.
  assert (Hown : owning_handle s id w = Some ha).
  { apply (owning_handle_found s id tx); [done|done|by rewrite Hid]. }
  destruct Hsender as [-> | ->].
  - destruct (truthy (JNum (h_id h))) eqn:E.
    + simpl. by rewrite Ht.
    + simpl truthy. by rewrite (truthy_transaction id _ tx Hg), Hown.
  - simpl truthy. by rewrite (truthy_transaction id _ tx Hg), Hown.
Qed.

Lemma Connection_routes_to_session w a m sid :
  prop "session_id" m = JNum sid ->
  sid <> 0 ->
  is_admin (_config (c_link (connection w))) = false ->
  _sessions (connection w) !! sid = Some a ->
  Connection_handleMessage m w = (Return None, (Session_handleMessage a m w).2).
Proof.
  intros Hsid Hne Hadm Ht. unfold Connection_handleMessage.
  rewrite Hsid, Hadm. simpl.
  destruct (Z.eqb_spec sid 0); [done|]. simpl. by rewrite Ht.
Qed.

Lemma Connection_definitive w id tx m :
  tm_get id (_tm w) = Some tx ->
  owner_ref (tx_owner tx) = RConnection (c_addr (connection w)) ->
  truthy (prop "session_id" m) && negb (is_admin (_config (c_link (connection w)))) = false ->
  prop "transaction" m = JStr id ->
  definitive_outcome id tx m w (Connection_handleMessage m w).2.
Proof.
  intros Hg Ho Hsid Htx.
  unfold Connection_handleMessage. rewrite Hsid, Htx.
  simpl transaction_id. simpl truthy.
  rewrite (truthy_transaction id _ tx Hg).
  rewrite (not_owned_by_owner _ id tx w Hg).
  rewrite bool_decide_eq_true_2 by done. cbn [negb].
  split.
  - intros Hk. destruct (success_kind m Hk) as (-> & -> & _).
    rewrite (closeTransactionWithSuccess_owner id tx) by done.
    by apply close_effect_settles.
  - intros e code reason Hj He Hc Hr.
    destruct (error_kind m e code reason Hj He Hc Hr) as (-> & -> & _ & ->).
    rewrite (closeTransactionWithError_owner id tx) by done.
    by apply close_effect_settles.
Qed.

(** C4. A transaction [tx] pending under [id] and an inbound message with
    [transaction = id], handed to the connection.  If [janus] is [success]
    or [server_info] the caller of the [sendRequest] that created [tx] is
    resolved with the message; if [janus] is [error] the caller is rejected
    with an [Error] whose message is exactly the code, one space, and the
    reason found in the [error] member of the message, each in the string
    form that the template gives it ([ToString]; the statement is about the
    messages whose code and reason have one).  This holds when the
    connection owns the transaction and the message names no session (or the
    connection is an admin one); when a session of the connection owns it
    and the message names that session and no sender; and when a handle of
    such a session owns it and the message names the session and the handle
    (or no sender), whatever the verb of the request. *)
Theorem definitive_response_settles_request
    (w : World) (id : string) (tx : PendingTransaction) (m : JanusMessage) :
  tm_get id (_tm w) = Some tx ->
  prop "transaction" m = JStr id ->
  (* the connection owns the transaction *)
  (owner_ref (tx_owner tx) = RConnection (c_addr (connection w)) ->
   truthy (prop "session_id" m)
     && negb (is_admin (_config (c_link (connection w)))) = false ->
   definitive_outcome id tx m w (Connection_handleMessage m w).2)
  /\
  (* a session owns the transaction *)
  (forall a s,
     is_admin (_config (c_link (connection w))) = false ->
     _sessions (connection w) !! s_id s = Some a ->
     sessions w !! a = Some s ->
     owner_ref (tx_owner tx) = RSession a ->
     prop "session_id" m = JNum (s_id s) -> s_id s <> 0 ->
     truthy (prop "sender" m) = false ->
     Connection_handleMessage m w = (Return None, (Session_handleMessage a m w).2) /\
     definitive_outcome id tx m w (Connection_handleMessage m w).2)
  /\
  (* a handle owns the transaction *)
  (forall a s ha h,
     is_admin (_config (c_link (connection w))) = false ->
     _sessions (connection w) !! s_id s = Some a ->
     sessions w !! a = Some s ->
     _handles s !! h_id h = Some ha ->
     handles w !! ha = Some h ->
     owner_ref (tx_owner tx) = RHandle ha ->
     owner_id (tx_owner tx) = h_id h ->
     prop "session_id" m = JNum (s_id s) -> s_id s <> 0 ->
     prop "sender" m = JNum (h_id h) \/ prop "sender" m = JUndefined ->
     Connection_handleMessage m w = (Return None, (Handle_handleMessage ha m w).2) /\
     definitive_outcome id tx m w (Connection_handleMessage m w).2).
Proof.
  intros Hg Htx. split; [|split].
  - intros Ho Hsid. by apply Connection_definitive.
  - intros a s Hadm Hst Hs Ho Hsid Hne Hsender.
    rewrite (Connection_routes_to_session w a m (s_id s)) by done.
    split; [done|]. by apply (Session_definitive w a s).
  - intros a s ha h Hadm Hst Hs Hht Hh Ho Hoid Hsid Hne Hsender.
    rewrite (Connection_routes_to_session w a m (s_id s)) by done.
    rewrite (Session_routes_to_handle w a s ha h id tx m) by done.
    split; [done|]. by apply (Handle_definitive w ha h).
Qed.

(** ** Teardown cascades *)

Lemma calm_refl w : calm w w.
Proof.
  split; try done. exists []. split; [by rewrite app_nil_r|constructor].
Qed.

Lemma calm_trans w1 w2 w3 : calm w1 w2 -> calm w2 w3 -> calm w1 w3.
Proof.
  intros [L1 A1 S1 (r1 & E1 & F1) T1 I1] [L2 A2 S2 (r2 & E2 & F2) T2 I2]. split.
  - by rewrite L2.
  - by rewrite A2.
  - auto.
  - exists (r1 ++ r2). split; [by rewrite E2, E1, app_assoc|by apply Forall_app].
  - auto.
  - intros H. rewrite I2; [by apply I1|]. by rewrite I1.
Qed.

Lemma quiet_refl w : quiet w w.
Proof. split; [apply calm_refl|done]. Qed.

Lemma quiet_trans w1 w2 w3 : quiet w1 w2 -> quiet w2 w3 -> quiet w1 w3.
Proof.
  intros [C1 K1] [C2 K2]. split; [by apply (calm_trans _ w2)|].
  intros a. by rewrite K2.
Qed.

Lemma quiet_upd_handle a f w : quiet w (upd_handle a f w).
Proof. split; [|done]. split; try done. exists []. by rewrite app_nil_r. Qed.

Lemma quiet_upd_session a f w :
  (forall s, session_core (f s) = session_core s) -> quiet w (upd_session a f w).
Proof.
  intros Hf. split.
  - split; try done. exists []. by rewrite app_nil_r.
  - intros x. simpl. destruct (decide (x = a)) as [->|Hne].
    + rewrite lookup_alter_eq. destruct (sessions w !! a); simpl; [|done].
      by rewrite Hf.
    + by rewrite lookup_alter_ne.
Qed.

Lemma quiet_emit src ev payload w :
  child_event (mkEmitted src ev payload) -> quiet w (emit src ev payload w).
Proof.
  intros Hc. split; [|done]. split; try done.
  eexists. split; [reflexivity|]. by constructor.
Qed.

Lemma closeAll_idle owner err tm :
  transactions tm = [] -> closeAllTransactionsWithError owner err tm = tm.
Proof. unfold closeAllTransactionsWithError. by intros ->. Qed.

Lemma quiet_closeAll owner err w :
  quiet w (with_tm (closeAllTransactionsWithError owner err (_tm w)) w).
Proof.
  split; [|done]. split; try done.
  - exists []. by rewrite app_nil_r.
  - simpl. apply tm_wf_closeAll_loop.
  - intros H. simpl. by apply closeAll_idle.
Qed.

Lemma quiet_fold_handle_listeners id ls w :
  quiet w (fold_left (run_handle_listener id) ls w).
Proof.
  revert w. induction ls as [|[s] ls IH]; intros w; simpl; [apply quiet_refl|].
  eapply quiet_trans; [|apply IH]. by apply quiet_upd_session.
Qed.

Lemma quiet_Handle_signalDetach a w : quiet w (Handle_signalDetach a w).
Proof.
  unfold Handle_signalDetach.
  destruct (handles w !! a) as [h|]; [|apply quiet_refl].
  destruct (_detached h); [apply quiet_refl|]. cbv zeta.
  eapply quiet_trans; [|apply quiet_upd_handle].
  eapply quiet_trans; [|apply quiet_fold_handle_listeners].
  eapply quiet_trans; [|apply quiet_emit; exact I].
  eapply quiet_trans; [|apply quiet_closeAll].
  eapply quiet_trans; [|by apply quiet_upd_session].
  apply quiet_upd_handle.
Qed.

Lemma quiet_upd_connection f w :
  (forall c, c_link (f c) = c_link c /\ c_addr (f c) = c_addr c /\
             (_sessions c = ∅ -> _sessions (f c) = ∅)) ->
  quiet w (upd_connection f w).
Proof.
  intros Hf. destruct (Hf (connection w)) as (? & ? & ?).
  split; [|done]. split; try done. exists []. by rewrite app_nil_r.
Qed.

Lemma quiet_run_session_listener id l w : quiet w (run_session_listener id w l).
Proof.
  destruct l as [|h]; simpl.
  - apply quiet_upd_connection. intros c. repeat split.
    simpl. intros ->. apply delete_empty.
  - apply quiet_Handle_signalDetach.
Qed.

Lemma quiet_fold_session_listeners id ls w :
  quiet w (fold_left (run_session_listener id) ls w).
Proof.
  revert w. induction ls as [|l ls IH]; intros w; simpl; [apply quiet_refl|].
  eapply quiet_trans; [apply quiet_run_session_listener|apply IH].
Qed.

Lemma calm_upd_session a f w : calm w (upd_session a f w).
Proof. split; try done. exists []. by rewrite app_nil_r. Qed.

Lemma calm_Session_signalDestroy a w : calm w (Session_signalDestroy a w).
Proof.
  unfold Session_signalDestroy.
  destruct (sessions w !! a) as [s|]; [|apply calm_refl].
  destruct (_destroyed s); [apply calm_refl|]. cbv zeta.
  eapply calm_trans; [|apply calm_upd_session].
  eapply calm_trans; [|apply quiet_fold_session_listeners].
  eapply calm_trans; [|apply quiet_emit; exact I].
  eapply calm_trans; [|apply calm_upd_session].
  eapply calm_trans; [|apply quiet_closeAll].
  eapply calm_trans; [|apply quiet_upd_connection; intros c; by repeat split].
  eapply calm_trans; [|apply calm_upd_session].
  apply calm_upd_session.
Qed.

Lemma calm_fold_signalDestroy ls w :
  calm w (fold_left (fun w a => Session_signalDestroy a w) ls w).
Proof.
  revert w. induction ls as [|a ls IH]; intros w; simpl; [apply calm_refl|].
  eapply calm_trans; [apply calm_Session_signalDestroy|apply IH].
Qed.

(** ** Session: keep-alive and destruction *)

Lemma Session_signalDestroy_effect a s w :
  sessions w !! a = Some s ->
  _destroyed s = false ->
  let w' := Session_signalDestroy a w in
  session_core <$> (sessions w' !! a) = Some (s_id s, false, true, None) /\
  (exists rest,
     emitted w' = emitted w ++
                  mkEmitted (RSession a) SESSION_DESTROYED (id_payload (s_id s)) :: rest /\
     Forall child_event rest) /\
  calm w w'.
Proof.
  intros Hs Hd w'. split; [|split]; [| |apply calm_Session_signalDestroy].
  - subst w'. unfold Session_signalDestroy. rewrite Hs, Hd. cbv zeta.
    match goal with
    | |- context [fold_left ?f ?ls ?w0] =>
        destruct (quiet_fold_session_listeners (s_id s) ls w0) as [_ Hcore];
        set (wf := fold_left f ls w0) in *
    end.
    simpl. rewrite lookup_alter_eq.
    specialize (Hcore a). simpl in Hcore.
    rewrite !lookup_alter_eq, Hs in Hcore. simpl in Hcore.
    destruct (sessions wf !! a) as [s'|]; simpl in *; [|done].
    unfold session_core in *. simpl. rewrite Hcore.
    unfold _unsetKeepAlive, set_destroy_flags, clear_handles. simpl.
    by destruct (_ka_task s).
  - subst w'. unfold Session_signalDestroy. rewrite Hs, Hd. cbv zeta.
    match goal with
    | |- context [fold_left ?f ?ls ?w0] =>
        destruct (quiet_fold_session_listeners (s_id s) ls w0)
          as [[_ _ _ (rest & Hem & Hch) _ _] _];
        set (wf := fold_left f ls w0) in *
    end.
    exists rest. split; [|done].
    change (emitted (upd_session a session_removeAllListeners wf)) with (emitted wf).
    rewrite Hem. simpl. by rewrite <- app_assoc.
Qed.

Lemma _sendKeepAlive_cases timeout reply :
  (reply = None -> _sendKeepAlive timeout reply = Rejected (Error "timeout")) /\
  (forall after r, reply = Some (after, r) -> timeout <= after ->
     _sendKeepAlive timeout reply = Rejected (Error "timeout")) /\
  (forall after e, reply = Some (after, Rejected e) -> after < timeout ->
     _sendKeepAlive timeout reply = Rejected e) /\
  (forall after v, reply = Some (after, Fulfilled v) -> after < timeout ->
     _sendKeepAlive timeout reply = Fulfilled JUndefined).
Proof.
  repeat split.
  - by intros ->.
  - intros after r -> Hle. simpl.
    destruct (Z.ltb_spec after timeout); [lia|]. by destruct r.
  - intros after e -> Hlt. simpl. destruct (Z.ltb_spec after timeout); [done|lia].
  - intros after v -> Hlt. simpl. destruct (Z.ltb_spec after timeout); [done|lia].
Qed.

(** C6. A session created with a keep-alive interval of [K] seconds arms an
    interval of period [K * 1000] ms whose ticks race the keep-alive request
    against a timeout of [K * 500] ms, half the period: a request that has
    not settled [K * 500] ms after the tick loses the race ('timeout'), a
    request rejected earlier fails the tick with its own error, and a
    request fulfilled earlier lets the tick pass and changes nothing.  When
    a tick fails on a session that is not destroyed, [_signalDestroy] runs:
    the session is destroyed and its keep-alive task cleared,
    [SESSION_DESTROYED] with the id of the session is emitted (followed only
    by events of sessions and handles), and the link of the connection, its
    transport included, is exactly as before: the connection stays open. *)
Theorem keepalive_failure_destroys_session (K : Z) :
  (forall id w,
     let r := new_Session id (Some K) w in
     exists s, sessions r.2 !! r.1 = Some s /\
               s_id s = id /\ _destroyed s = false /\
               _ka_task s = Some (mkKaTask (K * 1000) (K * 500))) /\
  (forall w a s reply,
     sessions w !! a = Some s ->
     _ka_task s = Some (mkKaTask (K * 1000) (K * 500)) ->
     keepalive_tick a reply w =
       match _sendKeepAlive (K * 500) reply with
       | Fulfilled _ => w
       | Rejected _ => Session_signalDestroy a w
       end /\
     (reply = None -> _sendKeepAlive (K * 500) reply = Rejected (Error "timeout")) /\
     (forall after r, reply = Some (after, r) -> K * 500 <= after ->
        _sendKeepAlive (K * 500) reply = Rejected (Error "timeout")) /\
     (forall after e, reply = Some (after, Rejected e) -> after < K * 500 ->
        _sendKeepAlive (K * 500) reply = Rejected e) /\
     (forall after v, reply = Some (after, Fulfilled v) -> after < K * 500 ->
        keepalive_tick a reply w = w)) /\
  (forall w a s reply e,
     sessions w !! a = Some s ->
     _destroyed s = false ->
     _ka_task s = Some (mkKaTask (K * 1000) (K * 500)) ->
     _sendKeepAlive (K * 500) reply = Rejected e ->
     let w' := keepalive_tick a reply w in
     w' = Session_signalDestroy a w /\
     (exists s', sessions w' !! a = Some s' /\
                 _destroyed s' = true /\ _destroying s' = false /\ _ka_task s' = None) /\
     (exists rest,
        emitted w' = emitted w ++
                     mkEmitted (RSession a) SESSION_DESTROYED (id_payload (s_id s)) :: rest /\
        Forall child_event rest) /\
     c_link (connection w') = c_link (connection w) /\
     _transport (c_link (connection w')) = _transport (c_link (connection w))).
Proof.
  split; [|split].
  - intros id w r. subst r. unfold new_Session. simpl.
    rewrite lookup_insert_eq. eexists. split; [reflexivity|].
    repeat split. simpl. do 2 f_equal.
    replace (K * 1000) with (K * 500 * 2) by lia. by rewrite Z.div_mul.
  - intros w a s reply Hs Hka.
    assert (Htick : keepalive_tick a reply w =
                    match _sendKeepAlive (K * 500) reply with
                    | Fulfilled _ => w
                    | Rejected _ => Session_signalDestroy a w
                    end).
    { unfold keepalive_tick. by rewrite Hs, Hka. }
    destruct (_sendKeepAlive_cases (K * 500) reply) as (H1 & H2 & H3 & H4).
    split; [exact Htick|]. split; [exact H1|]. split; [exact H2|]. split; [exact H3|].
    intros after v Hr Hlt. rewrite Htick. by rewrite (H4 after v Hr Hlt).
  - intros w a s reply e Hs Hd Hka Hfail w'.
    assert (Hw : w' = Session_signalDestroy a w).
    { subst w'. unfold keepalive_tick. rewrite Hs, Hka. cbn [ka_timeout].
      by rewrite Hfail. }
    destruct (Session_signalDestroy_effect a s w Hs Hd) as (Hcore & Hem & Hcalm).
    rewrite Hw. split; [done|]. split; [|split; [done|]].
    + destruct (sessions (Session_signalDestroy a w) !! a) as [s'|]; [|done].
      exists s'. split; [done|]. simpl in Hcore. unfold session_core in Hcore.
      by simplify_eq.
    + destruct Hcalm as [Hl _ _ _ _ _]. by rewrite Hl.
Qed.

(** ** Connection: closing *)

(** The call made on the record [tx] when it is closed with [err]. *)
Lemma closeAll_loop_calls entries owner err tm :
  NoDup (entries.*1) ->
  (forall k tx, (k, tx) ∈ entries -> tm_get k tm = Some tx /\ tx_id tx = k) ->
  calls (closeAll_loop entries owner err tm) =
    calls tm ++
    ((fun tx => mkCall (tx_uid tx) (tx_error tx) (Failure err)) <$>
       filter (fun tx => selected owner tx = true) (entries.*2)).
Proof.
  revert tm. induction entries as [|[k tx] rest IH]; intros tm Hnd Hin; simpl.
  { by rewrite app_nil_r. }
  apply NoDup_cons in Hnd as [Hk Hnd].
  destruct (Hin k tx) as [Hg Hid]; [left|].
  assert (Hhas : Map_has k (transactions tm) = true).
  { apply tm_get_Some in Hg as [_ Hg]. unfold Map_has. by rewrite Hg. }
  rewrite Hhas. cbn [andb]. rewrite filter_cons.
  destruct (selected owner tx) eqn:Hsel.
  - rewrite decide_True by done.
    rewrite Hid, (closeTransactionWithError_owner k tx) by done. cbn [snd].
    rewrite IH; [|done|].
    + apply tm_get_Some in Hg as [Hne _].
      destruct (close_effect_fields tx k (tx_error tx) (Failure err) tm Hne)
        as (_ & _ & -> & _).
      rewrite fmap_cons, <- app_assoc. done.
    + intros k' tx' Hin'. destruct (Hin k' tx') as [Hg' Hid']; [by right|].
      split; [|done]. rewrite <- Hg'.
      assert (Hne' : k' <> k).
      { intros ->. apply Hk. apply list_elem_of_fmap. by exists (k, tx'). }
      apply tm_get_Some in Hg as [Hne _].
      destruct (close_effect_fields tx k (tx_error tx) (Failure err) tm Hne)
        as (Et & _).
      rewrite !tm_get_spec, Et. destruct (String.eqb k' ""); [done|].
      by apply Map_get_delete_ne.
  - rewrite decide_False by done.
    apply IH; [done|]. intros k' tx' Hin'. apply Hin. by right.
Qed.

Lemma filter_all_selected (l : list PendingTransaction) :
  filter (fun tx => selected None tx = true) l = l.
Proof.
  induction l as [|tx l IH]; [done|].
  rewrite filter_cons, decide_True by done. by rewrite IH.
Qed.

Lemma closeAll_everything err tm :
  tm_wf tm ->
  calls (closeAllTransactionsWithError None err tm) =
    calls tm ++
    ((fun tx => mkCall (tx_uid tx) (tx_error tx) (Failure err)) <$> (transactions tm).*2).
Proof.
  intros Hwf. unfold closeAllTransactionsWithError.
  rewrite closeAll_loop_calls, filter_all_selected; [done|apply Hwf|].
  intros k tx Hin. split; [by apply tm_get_elem|].
  by destruct (wf_entry _ Hwf _ _ Hin).
Qed.

(** C7. After [_signalClose(graceful)] on a connection whose manager is
    well formed: every transaction that was pending, those owned by the
    connection in particular, has had its [error] continuation called with
    the error 'connection closed', once, and no other continuation of it has
    ever been called; the table of the manager is empty; the session table
    is empty; and the connection has emitted [CONNECTION_CLOSED] with its id
    when [graceful] is true, [CONNECTION_ERROR] with the error 'unexpected
    disconnection' otherwise, followed only by events of sessions and
    handles. *)
Theorem signalClose_closes_everything (w : World) (graceful : bool) :
  tm_wf (_tm w) ->
  let w' := Connection_signalClose graceful w in
  let closed tx :=
    mkCall (tx_uid tx) (tx_error tx) (Failure (Error "connection closed")) in
  calls (_tm w') = calls (_tm w) ++ (closed <$> (transactions (_tm w)).*2) /\
  (forall k tx,
     (k, tx) ∈ transactions (_tm w) ->
     closed tx ∈ calls (_tm w') /\
     (forall c, c ∈ calls (_tm w') -> call_tx c = tx_uid tx -> c = closed tx)) /\
  NoDup (called (_tm w')) /\
  transactions (_tm w') = [] /\
  tm_size (_tm w') = 0%nat /\
  _sessions (connection w') = ∅ /\
  exists rest,
    emitted w' =
      emitted w ++
      (if graceful
       then mkEmitted (RConnection (c_addr (connection w))) CONNECTION_CLOSED
                      (id_payload (c_id (connection w)))
       else mkEmitted (RConnection (c_addr (connection w))) CONNECTION_ERROR
                      (Failure (Error "unexpected disconnection"))) :: rest /\
    Forall child_event rest.
Proof.
  intros Hwf w' closed.
  set (tm1 := tm_clear (closeAllTransactionsWithError None (Error "connection closed") (_tm w))).
  set (w3 := upd_connection clear_sessions (with_tm tm1 w)).
  set (ev := if graceful
             then mkEmitted (RConnection (c_addr (connection w))) CONNECTION_CLOSED
                            (id_payload (c_id (connection w)))
             else mkEmitted (RConnection (c_addr (connection w))) CONNECTION_ERROR
                            (Failure (Error "unexpected disconnection"))).
  set (ls := if graceful then c_onClosed (connection w) else c_onError (connection w)).
  set (w4 := fold_left (fun w a => Session_signalDestroy a w) ls
               (emit (em_source ev) (em_event ev) (em_payload ev) w3)).
  assert (Hw' : w' = upd_connection connection_removeAllListeners w4).
  { subst w' w4 ls ev w3 tm1. unfold Connection_signalClose. by destruct graceful. }
  assert (Hcalm : calm (emit (em_source ev) (em_event ev) (em_payload ev) w3) w4)
    by apply calm_fold_signalDestroy.
  destruct Hcalm as [_ _ Hsess (rest & Hem & Hch) Htm Hidle].
  assert (Htm4 : _tm w4 = tm1) by (by apply Hidle).
  assert (Hwf1 : tm_wf tm1) by (by apply tm_wf_clear, tm_wf_closeAll_loop).
  assert (Hcalls : calls (_tm w') = calls (_tm w) ++ (closed <$> (transactions (_tm w)).*2)).
  { rewrite Hw'. change (_tm (upd_connection connection_removeAllListeners w4)) with (_tm w4).
    rewrite Htm4. subst tm1. simpl. by apply closeAll_everything. }
  split; [done|]. split; [|split; [|split; [|split; [|split]]]].
  - intros k tx Hin. rewrite Hcalls. split.
    + apply elem_of_app. right. apply list_elem_of_fmap. exists tx. split; [done|].
      apply list_elem_of_fmap. by exists (k, tx).
    + intros c Hc Hu. apply elem_of_app in Hc as [Hc|Hc].
      * exfalso. destruct (wf_entry _ Hwf _ _ Hin) as (_ & _ & _ & Hnc & _).
        apply Hnc. unfold called. apply list_elem_of_fmap. by exists c.
      * apply list_elem_of_fmap in Hc as (tx' & -> & Htx').
        apply list_elem_of_fmap in Htx' as ([k' tx''] & Heq & Hin'). simpl in Heq. subst tx''.
        simpl in Hu.
        assert (k' = k) as -> by (by apply (wf_uids _ Hwf _ _ _ _ Hin' Hin)).
        pose proof (Map_elem_get _ _ _ (wf_keys _ Hwf) Hin) as E1.
        pose proof (Map_elem_get _ _ _ (wf_keys _ Hwf) Hin') as E2.
        rewrite E1 in E2. by injection E2 as ->.
  - rewrite Hw'. change (_tm (upd_connection connection_removeAllListeners w4)) with (_tm w4).
    rewrite Htm4. apply Hwf1.
  - rewrite Hw'. change (_tm (upd_connection connection_removeAllListeners w4)) with (_tm w4).
    by rewrite Htm4.
  - rewrite Hw'. change (_tm (upd_connection connection_removeAllListeners w4)) with (_tm w4).
    by rewrite Htm4.
  - rewrite Hw'. simpl. by apply Hsess.
  - exists rest. split; [|done]. rewrite Hw'.
    change (emitted (upd_connection connection_removeAllListeners w4)) with (emitted w4).
    rewrite Hem. simpl. rewrite <- app_assoc. by destruct ev.
Qed.

(** ** The scenarios *)

Lemma demo_world_session : sessions demo_world !! 0%nat = Some demo_session.
Proof. reflexivity. Qed.

Lemma demo_world_handle : handles demo_world !! 1%nat = Some demo_handle_object.
Proof. reflexivity. Qed.

Lemma demo_world_opened :
  _opened (_transport (c_link (connection demo_world))) = true /\
  _closed (_transport (c_link (connection demo_world))) = false.
Proof. split; reflexivity. Qed.

Lemma demo_world_wf : tm_wf (_tm demo_world).
Proof. apply (tm_wf_run demo_requests), tm_wf_new. Qed.

(** The server evicts the session 42: the session is destroyed, its pending
    [destroy] fails with 'session destroyed', the requests of its handle
    fail with 'handle detached', both objects emit their event, and the
    connection forgets the session and keeps its own request. *)
Example server_timeout_scenario :
  let w' := (Connection_handleMessage
               [("janus", JStr "timeout"); ("session_id", JNum 42)] demo_world).2 in
  calls (_tm w') =
    [mkCall 1 (Reject 1) (Failure (Error "session destroyed"));
     mkCall 2 (Reject 2) (Failure (Error "handle detached"));
     mkCall 3 (Reject 3) (Failure (Error "handle detached"))] /\
  emitted w' =
    [mkEmitted (RSession 0) SESSION_DESTROYED (id_payload 42);
     mkEmitted (RHandle 1) HANDLE_DETACHED (id_payload 7)] /\
  transactions (_tm w') = [("T1", demo_tx1)] /\
  _sessions (connection w') = ∅ /\
  c_link (connection w') = c_link (connection demo_world).
Proof. repeat split. Qed.

(** An [ack] for the [message] request of the handle closes nothing; the
    [ack] for its [trickle] resolves the caller. *)
Example ack_scenarios :
  Connection_handleMessage demo_ack_message demo_world = (Return None, demo_world) /\
  calls (_tm (Connection_handleMessage demo_ack demo_world).2) =
    [mkCall 3 (Resolve 3) (Data (JObj demo_ack))].
Proof. split; reflexivity. Qed.

(** A graceful [close()]: the transport is marked as closing, and when the
    socket reports its closing the connection emits [CONNECTION_CLOSED];
    a socket that closes on its own makes it emit [CONNECTION_ERROR]. *)
Example close_scenarios :
  em_event <$> emitted (Connection_socket_closed (Connection_close demo_world).2) =
    [CONNECTION_CLOSED; SESSION_DESTROYED; HANDLE_DETACHED] /\
  em_event <$> emitted (Connection_socket_closed demo_world) =
    [CONNECTION_ERROR; SESSION_DESTROYED; HANDLE_DETACHED].
Proof. split; reflexivity. Qed.

Lemma trickle_ack_closes_through_owner_lookup_witness :
  owning_handle demo_session "T5" demo_world = Some 1%nat /\
  Session_handleMessage 0 demo_ack demo_world = Handle_handleMessage 1 demo_ack demo_world /\
  (tx_request demo_tx5 = "trickle" ->
   (Session_handleMessage 0 demo_ack demo_world).1 = Return tt /\
   resolves "T5" demo_tx5 (JObj demo_ack) demo_world
            (Session_handleMessage 0 demo_ack demo_world).2) /\
  (tx_request demo_tx5 <> "trickle" ->
   Session_handleMessage 0 demo_ack demo_world = (Return tt, demo_world)).
Proof.
  apply (trickle_ack_closes_through_owner_lookup
           demo_world 0 1 demo_session demo_handle_object "T5" demo_tx5 demo_ack);
    reflexivity.
Defined.

Lemma definitive_response_settles_request_witness :
  definitive_outcome "T1" demo_tx1 demo_info demo_world
    (Connection_handleMessage demo_info demo_world).2 /\
  definitive_outcome "T3" demo_tx3 demo_destroyed demo_world
    (Connection_handleMessage demo_destroyed demo_world).2 /\
  definitive_outcome "T4" demo_tx4 demo_error demo_world
    (Connection_handleMessage demo_error demo_world).2 /\
  rejects "T4" demo_tx4 (Error "432 no such room") demo_world
    (Connection_handleMessage demo_error demo_world).2.
Proof.
  assert (H4 : definitive_outcome "T4" demo_tx4 demo_error demo_world
                 (Connection_handleMessage demo_error demo_world).2).
  { refine (proj2 (proj2 (proj2 (definitive_response_settles_request
                            demo_world "T4" demo_tx4 demo_error eq_refl eq_refl))
                     0%nat demo_session 1%nat demo_handle_object _ _ _ _ _ _ _ _ _ _));
      try reflexivity; [discriminate|by left]. }
  split; [|split; [|split]].
  - apply (proj1 (definitive_response_settles_request
                    demo_world "T1" demo_tx1 demo_info eq_refl eq_refl));
      reflexivity.
  - refine (proj2 (proj1 (proj2 (definitive_response_settles_request
                            demo_world "T3" demo_tx3 demo_destroyed eq_refl eq_refl))
                     0%nat demo_session _ _ _ _ _ _ _));
      try reflexivity. discriminate.
  - exact H4.
  - exact (proj2 H4 _ _ _ eq_refl eq_refl eq_refl eq_refl).
Defined.

Lemma keepalive_failure_destroys_session_witness :
  let w' := keepalive_tick 0 None demo_world in
  w' = Session_signalDestroy 0 demo_world /\
  (exists s', sessions w' !! 0%nat = Some s' /\
              _destroyed s' = true /\ _destroying s' = false /\ _ka_task s' = None) /\
  (exists rest,
     emitted w' = emitted demo_world ++
                  mkEmitted (RSession 0) SESSION_DESTROYED (id_payload 42) :: rest /\
     Forall child_event rest) /\
  c_link (connection w') = c_link (connection demo_world) /\
  _transport (c_link (connection w')) = _transport (c_link (connection demo_world)).
Proof.
  apply (proj2 (proj2 (keepalive_failure_destroys_session 1))
           demo_world 0%nat demo_session None (Error "timeout"));
    reflexivity.
Defined.

Lemma signalClose_closes_everything_witness :
  let w' := Connection_signalClose true demo_world in
  let closed tx :=
    mkCall (tx_uid tx) (tx_error tx) (Failure (Error "connection closed")) in
  calls (_tm w') = calls (_tm demo_world) ++ (closed <$> (transactions (_tm demo_world)).*2) /\
  (forall k tx,
     (k, tx) ∈ transactions (_tm demo_world) ->
     closed tx ∈ calls (_tm w') /\
     (forall c, c ∈ calls (_tm w') -> call_tx c = tx_uid tx -> c = closed tx)) /\
  NoDup (called (_tm w')) /\
  transactions (_tm w') = [] /\
  tm_size (_tm w') = 0%nat /\
  _sessions (connection w') = ∅ /\
  exists rest,
    emitted w' =
      emitted demo_world ++
      mkEmitted (RConnection 0) CONNECTION_CLOSED (id_payload 1) :: rest /\
    Forall child_event rest.
Proof.
  apply (signalClose_closes_everything demo_world true).
  apply (tm_wf_run demo_requests), tm_wf_new.
Defined.

Lemma detach_failure_resets_detaching_witness :
  let w1 := (Handle_detach_begin 1 demo_world).2 in
  (Handle_detach_begin 1 demo_world).1 = Return tt /\
  handles w1 !! 1%nat = Some (set_detaching true demo_handle_object) /\
  Handle_detach_begin 1 w1 = (Throw (Error "detaching already in progress"), w1) /\
  (forall error,
     let r := Handle_detach_resume 1 (Rejected error) w1 in
     r.1 = Fulfilled JUndefined /\
     r.2 = demo_world /\
     (exists h', handles r.2 !! 1%nat = Some h' /\
                 _detaching h' = false /\ _detached h' = false) /\
     (Handle_detach_begin 1 r.2).1 = Return tt) /\
  (forall v,
     let r := Handle_detach_resume 1 (Fulfilled v) w1 in
     r.1 = Fulfilled JUndefined /\
     (exists h', handles r.2 !! 1%nat = Some h' /\
                 _detaching h' = false /\ _detached h' = true) /\
     Handle_detach_begin 1 r.2 = (Throw (Error "already detached"), r.2)).
Proof.
  apply (detach_failure_resets_detaching demo_world 1 demo_handle_object);
    reflexivity.
Defined.

(** C9 (as stated, refuted). The [detach] request of the handle 7 fails
    with a server error: afterwards [_detaching] is false, not true. *)
Lemma detach_failure_does_not_leave_detaching :
  let w1 := (Handle_detach_begin 1 demo_world).2 in
  let w2 := (Handle_detach_resume 1 (Rejected (Error "459 Handle not found")) w1).2 in
  _detaching <$> (handles w1 !! 1%nat) = Some true /\
  _detaching <$> (handles w2 !! 1%nat) = Some false /\
  _detaching <$> (handles w2 !! 1%nat) <> Some true.
Proof. repeat split. discriminate. Qed.

(** ** The transaction manager: creating, closing, expiring *)

Lemma Map_delete_snoc {V} (m : list (string * V)) k v :
  Map_get k m = None -> Map_delete k (m ++ [(k, v)]) = m.
Proof.
  induction m as [|[k' v'] m IH]; simpl.
  - by rewrite String.eqb_refl.
  - destruct (String.eqb_spec k' k) as [->|Hne]; [done|].
    intros H. by rewrite IH.
Qed.

Lemma Map_delete_length {V} (m : list (string * V)) k v :
  NoDup (m.*1) -> Map_get k m = Some v -> S (length (Map_delete k m)) = length m.
Proof.
  induction m as [|[k' v'] m IH]; simpl; [done|].
  intros Hnd. apply NoDup_cons in Hnd as [Hk Hnd].
  destruct (String.eqb_spec k' k) as [->|Hne].
  - intros _. rewrite Map_delete_absent; [done|]. by apply Map_get_notin.
  - intros H. simpl. f_equal. by apply IH.
Qed.

Lemma Map_delete_middle {V} (pre rest : list (string * V)) k v :
  k ∉ pre.*1 -> k ∉ rest.*1 -> Map_delete k (pre ++ (k, v) :: rest) = pre ++ rest.
Proof.
  intros Hp Hr. induction pre as [|[k' v'] pre IH]; simpl.
  - rewrite String.eqb_refl. apply Map_delete_absent. by apply Map_get_notin.
  - simpl in Hp. apply not_elem_of_cons in Hp as [Hne Hp].
    destruct (String.eqb_spec k' k) as [->|_]; [done|]. by rewrite IH.
Qed.

Lemma createTransaction_stored id owner request done error timeout_ms tm :
  id <> "" -> tm_has id tm = false ->
  tm_get id (createTransaction id owner request done error timeout_ms tm).2 =
    Some (mkTx id owner request done error
               (if 0 <? timeout_ms then Some (next_uid tm) else None) (next_uid tm)).
Proof.
  intros Hid Hhas.
  destruct (createTransaction_fields id owner request done error timeout_ms tm Hhas)
    as (_ & Et & _).
  apply String.eqb_neq in Hid.
  apply tm_has_false in Hhas. rewrite tm_get_spec, Hid in Hhas.
  rewrite tm_get_spec, Hid, Et, Hid.
  set (tx := mkTx id owner request done error _ _). clearbody tx.
  clear -Hhas. induction (transactions tm) as [|[k v] m IH]; simpl in *.
  - by rewrite String.eqb_refl.
  - destruct (String.eqb k id); [done|auto].
Qed.

(** X1. A transaction created under a fresh, non-empty id is stored and
    found again: [get], [has] and [getTransactionOwner] return what was
    given, the size grows by one, the other ids are untouched, no
    continuation is called, and a second [createTransaction] under the same
    id is refused and changes nothing. *)
Theorem createTransaction_then_lookup
    (tm : TransactionManager) (id : string) (owner : TransactionOwner) (request : string)
    (done error : Callback) (timeout_ms : Z) :
  id <> "" ->
  tm_has id tm = false ->
  exists tx tm',
    createTransaction id owner request done error timeout_ms tm = (Some tx, tm') /\
    tm_get id tm' = Some tx /\
    tm_has id tm' = true /\
    getTransactionOwner id tm' = Some owner /\
    tx_id tx = id /\ tx_owner tx = owner /\ tx_request tx = request /\
    tx_done tx = done /\ tx_error tx = error /\
    tm_size tm' = S (tm_size tm) /\
    (forall k, k <> id -> tm_get k tm' = tm_get k tm) /\
    calls tm' = calls tm /\
    (forall owner2 request2 done2 error2 timeout2,
       createTransaction id owner2 request2 done2 error2 timeout2 tm' = (None, tm')).
Proof.
  intros Hid Hhas.
  destruct (createTransaction_fields id owner request done error timeout_ms tm Hhas)
    as (E1 & Et & _ & Ec & _).
  destruct (createTransaction id owner request done error timeout_ms tm) as [r tm'] eqn:E.
  simpl in *. subst r.
  apply String.eqb_neq in Hid. rewrite Hid in Et.
  apply tm_has_false in Hhas. rewrite tm_get_spec, Hid in Hhas.
  set (tx := mkTx id owner request done error _ _) in *.
  assert (Hget : tm_get id tm' = Some tx).
  { rewrite tm_get_spec, Hid, Et.
    clear -Hhas. induction (transactions tm) as [|[k v] m IH]; simpl in *.
    - by rewrite String.eqb_refl.
    - destruct (String.eqb k id); [done|auto]. }
  assert (Hhas' : tm_has id tm' = true).
  { rewrite tm_has_get, Hget. by apply bool_decide_eq_true. }
  exists tx, tm'. split; [done|]. split; [done|]. split; [done|].
  split; [by rewrite getTransactionOwner_spec, Hget|].
  do 5 (split; [done|]).
  split; [unfold tm_size; rewrite Et, length_app; simpl; lia|].
  split.
  { intros k Hk. rewrite !tm_get_spec, Et.
    destruct (String.eqb k ""); [done|].
    apply Map_get_snoc_ne. congruence. }
  split; [done|].
  intros. by apply createTransaction_taken.
Qed.

Lemma createTransaction_then_lookup_witness :
  exists tx tm',
    createTransaction "T9" demo_twin "hangup" (Resolve 8) (Reject 8) 0
      (run demo_run (new_TransactionManager false)) = (Some tx, tm') /\
    tm_get "T9" tm' = Some tx /\
    tm_size tm' = 3%nat.
Proof.
  destruct (createTransaction_then_lookup
              (run demo_run (new_TransactionManager false)) "T9" demo_twin "hangup"
              (Resolve 8) (Reject 8) 0) as (tx & tm' & H1 & H2 & _ & _ & _ & _ & _ & _ & _ & H3 & _);
    [discriminate|reflexivity|].
  exists tx, tm'. split; [done|]. split; [done|]. exact H3.
Defined.

(** X2. A close by the recorded owner goes through: the record is
    returned and removed (and only it), its timer is cancelled (and only
    it), the size drops by one, and exactly one continuation is called:
    [done] with the data for a success, [error] with the error for a
    failure.  Apart from that call both variants leave the same manager. *)
Theorem close_by_owner_removes_record
    (tm : TransactionManager) (id : string) (tx : PendingTransaction)
    (owner : TransactionOwner) (data : JsValue) (err : JsError) :
  tm_wf tm ->
  tm_get id tm = Some tx ->
  owner_ref (tx_owner tx) = owner_ref owner ->
  let rs := closeTransactionWithSuccess id owner data tm in
  let re := closeTransactionWithError id owner err tm in
  rs.1 = Some tx /\ re.1 = Some tx /\
  calls rs.2 = calls tm ++ [mkCall (tx_uid tx) (tx_done tx) (Data data)] /\
  calls re.2 = calls tm ++ [mkCall (tx_uid tx) (tx_error tx) (Failure err)] /\
  transactions re.2 = transactions rs.2 /\
  timers re.2 = timers rs.2 /\
  tm_has id rs.2 = false /\
  S (tm_size rs.2) = tm_size tm /\
  (forall k, k <> id -> tm_get k rs.2 = tm_get k tm) /\
  timers rs.2 !! tx_uid tx = None /\
  (forall h, h <> tx_uid tx -> timers rs.2 !! h = timers tm !! h).
Proof.
  intros Hwf Hg Ho rs re. subst rs re.
  rewrite (closeTransactionWithSuccess_owner id tx owner data tm Hg Ho).
  rewrite (closeTransactionWithError_owner id tx owner err tm Hg Ho).
  cbn [fst snd].
  pose proof Hg as Hg'. apply tm_get_Some in Hg' as [Hid HM].
  destruct (close_effect_fields tx id (tx_done tx) (Data data) tm Hid) as (Et & Eti & Ec & _).
  destruct (close_effect_fields tx id (tx_error tx) (Failure err) tm Hid) as (Et' & Eti' & Ec' & _).
  assert (Hin : (id, tx) ∈ transactions tm) by (by apply tm_get_elem).
  destruct (wf_entry _ Hwf _ _ Hin) as (_ & _ & _ & _ & Hto).
  assert (Htimers : timers (close_effect tx id (tx_done tx) (Data data) tm)
                    = delete (tx_uid tx) (timers tm)).
  { rewrite Eti. destruct Hto as [-> | [-> Hnone]]; [done|].
    symmetry. by apply delete_id. }
  do 4 (split; [done|]).
  split; [by rewrite Et, Et'|]. split; [by rewrite Eti, Eti'|].
  split.
  { apply tm_has_false. rewrite tm_get_spec, Et.
    destruct (String.eqb id ""); [done|]. apply Map_get_delete_eq. }
  split.
  { unfold tm_size. rewrite Et. apply (Map_delete_length _ _ tx); [apply Hwf|done]. }
  split.
  { intros k Hk. rewrite !tm_get_spec, Et.
    destruct (String.eqb k ""); [done|]. by apply Map_get_delete_ne. }
  rewrite Htimers. split; [apply lookup_delete_eq|].
  intros h Hh. by apply lookup_delete_ne.
Qed.

Lemma close_by_owner_removes_record_witness :
  let tm := run demo_run (new_TransactionManager false) in
  let rs := closeTransactionWithSuccess "T1" demo_handle (JStr "ok") tm in
  calls rs.2 = [mkCall 0 (Resolve 0) (Data (JStr "ok"))] /\
  tm_size rs.2 = 1%nat /\
  timers rs.2 !! 0%nat = None.
Proof.
  intros tm rs.
  destruct (close_by_owner_removes_record tm "T1"
              (mkTx "T1" demo_handle "trickle" (Resolve 0) (Reject 0) (Some 0%nat) 0)
              demo_handle (JStr "ok") (Error "e"))
    as (_ & _ & H1 & _ & _ & _ & _ & H2 & _ & H3 & _).
  - apply (tm_wf_run demo_run), tm_wf_new.
  - reflexivity.
  - reflexivity.
  - split; [exact H1|]. split; [|exact H3].
    apply eq_add_S. exact H2.
Defined.

(** X3. Creating a transaction and closing it by its owner is a round
    trip: table and armed timers are what they were before the
    [createTransaction], and the only trace is the one call of the
    continuation. *)
Theorem create_then_close_restores
    (tm : TransactionManager) (id : string) (owner : TransactionOwner) (request : string)
    (done error : Callback) (timeout_ms : Z) (data : JsValue) (err : JsError) :
  tm_wf tm ->
  id <> "" ->
  tm_has id tm = false ->
  let created := createTransaction id owner request done error timeout_ms tm in
  let rs := closeTransactionWithSuccess id owner data created.2 in
  let re := closeTransactionWithError id owner err created.2 in
  rs.1 = created.1 /\ re.1 = created.1 /\
  transactions rs.2 = transactions tm /\ timers rs.2 = timers tm /\
  transactions re.2 = transactions tm /\ timers re.2 = timers tm /\
  calls rs.2 = calls tm ++ [mkCall (next_uid tm) done (Data data)] /\
  calls re.2 = calls tm ++ [mkCall (next_uid tm) error (Failure err)].
Proof.
  intros Hwf Hid Hhas created rs re. subst rs re created.
  destruct (createTransaction_fields id owner request done error timeout_ms tm Hhas)
    as (E1 & Et & Eti & Ec & _).
  destruct (createTransaction id owner request done error timeout_ms tm) as [r tm'] eqn:E.
  cbn [fst snd] in *. subst r.
  set (tx := mkTx id owner request done error _ _) in *.
  pose proof Hid as Hid'. apply String.eqb_neq in Hid'. rewrite Hid' in Et.
  apply tm_has_false in Hhas. rewrite tm_get_spec, Hid' in Hhas.
  assert (Hget : tm_get id tm' = Some tx).
  { rewrite tm_get_spec, Hid', Et.
    clear -Hhas. induction (transactions tm) as [|[k v] m IH]; simpl in *.
    - by rewrite String.eqb_refl.
    - destruct (String.eqb k id); [done|auto]. }
  rewrite (closeTransactionWithSuccess_owner id tx owner data tm' Hget eq_refl).
  rewrite (closeTransactionWithError_owner id tx owner err tm' Hget eq_refl).
  cbn [fst snd].
  destruct (close_effect_fields tx id (tx_done tx) (Data data) tm' Hid) as (Et1 & Eti1 & Ec1 & _).
  destruct (close_effect_fields tx id (tx_error tx) (Failure err) tm' Hid) as (Et2 & Eti2 & Ec2 & _).
  assert (Hfresh : timers tm !! next_uid tm = None).
  { destruct (timers tm !! next_uid tm) as [task|] eqn:Ht; [|done].
    destruct (wf_timer _ Hwf _ _ Ht) as [Hlt _]. lia. }
  assert (HT : Map_delete id (transactions tm') = transactions tm).
  { rewrite Et. by apply Map_delete_snoc. }
  assert (HTi : match tx_timeout tx with
                | Some t => delete t (timers tm')
                | None => timers tm'
                end = timers tm).
  { rewrite Eti. subst tx. simpl. destruct (0 <? timeout_ms); [|done].
    rewrite delete_insert_eq. by apply delete_id. }
  rewrite Et1, Eti1, Et2, Eti2, Ec1, Ec2, HT, HTi, Ec.
  repeat split.
Qed.

Lemma create_then_close_restores_witness :
  let tm := run demo_run (new_TransactionManager false) in
  let created := createTransaction "T9" demo_twin "hangup" (Resolve 8) (Reject 8) 250 tm in
  let rs := closeTransactionWithSuccess "T9" demo_twin (JStr "ok") created.2 in
  transactions rs.2 = transactions tm /\ timers rs.2 = timers tm.
Proof.
  intros tm created rs.
  destruct (create_then_close_restores tm "T9" demo_twin "hangup" (Resolve 8) (Reject 8) 250
              (JStr "ok") (Error "e")) as (_ & _ & H1 & H2 & _).
  - apply (tm_wf_run demo_run), tm_wf_new.
  - discriminate.
  - reflexivity.
  - split; [exact H1|exact H2].
Defined.

Lemma unselected_filter owner (entries : list (string * PendingTransaction)) k tx :
  filter (fun e => selected owner e.2 = false) ((k, tx) :: entries) =
    if selected owner tx
    then filter (fun e => selected owner e.2 = false) entries
    else (k, tx) :: filter (fun e => selected owner e.2 = false) entries.
Proof.
  destruct (selected owner tx) eqn:E.
  - rewrite filter_cons_False; [done|]. simpl. by rewrite E.
  - rewrite filter_cons_True; [done|]. done.
Qed.

Lemma closeAll_loop_state pre entries owner err tm :
  tm_wf tm ->
  transactions tm = pre ++ entries ->
  let tm' := closeAll_loop entries owner err tm in
  transactions tm' = pre ++ filter (fun e => selected owner e.2 = false) entries /\
  (forall h, timers tm' !! h =
     if bool_decide (h ∈ tx_uid <$> filter (fun tx => selected owner tx = true) (entries.*2))
     then None else timers tm !! h).
Proof.
  revert pre tm. induction entries as [|[k tx] rest IH]; intros pre tm Hwf Ht.
  - split; [by rewrite filter_nil|]. intros h.
    rewrite bool_decide_eq_false_2; [done|]. apply not_elem_of_nil.
  - simpl. assert (Hin : (k, tx) ∈ transactions tm).
    { rewrite Ht. apply elem_of_app. right. left. }
    destruct (wf_entry _ Hwf _ _ Hin) as (Htid & Hk & _ & _ & Hto).
    assert (Hg : tm_get k tm = Some tx) by (by apply tm_get_elem).
    assert (Hhas : Map_has k (transactions tm) = true).
    { apply tm_get_Some in Hg as [_ HM]. unfold Map_has. by rewrite HM. }
    rewrite Hhas, unselected_filter. simpl.
    destruct (selected owner tx) eqn:Esel.
    + rewrite Htid, (closeTransactionWithError_owner k tx (tx_owner tx) err tm Hg eq_refl).
      cbn [snd].
      destruct (close_effect_fields tx k (tx_error tx) (Failure err) tm Hk)
        as (Et & Eti & _ & _).
      assert (Hnd : NoDup ((pre ++ (k, tx) :: rest).*1)) by (rewrite <- Ht; apply Hwf).
      rewrite fmap_app in Hnd. simpl in Hnd.
      apply NoDup_app in Hnd as (_ & Hpre & Hnd').
      apply NoDup_cons in Hnd' as [Hrest _].
      assert (Hkpre : k ∉ pre.*1).
      { intros Hp. apply (Hpre k Hp). left. }
      destruct (IH pre (close_effect tx k (tx_error tx) (Failure err) tm)) as [IH1 IH2].
      { by apply tm_wf_close_effect. }
      { rewrite Et, Ht. by apply Map_delete_middle. }
      split; [done|]. intros h. rewrite IH2.
      rewrite filter_cons_True by done. rewrite fmap_cons.
      assert (Hdel : timers (close_effect tx k (tx_error tx) (Failure err) tm)
                     = delete (tx_uid tx) (timers tm)).
      { rewrite Eti. destruct Hto as [-> | [-> Hnone]]; [done|].
        symmetry. by apply delete_id. }
      rewrite Hdel.
      destruct (decide (h = tx_uid tx)) as [->|Hne].
      * rewrite (bool_decide_eq_true_2 (tx_uid tx ∈ tx_uid tx :: _)) by left.
        rewrite lookup_delete_eq. by destruct (bool_decide _).
      * rewrite lookup_delete_ne by done.
        destruct (bool_decide (h ∈ tx_uid <$> filter _ (rest.*2))) eqn:Eb.
        -- apply bool_decide_eq_true_1 in Eb.
           rewrite bool_decide_eq_true_2; [done|]. by right.
        -- apply bool_decide_eq_false_1 in Eb.
           rewrite bool_decide_eq_false_2; [done|].
           intros Hc. apply elem_of_cons in Hc as [?|?]; done.
    + destruct (IH (pre ++ [(k, tx)]) tm Hwf) as [IH1 IH2].
      { by rewrite <- app_assoc. }
      split; [by rewrite IH1, <- app_assoc|].
      intros h. rewrite IH2. rewrite filter_cons_False; [done|]. by rewrite Esel.
Qed.

(** X4. [closeAllTransactionsWithError(owner, error)] on a well-formed
    manager closes exactly the transactions of [owner] (all of them when no
    owner is given): the table keeps the others, in their order; the [error]
    continuation of each closed one is called with [error], once, in
    insertion order, and no other continuation is called; the timers of the
    closed ones are cancelled and no other timer is touched. *)
Theorem closeAll_closes_the_owners_transactions
    (tm : TransactionManager) (owner : option TransactionOwner) (err : JsError) :
  tm_wf tm ->
  let tm' := closeAllTransactionsWithError owner err tm in
  let closed := filter (fun tx => selected owner tx = true) ((transactions tm).*2) in
  transactions tm' = filter (fun e => selected owner e.2 = false) (transactions tm) /\
  calls tm' =
    calls tm ++ ((fun tx => mkCall (tx_uid tx) (tx_error tx) (Failure err)) <$> closed) /\
  (forall h, h ∈ tx_uid <$> closed -> timers tm' !! h = None) /\
  (forall h, h ∉ tx_uid <$> closed -> timers tm' !! h = timers tm !! h).
Proof.
  intros Hwf tm' closed. subst tm' closed. unfold closeAllTransactionsWithError.
  destruct (closeAll_loop_state [] (transactions tm) owner err tm Hwf eq_refl) as [H1 H2].
  split; [done|]. split.
  { apply closeAll_loop_calls; [apply Hwf|].
    intros k tx Hin. split; [by apply tm_get_elem|].
    by destruct (wf_entry _ Hwf _ _ Hin) as (? & _). }
  split; intros h Hh; rewrite H2.
  - by rewrite bool_decide_eq_true_2.
  - by rewrite bool_decide_eq_false_2.
Qed.

Lemma closeAll_closes_the_owners_transactions_witness :
  let tm := _tm demo_world in
  let tm' := closeAllTransactionsWithError (Some demo_handle) (Error "handle detached") tm in
  transactions tm' = [("T1", demo_tx1); ("T3", demo_tx3)] /\
  calls tm' = [mkCall 2 (Reject 2) (Failure (Error "handle detached"));
               mkCall 3 (Reject 3) (Failure (Error "handle detached"))].
Proof.
  intros tm tm'.
  destruct (closeAll_closes_the_owners_transactions tm (Some demo_handle)
              (Error "handle detached")) as (H1 & H2 & _).
  - apply (tm_wf_run demo_requests), tm_wf_new.
  - split; [exact H1|exact H2].
Defined.

(** X5. A transaction created under a fresh id with a positive timeout
    arms a timer; when that timer expires, the record is removed and its
    [error] continuation is called with 'Transaction timed out!': table and
    timers are again those before the [createTransaction], and later closes
    of the id do nothing.  With a timeout that is not positive no timer is
    armed: the set of timers is unchanged. *)
Theorem transaction_times_out
    (tm : TransactionManager) (id : string) (owner : TransactionOwner) (request : string)
    (done error : Callback) (timeout_ms : Z) :
  tm_wf tm ->
  id <> "" ->
  tm_has id tm = false ->
  let created := (createTransaction id owner request done error timeout_ms tm).2 in
  let h := next_uid tm in
  (0 < timeout_ms ->
   timers created !! h = Some (mkTask id error timeout_ms) /\
   let expired := fire_timeout h created in
   calls expired =
     calls tm ++ [mkCall h error (Failure (Error "Transaction timed out!"))] /\
   transactions expired = transactions tm /\
   timers expired = timers tm /\
   (forall o data, closeTransactionWithSuccess id o data expired = (None, expired)) /\
   (forall o err, closeTransactionWithError id o err expired = (None, expired)) /\
   fire_timeout h expired = expired) /\
  (timeout_ms <= 0 ->
   timers created = timers tm /\
   fire_timeout h created = created).
Proof.
  intros Hwf Hid Hhas created h. subst created h.
  destruct (createTransaction_fields id owner request done error timeout_ms tm Hhas)
    as (_ & Et & Eti & Ec & _).
  pose proof Hid as Hid'. apply String.eqb_neq in Hid'. rewrite Hid' in Et.
  assert (Hfresh : timers tm !! next_uid tm = None).
  { destruct (timers tm !! next_uid tm) as [task|] eqn:Ht; [|done].
    destruct (wf_timer _ Hwf _ _ Ht) as [Hlt _]. lia. }
  pose proof Hhas as Hnone. apply tm_has_false in Hnone. rewrite tm_get_spec, Hid' in Hnone.
  split.
  - intros Hpos. apply Z.ltb_lt in Hpos. rewrite Hpos in Eti.
    assert (Harmed : timers (createTransaction id owner request done error timeout_ms tm).2
                       !! next_uid tm = Some (mkTask id error timeout_ms)).
    { rewrite Eti. apply lookup_insert_eq. }
    split; [done|]. cbv zeta.
    destruct (fire_timeout_fields _ _ _ Harmed) as (Ft & Fti & Fc & _).
    cbn [tk_id tk_error] in Ft, Fc. rewrite Hid' in Ft.
    assert (HT : transactions (fire_timeout (next_uid tm)
                   (createTransaction id owner request done error timeout_ms tm).2)
                 = transactions tm).
    { rewrite Ft, Et. by apply Map_delete_snoc. }
    assert (HTi : timers (fire_timeout (next_uid tm)
                    (createTransaction id owner request done error timeout_ms tm).2)
                  = timers tm).
    { rewrite Fti, Eti, delete_insert_eq. by apply delete_id. }
    assert (Hg : tm_get id (fire_timeout (next_uid tm)
                   (createTransaction id owner request done error timeout_ms tm).2) = None).
    { by rewrite tm_get_spec, Hid', HT. }
    split; [by rewrite Fc, Ec|]. split; [done|]. split; [done|].
    split; [intros; by rewrite closeTransactionWithSuccess_spec, Hg|].
    split; [intros; by rewrite closeTransactionWithError_spec, Hg|].
    apply fire_timeout_unarmed. by rewrite HTi.
  - intros Hle. assert (E : (0 <? timeout_ms) = false) by (apply Z.ltb_ge; lia).
    rewrite E in Eti. split; [done|].
    apply fire_timeout_unarmed. by rewrite Eti.
Qed.

Lemma transaction_times_out_witness :
  let tm := run demo_run (new_TransactionManager false) in
  let created := (createTransaction "T9" demo_twin "hangup" (Resolve 8) (Reject 8) 250 tm).2 in
  let expired := fire_timeout 2 created in
  calls expired = [mkCall 2 (Reject 8) (Failure (Error "Transaction timed out!"))] /\
  transactions expired = transactions tm.
Proof.
  intros tm created expired.
  destruct (transaction_times_out tm "T9" demo_twin "hangup" (Resolve 8) (Reject 8) 250)
    as [H _].
  - apply (tm_wf_run demo_run), tm_wf_new.
  - discriminate.
  - reflexivity.
  - destruct H as (_ & H1 & H2 & _); [lia|]. split; [exact H1|exact H2].
Defined.

(** *** Records that can no longer be reached *)

Lemma stranded_close_effect u tx id f a tm :
  id <> "" -> Map_get id (transactions tm) = Some tx ->
  stranded u tm -> stranded u (close_effect tx id f a tm).
Proof.
  intros Hid Hg (Hun & Ht & Hc).
  destruct (close_effect_fields tx id f a tm Hid) as (_ & Eti & Ec & _).
  split; [by apply unstored_close_effect|]. split.
  - rewrite Eti. destruct (tx_timeout tx); [|done].
    apply lookup_delete_None. by right.
  - unfold called. rewrite Ec, called_snoc. simpl.
    intros Hin. apply elem_of_app in Hin as [Hin|Hin]; [done|].
    apply list_elem_of_singleton in Hin.
    destruct Hun as [_ Hne]. apply (Hne id tx); [|done]. by apply Map_get_elem.
Qed.

Lemma stranded_closeTransactionWithError u id owner err tm :
  stranded u tm -> stranded u (closeTransactionWithError id owner err tm).2.
Proof.
  intros H. rewrite closeTransactionWithError_spec.
  destruct (tm_get id tm) as [tx|] eqn:E; [|done].
  destruct (same_owner (tx_owner tx) owner); [|done].
  apply tm_get_Some in E as [Hid Hg]. by apply stranded_close_effect.
Qed.

Lemma stranded_closeAll_loop u entries owner err tm :
  stranded u tm -> stranded u (closeAll_loop entries owner err tm).
Proof.
  revert tm. induction entries as [|[k ptx] rest IH]; intros tm H; simpl; [done|].
  apply IH. destruct (Map_has k (transactions tm) && selected owner ptx); [|done].
  by apply stranded_closeTransactionWithError.
Qed.

Lemma stranded_step u op tm : stranded u tm -> stranded u (step tm op).
Proof.
  intros H. destruct op; simpl.
  - destruct (tm_has id tm) eqn:Hhas; [by rewrite createTransaction_taken|].
    destruct (createTransaction_fields id owner request done error timeout_ms tm Hhas)
      as (_ & _ & Eti & Ec & _).
    destruct H as (Hun & Ht & Hc).
    split; [by apply (unstored_step u (OpCreate id owner request done error timeout_ms))|].
    split.
    + rewrite Eti. destruct (0 <? timeout_ms); [|done].
      rewrite lookup_insert_ne; [done|]. destruct Hun as [Hlt _]. lia.
    + unfold called. by rewrite Ec.
  - rewrite closeTransactionWithSuccess_spec.
    destruct (tm_get id tm) as [tx|] eqn:E; [|done].
    destruct (same_owner (tx_owner tx) owner); [|done].
    apply tm_get_Some in E as [Hid Hg]. by apply stranded_close_effect.
  - by apply stranded_closeTransactionWithError.
  - by apply stranded_closeAll_loop.
  - destruct H as (Hun & Ht & Hc).
    split; [by apply (unstored_step u OpClear)|]. done.
  - destruct (timers tm !! h) as [task|] eqn:E; [|by rewrite fire_timeout_unarmed].
    destruct (fire_timeout_fields h task tm E) as (_ & Eti & Ec & _).
    destruct H as (Hun & Ht & Hc).
    split; [by apply (unstored_step u (OpTimeout h))|]. split.
    + rewrite Eti. apply lookup_delete_None. by right.
    + unfold called. rewrite Ec, called_snoc. simpl.
      intros Hin. apply elem_of_app in Hin as [Hin|Hin]; [done|].
      apply list_elem_of_singleton in Hin. congruence.
Qed.

Lemma stranded_run u ops tm : stranded u tm -> stranded u (run ops tm).
Proof.
  revert tm. induction ops as [|op ops IH]; intros tm H; simpl; [done|].
  apply IH. by apply stranded_step.
Qed.

(** X6. [clear()] empties the table without settling anything and without
    cancelling any timer: no continuation is called, the timers stay armed,
    and a timer armed before still calls the [error] continuation it
    captured.  That timer deletes by id: when a new transaction has been
    created under the same id in the meantime, the expiry of the old timer
    removes the new record from the table without calling any of its
    continuations, and when the new record has no timer of its own no later
    operation of the manager ever calls one. *)
Theorem clear_leaves_timers_armed
    (tm : TransactionManager) (h : nat) (task : TimeoutTask)
    (owner : TransactionOwner) (request : string) (done error : Callback) (timeout_ms : Z) :
  tm_wf tm ->
  timers tm !! h = Some task ->
  tk_id task <> "" ->
  let cleared := tm_clear tm in
  let timed_out := mkCall h (tk_error task) (Failure (Error "Transaction timed out!")) in
  calls cleared = calls tm /\
  timers cleared = timers tm /\
  tm_size cleared = 0%nat /\
  (forall k, tm_has k cleared = false) /\
  calls (fire_timeout h cleared) = calls tm ++ [timed_out] /\
  let created := createTransaction (tk_id task) owner request done error timeout_ms cleared in
  let expired := fire_timeout h created.2 in
  exists tx,
    created.1 = Some tx /\
    tm_get (tk_id task) created.2 = Some tx /\
    tm_get (tk_id task) expired = None /\
    calls expired = calls tm ++ [timed_out] /\
    (tx_uid tx ∉ called expired) /\
    (timeout_ms <= 0 -> forall later, tx_uid tx ∉ called (run later expired)).
Proof.
  intros Hwf Hh Hid cleared timed_out. subst cleared timed_out.
  split; [done|]. split; [done|]. split; [done|].
  split; [intros k; unfold tm_has; simpl; by destruct (String.eqb k "")|].
  assert (Hh' : timers (tm_clear tm) !! h = Some task) by done.
  destruct (fire_timeout_fields h task (tm_clear tm) Hh') as (_ & _ & Fc & _).
  split; [done|]. cbv zeta.
  assert (Hhas : tm_has (tk_id task) (tm_clear tm) = false).
  { unfold tm_has. simpl. by destruct (String.eqb (tk_id task) ""). }
  pose proof (createTransaction_stored (tk_id task) owner request done error timeout_ms
                (tm_clear tm) Hid Hhas) as Hget.
  destruct (createTransaction_fields (tk_id task) owner request done error timeout_ms
              (tm_clear tm) Hhas) as (E1 & Et & Eti & Ec & En).
  destruct (createTransaction (tk_id task) owner request done error timeout_ms (tm_clear tm))
    as [r tm'] eqn:E.
  cbn [fst snd] in *. subst r.
  set (tx := mkTx (tk_id task) owner request done error _ _) in *.
  assert (Huid : tx_uid tx = next_uid tm) by done.
  destruct (wf_timer _ Hwf _ _ Hh) as (Hlt & Hnc & _).
  assert (Hh2 : timers tm' !! h = Some task).
  { rewrite Eti. destruct (0 <? timeout_ms); [|done].
    rewrite lookup_insert_ne; [done|]. simpl. lia. }
  destruct (fire_timeout_fields h task tm' Hh2) as (Ft & Fti & Fc2 & Fn).
  pose proof Hid as Hid'. apply String.eqb_neq in Hid'. rewrite Hid' in Ft, Et.
  simpl in Et.
  assert (Hgone : tm_get (tk_id task) (fire_timeout h tm') = None).
  { rewrite tm_get_spec, Hid', Ft. apply Map_get_delete_eq. }
  assert (Hnot : tx_uid tx ∉ called (fire_timeout h tm')).
  { unfold called. rewrite Fc2, called_snoc. unfold called. rewrite Ec. simpl.
    intros Hin. apply elem_of_app in Hin as [Hin|Hin].
    - apply (wf_called_lt _ Hwf) in Hin. lia.
    - apply list_elem_of_singleton in Hin. lia. }
  exists tx. split; [done|]. split; [done|]. split; [done|].
  split; [by rewrite Fc2, Ec|]. split; [done|].
  intros Hle later.
  assert (Hs : stranded (tx_uid tx) (fire_timeout h tm')).
  { split; [|split; [|done]].
    - split; [rewrite Fn, En, Huid; simpl; lia|].
      intros k t. rewrite Ft, Et. simpl. rewrite String.eqb_refl. simpl.
      intros Hin. by apply elem_of_nil in Hin.
    - rewrite Fti. apply lookup_delete_None. right.
      rewrite Eti. assert (E0 : (0 <? timeout_ms) = false) by (apply Z.ltb_ge; lia).
      rewrite E0, Huid. simpl.
      destruct (timers tm !! next_uid tm) as [t0|] eqn:Ht0; [|done].
      destruct (wf_timer _ Hwf _ _ Ht0) as [? _]. lia. }
  by destruct (stranded_run _ later _ Hs) as (_ & _ & ?).
Qed.

Lemma clear_leaves_timers_armed_witness :
  let tm := run demo_run (new_TransactionManager false) in
  let created := createTransaction "T1" demo_twin "message" (Resolve 5) (Reject 5) 0
                   (tm_clear tm) in
  let expired := fire_timeout 0 created.2 in
  timers tm !! 0%nat = Some (mkTask "T1" (Reject 0) 100) /\
  exists tx,
    created.1 = Some tx /\
    tm_get "T1" created.2 = Some tx /\
    tm_get "T1" expired = None /\
    calls expired = [mkCall 0 (Reject 0) (Failure (Error "Transaction timed out!"))] /\
    forall later, tx_uid tx ∉ called (run later expired).
Proof.
  intros tm created expired. split; [reflexivity|].
  destruct (clear_leaves_timers_armed tm 0 (mkTask "T1" (Reject 0) 100) demo_twin "message"
              (Resolve 5) (Reject 5) 0)
    as (_ & _ & _ & _ & _ & tx & H1 & H2 & H3 & H4 & _ & H5).
  - apply (tm_wf_run demo_run), tm_wf_new.
  - reflexivity.
  - discriminate.
  - exists tx. split; [exact H1|]. split; [exact H2|]. split; [exact H3|].
    split; [exact H4|]. apply H5. lia.
Defined.

(** X7. In every state that a run of the manager reaches from a new
    manager, the table is keyed by the ids of its records: the keys are
    pairwise distinct and never empty, the record stored under [k] has id
    [k] and is the one [get(k)] returns, [has] tells exactly the keys, no
    two entries hold the same record, and neither a stored record nor a
    record whose timer is armed has had a continuation called. *)
Theorem runs_keep_table_keyed_by_id (dbg : bool) (ops : list Op) :
  let tm := run ops (new_TransactionManager dbg) in
  NoDup ((transactions tm).*1) /\
  (forall k tx, (k, tx) ∈ transactions tm ->
     k <> "" /\ tx_id tx = k /\ tm_get k tm = Some tx /\ (tx_uid tx ∉ called tm)) /\
  (forall k, tm_has k tm = true <-> k ∈ (transactions tm).*1) /\
  (forall k1 tx1 k2 tx2,
     (k1, tx1) ∈ transactions tm -> (k2, tx2) ∈ transactions tm ->
     tx_uid tx1 = tx_uid tx2 -> k1 = k2) /\
  (forall h task, timers tm !! h = Some task -> h ∉ called tm).
Proof.
  intros tm.
  assert (Hwf : tm_wf tm) by apply tm_wf_run, tm_wf_new.
  split; [apply Hwf|]. split.
  { intros k tx Hin. destruct (wf_entry _ Hwf _ _ Hin) as (H1 & H2 & _ & H3 & _).
    split; [done|]. split; [done|]. split; [by apply tm_get_elem|done]. }
  split.
  { intros k. rewrite tm_has_get. split.
    - intros H. apply bool_decide_eq_true_1 in H as [tx Hg].
      apply tm_get_elem in Hg; [|done]. apply list_elem_of_fmap. by exists (k, tx).
    - intros H. apply list_elem_of_fmap in H as [[k' tx] [-> Hin]].
      apply bool_decide_eq_true_2. exists tx. by apply tm_get_elem. }
  split; [apply Hwf|].
  intros h task Ht. by destruct (wf_timer _ Hwf _ _ Ht) as (_ & ? & _).
Qed.

(** ** The circular iterator: round robin *)

Lemma nextElems_state {T} (n : nat) (it : CircularIterator T) :
  (nextElems n it).2 = mkIterator (it_l it) (it_i it + n).
Proof.
  revert it. induction n as [|n IH]; intros [l i]; simpl.
  - f_equal. lia.
  - rewrite IH. simpl. f_equal. lia.
Qed.

Lemma nextElems_results {T} (n : nat) (it : CircularIterator T) :
  (nextElems n it).1 =
    (fun j => it_l it !! (j mod length (it_l it))%nat) <$> seq (it_i it) n.
Proof.
  revert it. induction n as [|n IH]; intros [l i]; simpl; [done|].
  f_equal. by rewrite IH.
Qed.

(** X8. The iterator built from [l] hands out the elements of [l] round
    robin: the [n]-th call of [nextElem()] (counting from 0) returns
    [l[n mod len]], after [n] calls [currElem()] returns [l[n mod len]], the
    first [len] calls return the elements of [l] in order, and [len] more
    calls bring the iterator back to the same current element.  Over a
    non-empty list an element is always returned; over an empty list both
    operations always return [undefined]. *)
Theorem iterator_is_round_robin {T} :
  (forall (l : list T) (n : nat),
     (nextElems n (newIterator l)).1 = (fun j => l !! (j mod length l)%nat) <$> seq 0 n /\
     currElem (nextElems n (newIterator l)).2 = l !! (n mod length l)%nat /\
     currElem (nextElems (n + length l) (newIterator l)).2
       = currElem (nextElems n (newIterator l)).2) /\
  (forall l : list T, (nextElems (length l) (newIterator l)).1 = Some <$> l) /\
  (forall (x : T) (l : list T) (n : nat),
     is_Some (currElem (nextElems n (newIterator (x :: l))).2)) /\
  (forall n : nat,
     currElem (nextElems n (newIterator (@nil T))).2 = None /\
     (nextElems n (newIterator (@nil T))).1 = replicate n None).
Proof.
  assert (Hcur : forall (l : list T) n, currElem (nextElems n (newIterator l)).2
                                        = l !! (n mod length l)%nat).
  { intros l n. rewrite nextElems_state. unfold currElem. simpl. done. }
  split.
  { intros l n. split; [by rewrite nextElems_results|]. split; [done|].
    rewrite !Hcur.
    replace (n + length l)%nat with (n + 1 * length l)%nat by lia.
    by rewrite Nat.Div0.mod_add. }
  split.
  { intros l. rewrite nextElems_results. simpl. apply list_eq. intros j.
    rewrite !list_lookup_fmap.
    destruct (decide (j < length l)%nat) as [Hlt|Hge].
    - rewrite lookup_seq_lt by done. simpl. rewrite Nat.mod_small by done.
      destruct (lookup_lt_is_Some_2 l j Hlt) as [x Hx]. by rewrite Hx.
    - rewrite lookup_seq_ge by lia. rewrite lookup_ge_None_2 by lia. done. }
  split.
  { intros x l n. rewrite Hcur. apply lookup_lt_is_Some.
    apply Nat.mod_upper_bound. done. }
  intros n. split; [by rewrite Hcur|].
  rewrite nextElems_results. simpl.
  generalize 0%nat. induction n as [|n IH]; intros s; simpl; [done|]. by rewrite IH.
Qed.

(** ** Identifiers and random strings *)

Lemma getNumericID_step next :
  0 <= next < MAX_SAFE_INTEGER ->
  getNumericID next = (pretty next, (next + 1) mod MAX_SAFE_INTEGER).
Proof.
  intros H. unfold getNumericID.
  rewrite Number_toString_safe by (unfold MAX_SAFE_INTEGER in H; lia). f_equal.
  destruct (next + 1 >=? MAX_SAFE_INTEGER) eqn:E.
  - apply Z.geb_le in E. replace (next + 1) with MAX_SAFE_INTEGER by lia.
    by rewrite Z.mod_same.
  - rewrite Z.geb_leb in E. apply Z.leb_gt in E. rewrite Z.mod_small; lia.
Qed.

Lemma numericIDs_spec n next :
  0 <= next < MAX_SAFE_INTEGER ->
  numericIDs n next =
    ((fun k => pretty ((next + Z.of_nat k) mod MAX_SAFE_INTEGER)) <$> seq 0 n,
     (next + Z.of_nat n) mod MAX_SAFE_INTEGER).
Proof.
  revert next. induction n as [|n IH]; intros next H.
  - simpl. rewrite Z.add_0_r, Z.mod_small by done. done.
  - cbn [numericIDs]. rewrite getNumericID_step by done. cbn [fst snd].
    rewrite IH by (apply Z.mod_pos_bound; done). cbn [fst snd].
    change (seq 0 (S n)) with (0%nat :: seq 1 n).
    rewrite fmap_cons, <- fmap_S_seq, <- list_fmap_compose. simpl. f_equal.
    + f_equal; [by rewrite Z.add_0_r, Z.mod_small|].
      apply list_fmap_ext. intros i k _. simpl.
      rewrite Zplus_mod_idemp_l. do 2 f_equal. lia.
    + rewrite Zplus_mod_idemp_l. f_equal. lia.
Qed.

(** X9. The identifiers handed out by [getNumericID()], from a seed
    in the range of the counter: the [k]-th call returns the decimal digits
    of [(seed + k) mod MAX_SAFE_INTEGER], the counter stays in
    [0, MAX_SAFE_INTEGER) and wraps to 0, and any [MAX_SAFE_INTEGER]
    consecutive identifiers, or fewer, are pairwise distinct. *)
Theorem getNumericID_ids_are_distinct (seed : Z) (n : nat) :
  0 <= seed < MAX_SAFE_INTEGER ->
  Z.of_nat n <= MAX_SAFE_INTEGER ->
  let r := numericIDs n seed in
  r.1 = (fun k => pretty ((seed + Z.of_nat k) mod MAX_SAFE_INTEGER)) <$> seq 0 n /\
  0 <= r.2 < MAX_SAFE_INTEGER /\
  NoDup r.1 /\
  (getNumericID (MAX_SAFE_INTEGER - 1)).2 = 0.
Proof.
  intros Hs Hn r. subst r. rewrite numericIDs_spec by done. cbn [fst snd].
  split; [done|]. split; [by apply Z.mod_pos_bound|]. split; [|done].
  apply NoDup_fmap_2_strong; [|apply NoDup_seq].
  intros i j Hi Hj Heq. apply elem_of_seq in Hi, Hj.
  apply (inj pretty) in Heq.
  unfold MAX_SAFE_INTEGER in *.
  Z.div_mod_to_equations. lia.
Qed.

Lemma getNumericID_ids_are_distinct_witness :
  (numericIDs 3 9007199254740989).1
    = ["9007199254740989"; "9007199254740990"; "0"] /\
  NoDup (numericIDs 3 9007199254740989).1.
Proof.
  destruct (getNumericID_ids_are_distinct 9007199254740989 3) as (H1 & _ & H2 & _).
  - unfold MAX_SAFE_INTEGER. lia.
  - unfold MAX_SAFE_INTEGER. lia.
  - split; [reflexivity|exact H2].
Defined.

Lemma string_length_app (s1 s2 : string) :
  String.length (s1 +:+ s2) = (String.length s1 + String.length s2)%nat.
Proof. induction s1 as [|c s1 IH]; simpl; [done|]. by rewrite IH. Qed.

Lemma list_ascii_of_string_app (s1 s2 : string) :
  String.list_ascii_of_string (s1 +:+ s2) =
    String.list_ascii_of_string s1 ++ String.list_ascii_of_string s2.
Proof. induction s1 as [|c s1 IH]; simpl; [done|]. by rewrite IH. Qed.

Lemma substring_one (s : string) (p : nat) :
  String.substring p 1 s =
    match String.get p s with Some c => String c "" | None => "" end.
Proof.
  revert p. induction s as [|c s IH]; intros [|p]; simpl; try done.
  by destruct s.
Qed.

Lemma string_get_lt (s : string) (p : nat) :
  (p < String.length s)%nat ->
  exists c, String.get p s = Some c /\ In c (String.list_ascii_of_string s).
Proof.
  revert p. induction s as [|c s IH]; intros p Hp; simpl in *; [lia|].
  destruct p as [|p].
  - exists c. split; [done|by left].
  - destruct (IH p) as (c' & H1 & H2); [lia|]. exists c'. split; [done|by right].
Qed.

Lemma randomString_loop_spec todo i rand acc :
  (forall j, (rand j < String.length charSet)%nat) ->
  let s := randomString_loop todo i rand acc in
  String.length s = (String.length acc + todo)%nat /\
  (forallb alphanumeric (String.list_ascii_of_string acc) = true ->
   forallb alphanumeric (String.list_ascii_of_string s) = true).
Proof.
  intros Hr. revert i acc.
  induction todo as [|todo IH]; intros i acc; cbn [randomString_loop].
  - split; [lia|done].
  - destruct (string_get_lt charSet (rand i) (Hr i)) as (c & Hc & Hin).
    destruct (IH (S i) (acc +:+ String.substring (rand i) 1 charSet)) as [IH1 IH2].
    rewrite substring_one, Hc in *.
    split.
    + rewrite IH1, string_length_app. simpl. lia.
    + intros Hacc. apply IH2. rewrite list_ascii_of_string_app, forallb_app, Hacc.
      simpl. rewrite andb_true_r. unfold alphanumeric.
      apply existsb_exists. exists c. split; [done|]. apply Ascii.eqb_refl.
Qed.

(** X10. [randomString(len)] returns exactly [len] characters (12 when no
    length is given, none when [len] is not positive), each of them a letter
    or a digit of [charSet]. *)
Theorem randomString_is_alphanumeric (len : option Z) (rand : nat -> nat) :
  (forall i, (rand i < 62)%nat) ->
  String.length (randomString len rand) = Z.to_nat (default 12 len) /\
  forallb alphanumeric (String.list_ascii_of_string (randomString len rand)) = true.
Proof.
  intros Hr. unfold randomString.
  destruct (randomString_loop_spec (Z.to_nat (default 12 len)) 0 rand "" Hr) as [H1 H2].
  split; [exact H1|]. by apply H2.
Qed.

Lemma randomString_is_alphanumeric_witness :
  randomString (Some 5) (fun i => (17 * i + 3) mod 62)%nat = "DUl2J" /\
  String.length (randomString None (fun i => (17 * i + 3) mod 62)%nat) = 12%nat.
Proof.
  split; [reflexivity|].
  apply (randomString_is_alphanumeric None (fun i => (17 * i + 3) mod 62)%nat).
  intros i. apply Nat.mod_upper_bound. done.
Defined.

(** ** Opening: any number of addresses and retries *)

Section OpeningRuns.
Variable network : nat -> string -> option Refusal.

Lemma dialed_snoc_dial t to k ws a o1 o2 c1 c2 :
  dialed (mkTransport k ws a o1 o2 c1 c2 (net t ++ [Dial to])) = dialed t ++ [to].
Proof. unfold dialed. simpl. by rewrite omap_app. Qed.

Lemma address_of_attempt_0 it : address_of_attempt it 0 = currElem it.
Proof. unfold address_of_attempt, currElem. by rewrite Nat.add_0_r. Qed.

Lemma address_of_attempt_S it j :
  address_of_attempt (nextElem it).2 j = address_of_attempt it (S j).
Proof. unfold address_of_attempt. simpl. do 2 f_equal. lia. Qed.

Lemma urls_of_attempts_S it server n :
  currElem it = Some server ->
  urls_of_attempts it (S n) = url server :: urls_of_attempts (nextElem it).2 n.
Proof.
  intros Hc. unfold urls_of_attempts.
  change (seq 0 (S n)) with (0%nat :: seq 1 n).
  cbn [omap list_omap]. rewrite address_of_attempt_0, Hc. cbn [fmap option_fmap option_map].
  f_equal. rewrite <- fmap_S_seq.
  induction (seq 0 n) as [|j js IH]; [done|].
  rewrite fmap_cons. cbn [omap list_omap].
  by rewrite address_of_attempt_S, IH.
Qed.

(** The state in which a failed attempt below the limit leaves the link:
    one more attempt counted, one more address dialled, one more wait, and
    the iterator shifted by one. *)
Lemma failed_attempt_state c server refusal :
  currElem (_address_iterator c) = Some server ->
  network (length (dialed (_transport c))) (url server) = Some refusal ->
  let c' := shift_iterator
              (delayOp (retry_time_secs (_config c) * 1000)
                 (count_attempt (_initSocket network (reset_status c)).2)) in
  _config c' = _config c /\
  _address_iterator c' = (nextElem (_address_iterator c)).2 /\
  kind (_transport c') = kind (_transport c) /\
  _attempts (_transport c') = _attempts (_transport c) + 1 /\
  _opening (_transport c') = _opening (_transport c) /\
  dialed (_transport c') = dialed (_transport c) ++ [url server] /\
  slept (_transport c') = slept (_transport c) ++ [retry_time_secs (_config c) * 1000].
Proof.
  intros Hc Hn.
  rewrite (_initSocket_fails network (reset_status c) server refusal Hc Hn).
  destruct c as [cfg it [k ws a o1 o2 c1 c2 tr]]. unfold dialed, slept.
  destruct (rf_closed refusal); simpl; rewrite ?omap_app; simpl;
    rewrite ?app_nil_r; repeat split; by rewrite <- ?app_assoc.
Qed.

(** The state in which the failed attempt that reaches the limit leaves the
    link. *)
Lemma last_attempt_state c server refusal :
  currElem (_address_iterator c) = Some server ->
  network (length (dialed (_transport c))) (url server) = Some refusal ->
  let c' := stop_opening (count_attempt (_initSocket network (reset_status c)).2) in
  _config c' = _config c /\
  _address_iterator c' = _address_iterator c /\
  kind (_transport c') = kind (_transport c) /\
  _attempts (_transport c') = _attempts (_transport c) + 1 /\
  _opening (_transport c') = false /\
  _opened (_transport c') = false /\
  _closing (_transport c') = false /\
  _closed (_transport c') = rf_closed refusal /\
  dialed (_transport c') = dialed (_transport c) ++ [url server] /\
  slept (_transport c') = slept (_transport c).
Proof.
  intros Hc Hn.
  rewrite (_initSocket_fails network (reset_status c) server refusal Hc Hn).
  destruct c as [cfg it [k ws a o1 o2 c1 c2 tr]]. unfold dialed, slept.
  destruct (rf_closed refusal); simpl; rewrite ?omap_app; simpl;
    rewrite ?app_nil_r; repeat split.
Qed.

(** The state in which an attempt that connects leaves the link. *)
Lemma connected_state c server :
  currElem (_address_iterator c) = Some server ->
  network (length (dialed (_transport c))) (url server) = None ->
  let c' := mark_opened (_initSocket network (reset_status c)).2 in
  _config c' = _config c /\
  _address_iterator c' = _address_iterator c /\
  kind (_transport c') = kind (_transport c) /\
  _attempts (_transport c') = _attempts (_transport c) /\
  _ws (_transport c') = Some (url server) /\
  _opening (_transport c') = false /\
  _opened (_transport c') = true /\
  _closing (_transport c') = false /\
  _closed (_transport c') = false /\
  dialed (_transport c') = dialed (_transport c) ++ [url server] /\
  slept (_transport c') = slept (_transport c).
Proof.
  intros Hc Hn. unfold _initSocket.
  destruct c as [cfg it [k ws a o1 o2 c1 c2 tr]]. simpl in *. rewrite Hc.
  unfold dialed in *. simpl in *. rewrite Hn. unfold slept. simpl.
  rewrite !omap_app. simpl. rewrite app_nil_r. repeat split.
Qed.

(** [_attemptOpen] when every remaining attempt is refused. *)
Lemma _attemptOpen_all_refused (n : nat) (refusals : nat -> Refusal) c :
  Z.of_nat (S n) = Z.max 1 (max_retries (_config c) + 1 - _attempts (_transport c)) ->
  (forall j, (j <= n)%nat -> exists server,
     address_of_attempt (_address_iterator c) j = Some server /\
     network (length (dialed (_transport c)) + j)%nat (url server) = Some (refusals j)) ->
  let r := _attemptOpen network c in
  r.1 = Throw (rf_error (refusals n)) /\
  _config r.2 = _config c /\
  _address_iterator r.2 =
    mkIterator (it_l (_address_iterator c)) (it_i (_address_iterator c) + n) /\
  kind (_transport r.2) = kind (_transport c) /\
  _attempts (_transport r.2) = _attempts (_transport c) + Z.of_nat (S n) /\
  _opening (_transport r.2) = false /\
  _opened (_transport r.2) = false /\
  _closing (_transport r.2) = false /\
  _closed (_transport r.2) = rf_closed (refusals n) /\
  dialed (_transport r.2) =
    dialed (_transport c) ++ urls_of_attempts (_address_iterator c) (S n) /\
  slept (_transport r.2) =
    slept (_transport c) ++ replicate n (retry_time_secs (_config c) * 1000).
Proof.
  revert refusals c. induction n as [|n IH]; intros refusals c Hn Hnet.
  - destruct (Hnet 0%nat) as (server & Hs & Hr); [lia|].
    rewrite address_of_attempt_0 in Hs. rewrite Nat.add_0_r in Hr.
    cbv zeta. rewrite (_attemptOpen_last network c server (refusals 0%nat) Hs Hr) by lia.
    destruct (last_attempt_state c server (refusals 0%nat) Hs Hr)
      as (H1 & H2 & H3 & H4 & H5 & H6 & H7 & H8 & H9 & H10).
    cbn [fst snd]. rewrite H1, H2, H3, H4, H5, H6, H7, H8, H9, H10.
    rewrite (urls_of_attempts_S _ server 0 Hs). unfold urls_of_attempts. simpl.
    rewrite Nat.add_0_r, app_nil_r. by destruct (_address_iterator c).
  - destruct (Hnet 0%nat) as (server & Hs & Hr); [lia|].
    rewrite address_of_attempt_0 in Hs. rewrite Nat.add_0_r in Hr.
    cbv zeta. rewrite (_attemptOpen_retry network c server (refusals 0%nat) Hs Hr) by lia.
    destruct (failed_attempt_state c server (refusals 0%nat) Hs Hr)
      as (H1 & H2 & H3 & H4 & H5 & H6 & H7).
    set (c' := shift_iterator _) in *.
    destruct (IH (fun j => refusals (S j)) c') as
      (R1 & R2 & R3 & R4 & R5 & R6 & R7 & R8 & R9 & R10 & R11).
    { rewrite H1, H4. lia. }
    { intros j Hj. destruct (Hnet (S j)) as (sj & Hsj & Hrj); [lia|].
      exists sj. rewrite H2, address_of_attempt_S. split; [done|].
      rewrite H6, length_app. simpl.
      by replace (length (dialed (_transport c)) + 1 + j)%nat
        with (length (dialed (_transport c)) + S j)%nat by lia. }
    rewrite R1, R2, R3, R4, R5, R6, R7, R8, R9, R10, R11.
    rewrite H1, H2, H3, H4, H6, H7.
    rewrite (urls_of_attempts_S _ server (S n) Hs).
    repeat split; try done.
    + simpl. f_equal. lia.
    + lia.
    + by rewrite <- app_assoc.
    + by rewrite <- app_assoc.
Qed.

(** [_attemptOpen] when [k] attempts are refused and the next one
    connects. *)
Lemma _attemptOpen_connects_after (k : nat) (refusals : nat -> Refusal) c :
  _attempts (_transport c) + Z.of_nat k <= max_retries (_config c) ->
  (forall j, (j < k)%nat -> exists server,
     address_of_attempt (_address_iterator c) j = Some server /\
     network (length (dialed (_transport c)) + j)%nat (url server) = Some (refusals j)) ->
  (exists server,
     address_of_attempt (_address_iterator c) k = Some server /\
     network (length (dialed (_transport c)) + k)%nat (url server) = None) ->
  let r := _attemptOpen network c in
  r.1 = Return tt /\
  _config r.2 = _config c /\
  _address_iterator r.2 =
    mkIterator (it_l (_address_iterator c)) (it_i (_address_iterator c) + k) /\
  kind (_transport r.2) = kind (_transport c) /\
  _attempts (_transport r.2) = _attempts (_transport c) + Z.of_nat k /\
  _ws (_transport r.2) = url <$> address_of_attempt (_address_iterator c) k /\
  _opening (_transport r.2) = false /\
  _opened (_transport r.2) = true /\
  _closing (_transport r.2) = false /\
  _closed (_transport r.2) = false /\
  dialed (_transport r.2) =
    dialed (_transport c) ++ urls_of_attempts (_address_iterator c) (S k) /\
  slept (_transport r.2) =
    slept (_transport c) ++ replicate k (retry_time_secs (_config c) * 1000).
Proof.
  revert refusals c. induction k as [|k IH]; intros refusals c Hk Hnet Hok.
  - destruct Hok as (server & Hs & Hr).
    pose proof Hs as Hs0.
    rewrite address_of_attempt_0 in Hs. rewrite Nat.add_0_r in Hr.
    cbv zeta. rewrite (_attemptOpen_connected network c server Hs Hr).
    destruct (connected_state c server Hs Hr)
      as (H1 & H2 & H3 & H4 & H5 & H6 & H7 & H8 & H9 & H10 & H11).
    cbn [fst snd]. rewrite H1, H2, H3, H4, H5, H6, H7, H8, H9, H10, H11, Hs0.
    rewrite (urls_of_attempts_S _ server 0 Hs). unfold urls_of_attempts. simpl.
    rewrite Nat.add_0_r, app_nil_r, Z.add_0_r. by destruct (_address_iterator c).
  - destruct (Hnet 0%nat) as (server & Hs & Hr); [lia|].
    rewrite address_of_attempt_0 in Hs. rewrite Nat.add_0_r in Hr.
    cbv zeta. rewrite (_attemptOpen_retry network c server (refusals 0%nat) Hs Hr) by lia.
    destruct (failed_attempt_state c server (refusals 0%nat) Hs Hr)
      as (H1 & H2 & H3 & H4 & H5 & H6 & H7).
    set (c' := shift_iterator _) in *.
    destruct (IH (fun j => refusals (S j)) c') as
      (R1 & R2 & R3 & R4 & R5 & R6 & R7 & R8 & R9 & R10 & R11 & R12).
    { rewrite H1, H4. lia. }
    { intros j Hj. destruct (Hnet (S j)) as (sj & Hsj & Hrj); [lia|].
      exists sj. rewrite H2, address_of_attempt_S. split; [done|].
      rewrite H6, length_app. simpl.
      by replace (length (dialed (_transport c)) + 1 + j)%nat
        with (length (dialed (_transport c)) + S j)%nat by lia. }
    { destruct Hok as (sk & Hsk & Hrk).
      exists sk. rewrite H2, address_of_attempt_S. split; [done|].
      rewrite H6, length_app. simpl.
      by replace (length (dialed (_transport c)) + 1 + k)%nat
        with (length (dialed (_transport c)) + S k)%nat by lia. }
    rewrite R1, R2, R3, R4, R5, R6, R7, R8, R9, R10, R11, R12.
    rewrite H1, H2, H3, H4, H6, H7, address_of_attempt_S.
    rewrite (urls_of_attempts_S _ server (S k) Hs).
    repeat split; try done.
    + simpl. f_equal. lia.
    + lia.
    + by rewrite <- app_assoc.
    + by rewrite <- app_assoc.
Qed.

End OpeningRuns.

Lemma transport_open_attempts network c :
  kind (_transport c) <> NoTransport ->
  _opening (_transport c) = false ->
  _opened (_transport c) = false ->
  _closed (_transport c) = false ->
  transport_open network c =
    _attemptOpen network
      (with_transport
         (mkTransport (kind (_transport c)) (_ws (_transport c)) 0 true false
                      (_closing (_transport c)) false (net (_transport c))) c).
Proof.
  intros Hk H1 H2 H3. unfold transport_open. rewrite H1, H2, H3.
  by destruct (kind (_transport c)).
Qed.

(** X11. [open()] on a transport that is neither opening, open nor closed,
    when every socket is refused: it makes [max_retries + 1] attempts (one
    when [max_retries] is negative), dialling the addresses round robin from
    the current one, waiting [retry_time_secs * 1000] ms before each retry,
    and rejects with the error of the last attempt.  The iterator is left on
    the address of the last attempt, and the transport is neither opening
    nor open. *)
Theorem open_gives_up_after_max_retries
    (network : nat -> string -> option Refusal) (c : Link)
    (refusals : nat -> Refusal) (n : nat) :
  kind (_transport c) <> NoTransport ->
  _opening (_transport c) = false ->
  _opened (_transport c) = false ->
  _closed (_transport c) = false ->
  Z.of_nat (S n) = Z.max 1 (max_retries (_config c) + 1) ->
  (forall j, (j <= n)%nat -> exists server,
     address_of_attempt (_address_iterator c) j = Some server /\
     network (length (dialed (_transport c)) + j)%nat (url server) = Some (refusals j)) ->
  let r := transport_open network c in
  r.1 = Throw (rf_error (refusals n)) /\
  _attempts (_transport r.2) = Z.of_nat (S n) /\
  dialed (_transport r.2) =
    dialed (_transport c) ++ urls_of_attempts (_address_iterator c) (S n) /\
  slept (_transport r.2) =
    slept (_transport c) ++ replicate n (retry_time_secs (_config c) * 1000) /\
  _address_iterator r.2 =
    mkIterator (it_l (_address_iterator c)) (it_i (_address_iterator c) + n) /\
  currElem (_address_iterator r.2) = address_of_attempt (_address_iterator c) n /\
  _opening (_transport r.2) = false /\
  _opened (_transport r.2) = false /\
  _config r.2 = _config c.
Proof.
  intros Hk H1 H2 H3 Hn Hnet r. subst r.
  rewrite (transport_open_attempts network c Hk H1 H2 H3).
  destruct (_attemptOpen_all_refused network n refusals
              (with_transport
                 (mkTransport (kind (_transport c)) (_ws (_transport c)) 0 true false
                              (_closing (_transport c)) false (net (_transport c))) c))
    as (R1 & R2 & R3 & R4 & R5 & R6 & R7 & R8 & R9 & R10 & R11).
  { simpl. lia. }
  { exact Hnet. }
  cbn [with_transport _transport _address_iterator _config _attempts] in *.
  rewrite R1, R2, R3, R5, R6, R7.
  split; [done|]. split; [lia|]. split; [exact R10|]. split; [exact R11|].
  split; [done|]. split; [|done].
  unfold currElem, address_of_attempt. done.
Qed.

Lemma open_gives_up_after_max_retries_witness :
  let r := transport_open demo_network_down demo_link in
  r.1 = Throw (Error "connect ECONNREFUSED ws://b.example:8188") /\
  _attempts (_transport r.2) = 2 /\
  dialed (_transport r.2) = ["ws://a.example:8188"; "ws://b.example:8188"] /\
  slept (_transport r.2) = [0].
Proof.
  destruct (open_gives_up_after_max_retries demo_network_down demo_link demo_refusals 1)
    as (H1 & H2 & H3 & H4 & _); try reflexivity.
  - discriminate.
  - intros [|[|j]] Hj; [eexists; split; reflexivity..|lia].
  - split; [exact H1|]. split; [exact H2|]. split; [exact H3|exact H4].
Defined.

(** X12. [open()] when the first [k] sockets are refused and the next one
    connects, with [k <= max_retries]: it resolves after [k + 1] attempts
    made round robin from the current address, with a wait of
    [retry_time_secs * 1000] ms before each retry; the transport is open,
    holds the socket of the address that connected, and the iterator stands
    on that address. *)
Theorem open_connects_after_retries
    (network : nat -> string -> option Refusal) (c : Link)
    (refusals : nat -> Refusal) (k : nat) (server : ServerObjectConf) :
  kind (_transport c) <> NoTransport ->
  _opening (_transport c) = false ->
  _opened (_transport c) = false ->
  _closed (_transport c) = false ->
  Z.of_nat k <= max_retries (_config c) ->
  (forall j, (j < k)%nat -> exists refused,
     address_of_attempt (_address_iterator c) j = Some refused /\
     network (length (dialed (_transport c)) + j)%nat (url refused) = Some (refusals j)) ->
  address_of_attempt (_address_iterator c) k = Some server ->
  network (length (dialed (_transport c)) + k)%nat (url server) = None ->
  let r := transport_open network c in
  r.1 = Return tt /\
  _attempts (_transport r.2) = Z.of_nat k /\
  dialed (_transport r.2) =
    dialed (_transport c) ++ urls_of_attempts (_address_iterator c) (S k) /\
  slept (_transport r.2) =
    slept (_transport c) ++ replicate k (retry_time_secs (_config c) * 1000) /\
  currElem (_address_iterator r.2) = Some server /\
  _ws (_transport r.2) = Some (url server) /\
  _opening (_transport r.2) = false /\
  _opened (_transport r.2) = true /\
  _closing (_transport r.2) = false /\
  _closed (_transport r.2) = false /\
  _config r.2 = _config c.
Proof.
  intros Hk H1 H2 H3 Hle Hnet Hs Hok r. subst r.
  rewrite (transport_open_attempts network c Hk H1 H2 H3).
  destruct (_attemptOpen_connects_after network k refusals
              (with_transport
                 (mkTransport (kind (_transport c)) (_ws (_transport c)) 0 true false
                              (_closing (_transport c)) false (net (_transport c))) c))
    as (R1 & R2 & R3 & R4 & R5 & R6 & R7 & R8 & R9 & R10 & R11 & R12).
  { simpl. lia. }
  { exact Hnet. }
  { by exists server. }
  cbn [with_transport _transport _address_iterator _config _attempts] in *.
  rewrite R1, R2, R3, R5, R6, R7, R8, R9, R10, Hs.
  split; [done|]. split; [lia|]. split; [exact R11|]. split; [exact R12|].
  split; [|done].
  unfold currElem. simpl. exact Hs.
Qed.

Lemma open_connects_after_retries_witness :
  let r := transport_open demo_network_flaky demo_link3 in
  r.1 = Return tt /\
  _attempts (_transport r.2) = 2 /\
  dialed (_transport r.2) =
    ["ws://a.example:8188"; "ws://b.example:8188"; "ws://c.example:8188"] /\
  slept (_transport r.2) = [2000; 2000] /\
  currElem (_address_iterator r.2) = Some demo_C.
Proof.
  destruct (open_connects_after_retries demo_network_flaky demo_link3 demo_refusals 2 demo_C)
    as (H1 & H2 & H3 & H4 & H5 & _); try reflexivity.
  - discriminate.
  - intros [|[|j]] Hj; [eexists; split; reflexivity..|lia].
  - split; [exact H1|]. split; [exact H2|]. split; [exact H3|]. split; [exact H4|exact H5].
Defined.

(** ** The life of a transport *)

Lemma _initSocket_flags network c :
  let c1 := (_initSocket network c).2 in
  kind (_transport c1) = kind (_transport c) /\
  _opening (_transport c1) = _opening (_transport c) /\
  _opened (_transport c1) = _opened (_transport c) /\
  _attempts (_transport c1) = _attempts (_transport c) /\
  _config c1 = _config c.
Proof.
  unfold _initSocket. destruct (currElem (_address_iterator c)) as [server|]; [|done].
  destruct (network _ _) as [refusal|]; [|done].
  by destruct (rf_closed refusal).
Qed.

Lemma _attemptOpen_flags network c :
  let r := _attemptOpen network c in
  kind (_transport r.2) = kind (_transport c) /\
  _opening (_transport r.2) = false /\
  _opened (_transport r.2) = match r.1 with Return _ => true | Throw _ => false end.
Proof.
  cbv zeta. funelim (_attemptOpen network c);
    destruct (_initSocket_flags network (reset_status c)) as (F1 & F2 & F3 & _);
    match goal with
    | E : _initSocket network (reset_status c) = _ |- _ => rewrite E in F1, F2, F3
    end; simpl in F1, F2, F3.
  - simpl. by rewrite F1.
  - simpl. by rewrite F1, F3.
  - match goal with
    | IH : _ /\ _ /\ _ |- _ => destruct IH as (G1 & G2 & G3)
    end.
    rewrite G1, G2, G3. simpl. by rewrite F1.
Qed.

Lemma transport_open_flags network c :
  _opening (_transport c) = false ->
  let r := transport_open network c in
  kind (_transport r.2) = kind (_transport c) /\
  _opening (_transport r.2) = false /\
  (_opened (_transport c) = true ->
   _opened (_transport r.2) = true /\ exists e, r.1 = Throw e) /\
  (r.1 = Return tt -> _opened (_transport c) = false /\ _opened (_transport r.2) = true).
Proof.
  intros Ho. unfold transport_open. rewrite Ho.
  destruct (kind (_transport c)) eqn:Ek;
    (destruct (_opened (_transport c)) eqn:E1;
       [cbn [fst snd]; rewrite ?Ek, ?Ho; repeat split; eauto; discriminate|]);
    (destruct (_closed (_transport c)) eqn:E2;
       [cbn [fst snd]; rewrite ?Ek, ?Ho; repeat split; eauto; discriminate|]);
    try (cbn [fst snd]; rewrite ?Ek, ?Ho; repeat split; eauto; discriminate);
    match goal with
    | |- context [_attemptOpen network ?c0] =>
        destruct (_attemptOpen_flags network c0) as (A1 & A2 & A3);
        destruct (_attemptOpen network c0) as [[[]|e] c'] eqn:E
    end; cbn [fst snd] in *; simpl in A1; rewrite A1, A2, A3;
    repeat split; eauto; discriminate.
Qed.

Lemma transport_step_flags c op :
  _opening (_transport c) = false ->
  kind (_transport (transport_step c op)) = kind (_transport c) /\
  _opening (_transport (transport_step c op)) = false /\
  (_opened (_transport c) = true -> _opened (_transport (transport_step c op)) = true).
Proof.
  intros Ho. destruct op as [network| |]; simpl.
  - destruct (transport_open_flags network c Ho) as (F1 & F2 & F3 & _).
    split; [done|]. split; [done|]. intros H. by destruct (F3 H).
  - unfold transport_close.
    destruct (kind (_transport c)) eqn:Ek,
             (_opened (_transport c)) eqn:E1,
             (_closing (_transport c)) eqn:E2,
             (_closed (_transport c)) eqn:E3; simpl; rewrite ?Ek, ?Ho, ?E1; done.
  - done.
Qed.

Lemma transport_run_flags ops c :
  _opening (_transport c) = false ->
  kind (_transport (transport_run ops c)) = kind (_transport c) /\
  _opening (_transport (transport_run ops c)) = false /\
  (_opened (_transport c) = true -> _opened (_transport (transport_run ops c)) = true).
Proof.
  revert c. induction ops as [|op ops IH]; intros c Ho; simpl; [done|].
  destruct (transport_step_flags c op Ho) as (F1 & F2 & F3).
  destruct (IH _ F2) as (G1 & G2 & G3).
  split; [by rewrite G1|]. split; [done|]. auto.
Qed.

(** X13. A transport is opened at most once.  Whatever is done to a new
    transport ([open()] on any network, [close()], the socket closing), when
    each of these has settled the transport is not in the opening state;
    and once an [open()] has succeeded, every later [open()] is refused with
    'has already been opened' and changes nothing, also after the transport
    has been closed. *)
Theorem transport_opens_at_most_once
    (cfg : Configuration) (it : CircularIterator ServerObjectConf) (k : TransportKind)
    (before after : list TransportOp)
    (network again : nat -> string -> option Refusal) :
  let c0 := mkLink cfg it (new_Transport k) in
  let c1 := transport_run before c0 in
  _opening (_transport c1) = false /\
  ((transport_open network c1).1 = Return tt ->
   let c2 := transport_run after (transport_open network c1).2 in
   _opened (_transport c2) = true /\
   _opening (_transport c2) = false /\
   transport_open again c2 =
     (Throw (Error ("unable to open, " +:+ socket_name k +:+ " has already been opened")),
      c2)).
Proof.
  intros c0 c1.
  destruct (transport_run_flags before c0 eq_refl) as (K1 & O1 & _).
  fold c1 in K1, O1. split; [done|]. intros Hret c2.
  destruct (transport_open_flags network c1 O1) as (K2 & O2 & _ & Hopened).
  destruct (Hopened Hret) as [_ Hop].
  destruct (transport_run_flags after _ O2) as (K3 & O3 & M3).
  fold c2 in K3, O3, M3. specialize (M3 Hop).
  split; [done|]. split; [done|].
  assert (Hk : kind (_transport c2) = k) by (by rewrite K3, K2, K1).
  assert (Hne : k <> NoTransport).
  { intros ->. unfold transport_open in Hret. simpl in K1. by rewrite K1 in Hret. }
  unfold transport_open. rewrite Hk, O3, M3. by destruct k.
Qed.

Lemma transport_opens_at_most_once_witness :
  let c1 := (transport_open demo_network_up demo_link).2 in
  let c2 := transport_run [TClose; TSocketClosed] c1 in
  _closed (_transport c2) = true /\
  transport_open demo_network_up c2 =
    (Throw (Error "unable to open, websocket has already been opened"), c2).
Proof.
  intros c1 c2. split; [reflexivity|].
  destruct (transport_opens_at_most_once demo_config (newIterator [demo_A; demo_B])
              WebSocketTransport [] [TClose; TSocketClosed] demo_network_up demo_network_up)
    as [_ H].
  destruct H as (_ & _ & H); [reflexivity|]. exact H.
Defined.

(** ** Closing a connection *)




(** ** Destroying a session *)

Lemma upd_session_undo a f g s w :
  sessions w !! a = Some s -> g (f s) = s ->
  upd_session a g (upd_session a f w) = w.
Proof.
  intros Hs Hgf. destruct w as [c tm ss hs em na]. unfold upd_session. simpl in *.
  f_equal. apply map_eq. intros x. destruct (decide (x = a)) as [->|Hne].
  - rewrite !lookup_alter_eq, Hs. simpl. by rewrite Hgf.
  - by rewrite !lookup_alter_ne.
Qed.

(** X15. [destroy()] on a session that is neither being destroyed nor
    destroyed sets [_destroying] and sends the request; meanwhile a second
    [destroy()] rejects with 'destroying already in progress'.  When the
    request fails, whatever happened in between, the [catch] resets
    [_destroying] and changes nothing else, the promise is rejected with
    the error of the request (it is thrown again, unlike in [detach()]), and
    [destroy()] may be tried again unless the session was destroyed
    meanwhile.  When the request succeeds the session is destroyed, emits
    [SESSION_DESTROYED], and any later [destroy()] rejects with 'session
    already destroyed'. *)
Theorem destroy_failure_rethrows (w : World) (a : nat) (s : Session) :
  sessions w !! a = Some s ->
  _destroying s = false ->
  _destroyed s = false ->
  let w1 := (Session_destroy_begin a w).2 in
  (Session_destroy_begin a w).1 = Return tt /\
  w1 = upd_session a (set_destroying true) w /\
  sessions w1 !! a = Some (set_destroying true s) /\
  Session_destroy_begin a w1 = (Throw (Error "destroying already in progress"), w1) /\
  (forall error, Session_destroy_resume a (Rejected error) w1 = (Rejected error, w)) /\
  (forall w2 s2 error,
     sessions w2 !! a = Some s2 ->
     let r := Session_destroy_resume a (Rejected error) w2 in
     r.1 = Rejected error /\
     r.2 = upd_session a (set_destroying false) w2 /\
     sessions r.2 !! a = Some (set_destroying false s2) /\
     (_destroyed s2 = false -> (Session_destroy_begin a r.2).1 = Return tt)) /\
  (forall w2 s2 v,
     sessions w2 !! a = Some s2 ->
     _destroyed s2 = false ->
     let r := Session_destroy_resume a (Fulfilled v) w2 in
     r.1 = Fulfilled JUndefined /\
     (exists s', sessions r.2 !! a = Some s' /\
                 _destroying s' = false /\ _destroyed s' = true /\ _ka_task s' = None) /\
     (exists rest,
        emitted r.2 = emitted w2 ++
                      mkEmitted (RSession a) SESSION_DESTROYED (id_payload (s_id s2)) :: rest /\
        Forall child_event rest) /\
     Session_destroy_begin a r.2 = (Throw (Error "session already destroyed"), r.2)).
Proof.
  intros Hs Hing Hed w1.
  assert (Hb : Session_destroy_begin a w = (Return tt, upd_session a (set_destroying true) w)).
  { unfold Session_destroy_begin. by rewrite Hs, Hing, Hed. }
  subst w1. rewrite Hb. cbn [fst snd].
  assert (H1 : sessions (upd_session a (set_destroying true) w) !! a
               = Some (set_destroying true s)).
  { simpl. by rewrite lookup_alter_eq, Hs. }
  split; [done|]. split; [done|]. split; [done|]. split.
  { unfold Session_destroy_begin. by rewrite H1. }
  split; [|split].
  - intros error. unfold Session_destroy_resume. f_equal.
    apply (upd_session_undo a _ _ s); [done|].
    destruct s; simpl in *. by subst.
  - intros w2 s2 error Hs2. cbn [Session_destroy_resume fst snd].
    assert (H2 : sessions (upd_session a (set_destroying false) w2) !! a
                 = Some (set_destroying false s2)).
    { simpl. by rewrite lookup_alter_eq, Hs2. }
    split; [done|]. split; [done|]. split; [done|].
    intros Hd2. unfold Session_destroy_begin. rewrite H2. simpl. by rewrite Hd2.
  - intros w2 s2 v Hs2 Hd2. unfold Session_destroy_resume. cbn [fst snd].
    destruct (Session_signalDestroy_effect a s2 w2 Hs2 Hd2) as (Hcore & Hem & _).
    destruct (sessions (Session_signalDestroy a w2) !! a) as [s'|] eqn:Es'; [|done].
    simpl in Hcore. injection Hcore as Hi Hg Hd Hk.
    split; [done|]. split; [by exists s'|]. split; [exact Hem|].
    unfold Session_destroy_begin. by rewrite Es', Hg, Hd.
Qed.

Lemma destroy_failure_rethrows_witness :
  let w1 := (Session_destroy_begin 0 demo_world).2 in
  Session_destroy_resume 0 (Rejected (Error "458 No such session")) w1
    = (Rejected (Error "458 No such session"), demo_world) /\
  Session_destroy_begin 0 w1 = (Throw (Error "destroying already in progress"), w1).
Proof.
  intros w1.
  destruct (destroy_failure_rethrows demo_world 0 demo_session)
    as (_ & _ & _ & H1 & H2 & _); try reflexivity.
  split; [apply H2|exact H1].
Defined.


(** ** Detaching a handle, destroying a session *)

Lemma fold_handle_listeners_frame id ls w :
  let w' := fold_left (run_handle_listener id) ls w in
  handles w' = handles w /\ _tm w' = _tm w /\ emitted w' = emitted w /\
  connection w' = connection w.
Proof.
  revert w. induction ls as [|[s] ls IH]; intros w; simpl; [done|].
  destruct (IH (upd_session s (session_forget_handle id) w)) as (H1 & H2 & H3 & H4).
  by rewrite H1, H2, H3, H4.
Qed.

Lemma Handle_signalDetach_effect ha h w :
  handles w !! ha = Some h ->
  _detached h = false ->
  let w' := Handle_signalDetach ha w in
  _tm w' = closeAllTransactionsWithError (Some (handle_owner ha h))
             (Error "handle detached") (_tm w) /\
  emitted w' = emitted w ++ [mkEmitted (RHandle ha) HANDLE_DETACHED (id_payload (h_id h))] /\
  handles w' !! ha = Some (mkHandle (h_id h) (h_session h) false true []) /\
  (forall x, x <> ha -> handles w' !! x = handles w !! x) /\
  connection w' = connection w.
Proof.
  intros Hh Hd w'. subst w'. unfold Handle_signalDetach. rewrite Hh, Hd. cbv zeta.
  match goal with
  | |- context [fold_left (run_handle_listener ?id) ?ls ?w0] =>
      destruct (fold_handle_listeners_frame id ls w0) as (F1 & F2 & F3 & F4);
      remember (fold_left (run_handle_listener id) ls w0) as w1 eqn:E; clear E
  end.
  cbn [upd_handle _tm emitted handles connection].
  rewrite F1, F2, F3, F4. cbn.
  split; [done|]. split; [done|]. split.
  - rewrite !lookup_alter_eq, Hh. done.
  - split; [|done]. intros x Hx. by rewrite !lookup_alter_ne.
Qed.

Lemma selected_owner_ref r id tx :
  selected (Some (mkOwner r id)) tx = bool_decide (owner_ref (tx_owner tx) = r).
Proof. done. Qed.

(** What [closeAllTransactionsWithError(owner, error)] does for an owner,
    in terms of membership. *)
Lemma closeAll_owner_effect r id err tm :
  tm_wf tm ->
  let tm' := closeAllTransactionsWithError (Some (mkOwner r id)) err tm in
  tm_wf tm' /\
  (forall k tx, (k, tx) ∈ transactions tm' <->
                (k, tx) ∈ transactions tm /\ ~ owned_by r tx) /\
  (forall k tx, (k, tx) ∈ transactions tm -> owned_by r tx ->
                failed_with err tx ∈ calls tm') /\
  (forall c, c ∈ calls tm -> c ∈ calls tm').
Proof.
  intros Hwf tm'. subst tm'.
  destruct (closeAll_loop_state [] (transactions tm) (Some (mkOwner r id)) err tm Hwf eq_refl)
    as [Ht _].
  assert (Hc : calls (closeAllTransactionsWithError (Some (mkOwner r id)) err tm) =
               calls tm ++ (failed_with err <$>
                 filter (fun tx => selected (Some (mkOwner r id)) tx = true)
                        ((transactions tm).*2))).
  { apply closeAll_loop_calls; [apply Hwf|].
    intros k tx Hin. split; [by apply tm_get_elem|].
    by destruct (wf_entry _ Hwf _ _ Hin) as (? & _). }
  split; [by apply tm_wf_closeAll_loop|]. split; [|split].
  - intros k tx. unfold closeAllTransactionsWithError. rewrite Ht. simpl.
    rewrite list_elem_of_filter. cbn [snd]. rewrite same_owner_false.
    unfold owned_by. simpl. tauto.
  - intros k tx Hin Ho. rewrite Hc. apply elem_of_app. right.
    apply list_elem_of_fmap. exists tx. split; [done|].
    apply list_elem_of_filter. split.
    + cbv beta. rewrite selected_owner_ref. by apply bool_decide_eq_true_2.
    + apply list_elem_of_fmap. by exists (k, tx).
  - intros c Hin. rewrite Hc. apply elem_of_app. by left.
Qed.

(** X17. [_signalDetach()] on a handle that is not detached, the manager
    being well formed: the handle becomes detached (and is no longer
    detaching); every pending transaction of the handle, and no other, is
    removed and failed with 'handle detached'; the handle emits
    [HANDLE_DETACHED] with its id, and nothing else is emitted; the other
    handles and the connection are untouched; and the session that attached
    the handle forgets it. *)
Theorem signalDetach_fails_the_handles_requests
    (w : World) (ha : nat) (h : Handle) (s : Session) :
  tm_wf (_tm w) ->
  handles w !! ha = Some h ->
  _detached h = false ->
  h_onDetached h = [SessionForgetsHandle (h_session h)] ->
  sessions w !! h_session h = Some s ->
  let w' := Handle_signalDetach ha w in
  handles w' !! ha = Some (mkHandle (h_id h) (h_session h) false true []) /\
  (forall k tx, (k, tx) ∈ transactions (_tm w') <->
                (k, tx) ∈ transactions (_tm w) /\ ~ owned_by (RHandle ha) tx) /\
  calls (_tm w') =
    calls (_tm w) ++
    (failed_with (Error "handle detached") <$>
       filter (fun tx => selected (Some (handle_owner ha h)) tx = true)
              ((transactions (_tm w)).*2)) /\
  emitted w' = emitted w ++ [mkEmitted (RHandle ha) HANDLE_DETACHED (id_payload (h_id h))] /\
  (forall x, x <> ha -> handles w' !! x = handles w !! x) /\
  connection w' = connection w /\
  (exists s', sessions w' !! h_session h = Some s' /\
              _handles s' !! h_id h = None /\
              s_maxListeners s' = s_maxListeners s - 1 /\
              HandleDetaches ha ∉ s_onDestroyed s').
Proof.
  intros Hwf Hh Hd Hl Hs w'.
  destruct (Handle_signalDetach_effect ha h w Hh Hd) as (E1 & E2 & E3 & E4 & E5).
  fold w' in E1, E2, E3, E4, E5.
  destruct (closeAll_owner_effect (RHandle ha) (h_id h) (Error "handle detached") (_tm w) Hwf)
    as (_ & T1 & _ & _).
  split; [done|]. split; [by rewrite E1|]. split.
  { rewrite E1. apply closeAll_loop_calls; [apply Hwf|].
    intros k tx Hin. split; [by apply tm_get_elem|].
    by destruct (wf_entry _ Hwf _ _ Hin) as (? & _). }
  split; [done|]. split; [done|]. split; [done|].
  subst w'. unfold Handle_signalDetach. rewrite Hh, Hd, Hl. cbn.
  rewrite lookup_alter_eq, lookup_alter_eq, Hs. cbn.
  eexists. split; [reflexivity|]. cbn. split; [apply lookup_delete_eq|]. split; [done|].
  intros Hin. apply list_elem_of_filter in Hin as [Hne _]. done.
Qed.

Lemma signalDetach_fails_the_handles_requests_witness :
  let w' := Handle_signalDetach 1 demo_world in
  calls (_tm w') = [mkCall 2 (Reject 2) (Failure (Error "handle detached"));
                    mkCall 3 (Reject 3) (Failure (Error "handle detached"))] /\
  emitted w' = [mkEmitted (RHandle 1) HANDLE_DETACHED (id_payload 7)] /\
  exists s', sessions w' !! 0%nat = Some s' /\ _handles s' !! 7 = None.
Proof.
  intros w'.
  destruct (signalDetach_fails_the_handles_requests demo_world 1 demo_handle_object
              demo_session) as (_ & _ & H1 & H2 & _ & _ & s' & H3 & H4 & _);
    try reflexivity.
  - apply (tm_wf_run demo_requests), tm_wf_new.
  - split; [exact H1|]. split; [exact H2|]. exists s'. by split.
Defined.

(** *** The handles of a destroyed session *)

Lemma closeAll_loop_shrinks entries owner err tm x :
  x ∈ transactions (closeAll_loop entries owner err tm) -> x ∈ transactions tm.
Proof.
  revert tm. induction entries as [|[k ptx] rest IH]; intros tm; simpl; [done|].
  intros H. apply IH in H.
  destruct (Map_has k (transactions tm) && selected owner ptx); [|done].
  rewrite closeTransactionWithError_spec in H.
  destruct (tm_get (tx_id ptx) tm) as [tx|]; [|done].
  destruct (same_owner (tx_owner tx) (tx_owner ptx)); [|done].
  unfold close_effect in H. simpl in H. rewrite tm_delete_spec in H.
  destruct (String.eqb (tx_id ptx) "").
  - by destruct (tx_timeout tx).
  - simpl in H. apply Map_delete_subset in H. by destruct (tx_timeout tx).
Qed.

Lemma closeAll_loop_keeps_calls entries owner err tm c :
  c ∈ calls tm -> c ∈ calls (closeAll_loop entries owner err tm).
Proof.
  revert tm. induction entries as [|[k ptx] rest IH]; intros tm; simpl; [done|].
  intros H. apply IH.
  destruct (Map_has k (transactions tm) && selected owner ptx); [|done].
  rewrite closeTransactionWithError_spec.
  destruct (tm_get (tx_id ptx) tm) as [tx|]; [|done].
  destruct (same_owner (tx_owner tx) (tx_owner ptx)); [|done].
  unfold close_effect, invoke. simpl. apply elem_of_app. left.
  unfold tm_delete. destruct (String.eqb (tx_id ptx) ""); [by destruct (tx_timeout tx)|].
  destruct (negb _); by destruct (tx_timeout tx).
Qed.

Lemma detached_in_Handle_signalDetach ha h torn x w :
  detached_in ha h torn w -> detached_in ha h torn (Handle_signalDetach x w).
Proof.
  intros [(h' & Hh & Hd & Hg) Hev Hgone Hfailed Hwf].
  destruct (handles w !! x) as [hx|] eqn:Ex;
    [|unfold Handle_signalDetach; rewrite Ex; by split; [exists h'|..]].
  destruct (_detached hx) eqn:Edx;
    [unfold Handle_signalDetach; rewrite Ex, Edx; by split; [exists h'|..]|].
  destruct (Handle_signalDetach_effect x hx w Ex Edx) as (E1 & E2 & E3 & E4 & E5).
  assert (Hne : x <> ha) by (intros ->; congruence).
  split.
  - exists h'. by rewrite E4.
  - rewrite E2. apply elem_of_app. by left.
  - intros k tx Hin. rewrite E1 in Hin. apply closeAll_loop_shrinks in Hin. eauto.
  - intros k tx Hin Ho. rewrite E1. apply closeAll_loop_keeps_calls. eauto.
  - rewrite E1. by apply tm_wf_closeAll_loop.
Qed.

Lemma detached_in_fold ha h torn id ls w :
  detached_in ha h torn w ->
  detached_in ha h torn (fold_left (run_session_listener id) ls w).
Proof.
  revert w. induction ls as [|l ls IH]; intros w H; simpl; [done|].
  apply IH. destruct l as [|x]; simpl.
  - destruct H as [? ? ? ? ?]. by split.
  - by apply detached_in_Handle_signalDetach.
Qed.

Lemma detaches_in_fold ha h id ls w :
  tm_wf (_tm w) ->
  handles w !! ha = Some h ->
  _detached h = false ->
  HandleDetaches ha ∈ ls ->
  detached_in ha h (transactions (_tm w)) (fold_left (run_session_listener id) ls w).
Proof.
  revert w. induction ls as [|l ls IH]; intros w Hwf Hh Hd Hin.
  - by apply elem_of_nil in Hin.
  - simpl. destruct (decide (l = HandleDetaches ha)) as [->|Hne].
    + apply detached_in_fold. simpl.
      destruct (Handle_signalDetach_effect ha h w Hh Hd) as (E1 & E2 & E3 & E4 & E5).
      destruct (closeAll_owner_effect (RHandle ha) (h_id h) (Error "handle detached")
                  (_tm w) Hwf) as (T0 & T1 & T2 & T3).
      split.
      * eexists. by split.
      * rewrite E2. apply elem_of_app. right. by apply list_elem_of_singleton.
      * intros k tx Hk. rewrite E1 in Hk. by apply T1 in Hk as [_ ?].
      * intros k tx Hk Ho. rewrite E1. by apply (T2 k).
      * by rewrite E1.
    + apply elem_of_cons in Hin as [Heq|Hin]; [congruence|].
      destruct l as [|x]; simpl.
      * by apply (IH (upd_connection _ w)).
      * assert (Hx : x <> ha) by congruence.
        destruct (handles w !! x) as [hx|] eqn:Ex;
          [|unfold Handle_signalDetach; rewrite Ex; by apply IH].
        destruct (_detached hx) eqn:Edx;
          [unfold Handle_signalDetach; rewrite Ex, Edx; by apply IH|].
        destruct (Handle_signalDetach_effect x hx w Ex Edx) as (E1 & E2 & E3 & E4 & E5).
        destruct (closeAll_owner_effect (RHandle x) (h_id hx) (Error "handle detached")
                    (_tm w) Hwf) as (T0 & T1 & T2 & T3).
        assert (IH' := IH (Handle_signalDetach x w)).
        rewrite E1 in IH'. specialize (IH' T0).
        rewrite E4 in IH' by done. specialize (IH' Hh Hd Hin).
        destruct IH' as [I1 I2 I3 I4 I5]. split; try done.
        intros k tx Hk Ho. apply (I4 k); [|done].
        apply T1. split; [done|]. unfold owned_by in *. congruence.
Qed.

Lemma Handle_signalDetach_monotone x w :
  let w' := Handle_signalDetach x w in
  (forall c, c ∈ calls (_tm w) -> c ∈ calls (_tm w')) /\
  (forall e, e ∈ transactions (_tm w') -> e ∈ transactions (_tm w)).
Proof.
  destruct (handles w !! x) as [hx|] eqn:Ex;
    [|unfold Handle_signalDetach; by rewrite Ex].
  destruct (_detached hx) eqn:Edx;
    [unfold Handle_signalDetach; by rewrite Ex, Edx|].
  destruct (Handle_signalDetach_effect x hx w Ex Edx) as (E1 & _).
  cbv zeta. rewrite E1. split.
  - intros c. apply closeAll_loop_keeps_calls.
  - intros e. apply closeAll_loop_shrinks.
Qed.

Lemma fold_session_listeners_monotone id ls w :
  let w' := fold_left (run_session_listener id) ls w in
  (forall c, c ∈ calls (_tm w) -> c ∈ calls (_tm w')) /\
  (forall e, e ∈ transactions (_tm w') -> e ∈ transactions (_tm w)).
Proof.
  revert w. induction ls as [|l ls IH]; intros w; simpl; [done|].
  destruct (IH (run_session_listener id w l)) as [I1 I2].
  destruct l as [|x]; simpl in *; [done|].
  destruct (Handle_signalDetach_monotone x w) as [M1 M2].
  split; auto.
Qed.

(** X18. Destroying a session tears down its handles.  When
    [_signalDestroy()] runs on a session that is not destroyed (the manager
    being well formed), every pending transaction of the session is failed
    with 'session destroyed'; and each handle that listens for the
    destruction of the session and is not detached becomes detached, emits
    [HANDLE_DETACHED], and has every pending transaction of its own failed
    with 'handle detached'.  Afterwards the manager holds no transaction of
    the session or of such a handle. *)
Theorem signalDestroy_detaches_the_handles
    (w : World) (a : nat) (s : Session) (ha : nat) (h : Handle) :
  tm_wf (_tm w) ->
  sessions w !! a = Some s ->
  _destroyed s = false ->
  HandleDetaches ha ∈ s_onDestroyed s ->
  handles w !! ha = Some h ->
  _detached h = false ->
  let w' := Session_signalDestroy a w in
  (exists h', handles w' !! ha = Some h' /\ _detached h' = true /\ _detaching h' = false) /\
  mkEmitted (RHandle ha) HANDLE_DETACHED (id_payload (h_id h)) ∈ emitted w' /\
  (forall k tx, (k, tx) ∈ transactions (_tm w) ->
     (owned_by (RSession a) tx ->
      failed_with (Error "session destroyed") tx ∈ calls (_tm w')) /\
     (owned_by (RHandle ha) tx ->
      failed_with (Error "handle detached") tx ∈ calls (_tm w'))) /\
  (forall k tx, (k, tx) ∈ transactions (_tm w') ->
     (k, tx) ∈ transactions (_tm w) /\
     ~ owned_by (RSession a) tx /\ ~ owned_by (RHandle ha) tx).
Proof.
  intros Hwf Hs Hd Hl Hh Hdh w'. subst w'.
  unfold Session_signalDestroy. rewrite Hs, Hd. cbv zeta.
  destruct (closeAll_owner_effect (RSession a) (s_id s) (Error "session destroyed")
              (_tm w) Hwf) as (T0 & T1 & T2 & T3).
  match goal with
  | |- context [fold_left (run_session_listener ?id) ?ls ?w0] =>
      pose proof (detaches_in_fold ha h id ls w0) as Hfold;
      pose proof (fold_session_listeners_monotone id ls w0) as [M1 M2];
      remember w0 as w6 eqn:E6;
      remember (fold_left (run_session_listener id) ls w6) as w7 eqn:E7; clear E7
  end.
  assert (Htm6 : _tm w6 = closeAllTransactionsWithError (Some (session_owner a s))
                            (Error "session destroyed") (_tm w)) by (by subst w6).
  assert (Hh6 : handles w6 !! ha = Some h) by (by subst w6).
  rewrite Htm6 in Hfold. specialize (Hfold T0 Hh6 Hdh Hl).
  destruct Hfold as [F1 F2 F3 F4 F5].
  cbn [upd_session handles emitted _tm].
  split; [done|]. split; [done|]. split.
  - intros k tx Hin. split.
    + intros Ho. apply M1. rewrite Htm6. by apply (T2 k).
    + intros Ho. apply (F4 k); [|done]. apply T1. split; [done|].
      unfold owned_by in *. congruence.
  - intros k tx Hin.
    assert (Hin6 : (k, tx) ∈ transactions (_tm w6)) by (by apply M2).
    rewrite Htm6 in Hin6. apply T1 in Hin6 as [? ?].
    split; [done|]. split; [done|]. by apply (F3 k).
Qed.

Lemma signalDestroy_detaches_the_handles_witness :
  let w' := Session_signalDestroy 0 demo_world in
  (exists h', handles w' !! 1%nat = Some h' /\ _detached h' = true /\ _detaching h' = false) /\
  mkEmitted (RHandle 1) HANDLE_DETACHED (id_payload 7) ∈ emitted w' /\
  calls (_tm w') =
    [mkCall 1 (Reject 1) (Failure (Error "session destroyed"));
     mkCall 2 (Reject 2) (Failure (Error "handle detached"));
     mkCall 3 (Reject 3) (Failure (Error "handle detached"))].
Proof.
  intros w'.
  destruct (signalDestroy_detaches_the_handles demo_world 0 demo_session 1 demo_handle_object)
    as (H1 & H2 & _); try reflexivity.
  - apply (tm_wf_run demo_requests), tm_wf_new.
  - right. left.
  - split; [exact H1|]. split; [exact H2|reflexivity].
Defined.

(** ** Attaching and detaching, creating and destroying *)

Lemma filter_out_last {A} `{EqDecision A} (l : list A) (a : A) :
  a ∉ l -> filter (fun x => x <> a) (l ++ [a]) = l.
Proof.
  intros Hn. rewrite filter_app.
  rewrite (filter_cons_False _ a) by (intros H; by apply H).
  rewrite filter_nil, app_nil_r.
  induction l as [|x l IH]; [done|].
  apply not_elem_of_cons in Hn as [Hne Hn].
  rewrite filter_cons_True by done. by rewrite IH.
Qed.

Lemma closeAll_loop_none entries owner err tm :
  (forall k tx, (k, tx) ∈ entries -> selected owner tx = false) ->
  closeAll_loop entries owner err tm = tm.
Proof.
  revert tm. induction entries as [|[k tx] rest IH]; intros tm H; simpl; [done|].
  rewrite (H k tx) by left. rewrite andb_false_r. apply IH.
  intros k' tx' Hin. apply (H k'). by right.
Qed.

Lemma closeAll_nothing_owned r id err tm :
  (forall k tx, (k, tx) ∈ transactions tm -> ~ owned_by r tx) ->
  closeAllTransactionsWithError (Some (mkOwner r id)) err tm = tm.
Proof.
  intros H. apply closeAll_loop_none. intros k tx Hin.
  rewrite selected_owner_ref. apply bool_decide_eq_false_2. by apply (H k).
Qed.

(** X19. Attaching a handle and detaching it again, and creating a
    session and destroying it again, leave no trace in the tables: after
    [attach] and [_signalDetach] the session is exactly as before (handle
    table, listeners, listener limit); after [create] and [_signalDestroy]
    the connection is exactly as before (session table, listeners, listener
    limit).  The manager is untouched, and the only event is
    [HANDLE_DETACHED], respectively [SESSION_DESTROYED]. *)
Theorem attach_detach_and_create_destroy_balance (w : World) :
  (forall (a : nat) (s : Session) (id : Z),
     sessions w !! a = Some s ->
     _handles s !! id = None ->
     HandleDetaches (next_addr w) ∉ s_onDestroyed s ->
     (forall k tx, (k, tx) ∈ transactions (_tm w) -> ~ owned_by (RHandle (next_addr w)) tx) ->
     let attached := Session_attach_resume a id w in
     let w' := Handle_signalDetach attached.1 attached.2 in
     attached.1 = next_addr w /\
     (exists s1, sessions attached.2 !! a = Some s1 /\ _handles s1 !! id = Some attached.1) /\
     sessions w' = sessions w /\
     connection w' = connection w /\
     _tm w' = _tm w /\
     emitted w' = emitted w ++ [mkEmitted (RHandle attached.1) HANDLE_DETACHED (id_payload id)])
  /\
  (forall (id : Z) (ka_interval : option Z),
     _sessions (connection w) !! id = None ->
     next_addr w ∉ c_onClosed (connection w) ->
     next_addr w ∉ c_onError (connection w) ->
     (forall k tx, (k, tx) ∈ transactions (_tm w) -> ~ owned_by (RSession (next_addr w)) tx) ->
     let created := Connection_create_resume id ka_interval w in
     let w' := Session_signalDestroy created.1 created.2 in
     created.1 = next_addr w /\
     _sessions (connection created.2) !! id = Some created.1 /\
     connection w' = connection w /\
     handles w' = handles w /\
     _tm w' = _tm w /\
     emitted w' = emitted w ++ [mkEmitted (RSession created.1) SESSION_DESTROYED (id_payload id)]).
Proof.
  destruct w as [c tm ss hs em na]. split.
  - intros a s id Hs Hid Hl Htm attached w'. subst w' attached.
    cbn [sessions next_addr _tm] in *.
    unfold Session_attach_resume, new_Handle. cbn.
    split; [done|]. split.
    { eexists. split; [by rewrite !lookup_alter_eq, Hs|]. cbn. apply lookup_insert_eq. }
    unfold Handle_signalDetach. cbn. rewrite lookup_alter_eq, lookup_insert_eq. cbn.
    rewrite (closeAll_nothing_owned (RHandle na) id _ tm Htm).
    split; [|done].
    apply map_eq. intros x. destruct (decide (x = a)) as [->|Hne].
    + rewrite !lookup_alter_eq, Hs. cbn. f_equal.
      destruct s as [sid d1 d2 hmap ka ls ml]. cbn in *.
      unfold session_forget_handle, session_removeListener, session_set_handle,
        session_on_destroyed, session_more_listeners. cbn. f_equal.
      * rewrite delete_insert_eq. by apply delete_id.
      * by apply filter_out_last.
      * lia.
    + by rewrite !lookup_alter_ne.
  - intros id ka Hid Hc He Htm created w'. subst w' created.
    cbn [connection next_addr _tm] in *.
    unfold Connection_create_resume, new_Session. cbn.
    split; [done|]. split; [apply lookup_insert_eq|].
    unfold Session_signalDestroy. cbn. rewrite lookup_alter_eq, lookup_insert_eq. cbn.
    rewrite (closeAll_nothing_owned (RSession na) id _ tm Htm).
    split; [|done].
    destruct c as [addr cid l sm lc le ml]. cbn in *.
    unfold connection_forget_session, connection_removeListeners, connection_set_session,
      connection_once_closed_error, connection_more_listeners. cbn. f_equal.
    + rewrite delete_insert_eq. by apply delete_id.
    + by apply filter_out_last.
    + by apply filter_out_last.
    + lia.
Qed.

Lemma attach_detach_and_create_destroy_balance_witness :
  let attached := Session_attach_resume 0 8 demo_world in
  let w' := Handle_signalDetach attached.1 attached.2 in
  sessions w' = sessions demo_world /\
  let created := Connection_create_resume 43 None demo_world in
  connection (Session_signalDestroy created.1 created.2) = connection demo_world.
Proof.
  destruct (attach_detach_and_create_destroy_balance demo_world) as [HA HC].
  split.
  - destruct (HA 0%nat demo_session 8) as (_ & _ & H & _); [reflexivity|reflexivity|..|exact H].
    + intros Hin. repeat (apply elem_of_cons in Hin as [Hin|Hin]; [discriminate|]).
      by apply elem_of_nil in Hin.
    + intros k tx Hin Ho.
      repeat (apply elem_of_cons in Hin as [Hin|Hin]; [injection Hin as -> ->; discriminate|]).
      by apply elem_of_nil in Hin.
  - destruct (HC 43 None) as (_ & _ & H & _); [reflexivity|..|exact H].
    + intros Hin. repeat (apply elem_of_cons in Hin as [Hin|Hin]; [discriminate|]).
      by apply elem_of_nil in Hin.
    + intros Hin. repeat (apply elem_of_cons in Hin as [Hin|Hin]; [discriminate|]).
      by apply elem_of_nil in Hin.
    + intros k tx Hin Ho.
      repeat (apply elem_of_cons in Hin as [Hin|Hin]; [injection Hin as -> ->; discriminate|]).
      by apply elem_of_nil in Hin.
Defined.

(** ** Messages that settle nothing *)

Lemma answer_kind m :
  isAckData m || isResponseData m = true ->
  exists j, prop "janus" m = JStr j /\
            (j = "ack" \/ j = "success" \/ j = "server_info" \/ j = "error").
Proof.
  unfold isAckData, isResponseData, JANUS_ACK, JANUS_RESPONSE.
  destruct (prop "janus" m) as [| | | |j|]; simpl; try done.
  intros H. exists j. split; [done|].
  destruct (String.eqb_spec j "ack"); [by left|].
  destruct (String.eqb_spec j "success"); [by right; left|].
  destruct (String.eqb_spec j "server_info"); [by right; right; left|].
  destruct (String.eqb_spec j "error"); [by right; right; right|done].
Qed.

Lemma with_tm_same w : with_tm (_tm w) w = w.
Proof. by destruct w. Qed.

Lemma Handle_ignores_unknown_transaction w a m :
  tm_get (transaction_id (prop "transaction" m)) (_tm w) = None ->
  isAckData m || isResponseData m = true ->
  Handle_handleMessage a m w = (Return tt, w).
Proof.
  intros Hg Hk. destruct (answer_kind m Hk) as (j & Hj & Hcases).
  unfold Handle_handleMessage. destruct (handles w !! a) as [h|]; [|done].
  unfold ownsTransaction. rewrite getTransactionOwner_spec, Hg. simpl.
  rewrite andb_false_r. simpl.
  unfold Handle_dispatch. rewrite Hj.
  destruct Hcases as [-> | [-> | [-> | ->]]]; reflexivity.
Qed.

Lemma Session_ignores_unknown_transaction w a m :
  tm_get (transaction_id (prop "transaction" m)) (_tm w) = None ->
  isAckData m || isResponseData m = true ->
  Session_handleMessage a m w = (Return tt, w).
Proof.
  intros Hg Hk. destruct (answer_kind m Hk) as (j & Hj & Hcases).
  unfold Session_handleMessage. destruct (sessions w !! a) as [s|]; [|done].
  destruct (truthy (prop "sender" m)).
  - destruct (table_get _ _); [|done]. by apply Handle_ignores_unknown_transaction.
  - unfold owning_handle, not_owned_by. rewrite getTransactionOwner_spec, Hg. simpl.
    destruct (truthy (prop "transaction" m)); [done|].
    unfold isTimeoutData. rewrite Hj.
    destruct Hcases as [-> | [-> | [-> | ->]]]; reflexivity.
Qed.

(** X20. An answer for a transaction that is not pending is dropped.  A
    message whose [janus] is [ack], [success], [server_info] or [error] and
    whose [transaction] is not in the table (it never was, it has been
    closed already, or it timed out) changes nothing, whatever session and
    sender it names: no continuation is called, no event is emitted, no
    exception escapes.  The members that the log lines on the way print
    ([transaction], [session_id], [sender]) are taken to have a string
    form. *)
Theorem answer_without_pending_transaction_is_dropped (w : World) (m : JanusMessage) :
  tm_get (transaction_id (prop "transaction" m)) (_tm w) = None ->
  isAckData m || isResponseData m = true ->
  has_string_form (prop "transaction" m) ->
  has_string_form (prop "session_id" m) ->
  has_string_form (prop "sender" m) ->
  Connection_handleMessage m w = (Return None, w) /\
  (forall a, Session_handleMessage a m w = (Return tt, w)) /\
  (forall a, Handle_handleMessage a m w = (Return tt, w)).
Proof.
  intros Hg Hk _ _ _.
  split; [|split; intros a;
           [by apply Session_ignores_unknown_transaction
           |by apply Handle_ignores_unknown_transaction]].
  unfold Connection_handleMessage.
  destruct (truthy (prop "session_id" m) && _) eqn:E.
  - destruct (table_get _ _) as [a|]; [|done].
    by rewrite Session_ignores_unknown_transaction.
  - clear E. unfold not_owned_by. rewrite getTransactionOwner_spec, Hg. simpl.
    by destruct (truthy (prop "transaction" m)).
Qed.

Lemma answer_without_pending_transaction_is_dropped_witness :
  let w' := (Connection_handleMessage demo_ack demo_world).2 in
  calls (_tm w') = [mkCall 3 (Resolve 3) (Data (JObj demo_ack))] /\
  Connection_handleMessage demo_ack w' = (Return None, w').
Proof.
  intros w'. split; [reflexivity|].
  apply (answer_without_pending_transaction_is_dropped w' demo_ack);
    first [reflexivity | discriminate].
Defined.

(** ** Events directed to a handle *)

Lemma copy_field_elem name m k v :
  (k, v) ∈ copy_field name m <-> k = name /\ v = prop name m /\ v <> JUndefined.
Proof.
  unfold copy_field. destruct (prop name m) eqn:E; simpl;
    rewrite ?list_elem_of_singleton; split;
    try (intros [= -> ->]; by rewrite ?E);
    try (intros (-> & -> & ?); done);
    try (intros H; by apply elem_of_nil in H).
Qed.

(** X21. The events that a handle only reports: [ice-failed], [hangup],
    [media], [webrtcup] and [slowlink].  Such a message makes the handle
    emit the one corresponding event, whose payload holds exactly the
    members the code lists for it that are defined in the message, with
    their values; nothing else happens: no transaction is closed, even when
    the message carries the id of a pending transaction of the handle, and
    no object changes.  The [transaction] of the message, which a log line
    prints, is taken to have a string form. *)
Theorem handle_reports_events_without_settling
    (w : World) (a : nat) (h : Handle) (m : JanusMessage)
    (j name : string) (fields : list string) :
  handles w !! a = Some h ->
  prop "janus" m = JStr j ->
  reported_event j = Some (name, fields) ->
  has_string_form (prop "transaction" m) ->
  let payload := flat_map (fun f => copy_field f m) fields in
  Handle_handleMessage a m w = (Return tt, emit (RHandle a) name (Data (JObj payload)) w) /\
  (forall k v, (k, v) ∈ payload <-> k ∈ fields /\ v = prop k m /\ v <> JUndefined) /\
  _tm (Handle_handleMessage a m w).2 = _tm w /\
  handles (Handle_handleMessage a m w).2 = handles w /\
  sessions (Handle_handleMessage a m w).2 = sessions w.
Proof.
  intros Hh Hj Hr _ payload.
  assert (H1 : Handle_handleMessage a m w
               = (Return tt, emit (RHandle a) name (Data (JObj payload)) w)).
  { subst payload. unfold Handle_handleMessage. rewrite Hh.
    unfold isAckData, isResponseData, JANUS_ACK, JANUS_RESPONSE. rewrite Hj.
    unfold reported_event in Hr.
    destruct (String.eqb_spec j "ice-failed") as [->|_];
      [injection Hr as <- <-; simpl; rewrite !andb_false_r;
       unfold Handle_dispatch; rewrite Hj; reflexivity|].
    destruct (String.eqb_spec j "hangup") as [->|_];
      [injection Hr as <- <-; simpl; rewrite !andb_false_r;
       unfold Handle_dispatch; rewrite Hj; simpl; by rewrite !app_nil_r|].
    destruct (String.eqb_spec j "media") as [->|_];
      [injection Hr as <- <-; simpl; rewrite !andb_false_r;
       unfold Handle_dispatch; rewrite Hj; simpl; by rewrite !app_nil_r|].
    destruct (String.eqb_spec j "webrtcup") as [->|_];
      [injection Hr as <- <-; simpl; rewrite !andb_false_r;
       unfold Handle_dispatch; rewrite Hj; reflexivity|].
    destruct (String.eqb_spec j "slowlink") as [->|_];
      [injection Hr as <- <-; simpl; rewrite !andb_false_r;
       unfold Handle_dispatch; rewrite Hj; simpl; by rewrite !app_nil_r|].
    done. }
  split; [exact H1|]. split; [|by rewrite H1].
  intros k v. subst payload. rewrite list_elem_of_In, in_flat_map. split.
  - intros (f & Hf & Hin). apply list_elem_of_In in Hf, Hin.
    apply copy_field_elem in Hin as (-> & -> & Hd). done.
  - intros (Hf & -> & Hd). exists k. split; [by apply list_elem_of_In|].
    apply list_elem_of_In. by apply copy_field_elem.
Qed.

Lemma handle_reports_events_without_settling_witness :
  Handle_handleMessage 1 demo_media demo_world =
    (Return tt,
     emit (RHandle 1) HANDLE_MEDIA
          (Data (JObj [("type", JStr "audio"); ("receiving", JBool true)])) demo_world) /\
  tm_get "T4" (_tm (Handle_handleMessage 1 demo_media demo_world).2) = Some demo_tx4.
Proof.
  destruct (handle_reports_events_without_settling demo_world 1 demo_handle_object demo_media
              "media" HANDLE_MEDIA ["type"; "receiving"; "mid"; "substream"; "seconds"])
    as (H1 & _ & H2 & _); first [reflexivity | discriminate | idtac].
  split; [exact H1|]. by rewrite H2.
Defined.

(** X22. The generic handle does not manage plugin events: an [event]
    message that carries the id of a pending transaction of the handle
    rejects that request with 'unmanaged event'; an [event] without
    transaction changes nothing. *)
Theorem unmanaged_event_rejects_the_request
    (w : World) (a : nat) (h : Handle) (m : JanusMessage) :
  handles w !! a = Some h ->
  prop "janus" m = JStr "event" ->
  (forall id tx,
     prop "transaction" m = JStr id ->
     tm_get id (_tm w) = Some tx ->
     owner_ref (tx_owner tx) = RHandle a ->
     (Handle_handleMessage a m w).1 = Return tt /\
     rejects id tx (Error "unmanaged event") w (Handle_handleMessage a m w).2) /\
  (prop "transaction" m = JUndefined -> Handle_handleMessage a m w = (Return tt, w)).
Proof.
  intros Hh Hj. split.
  - intros id tx Htx Hg Ho.
    unfold Handle_handleMessage. rewrite Hh, Htx.
    unfold isAckData, isResponseData, JANUS_ACK, JANUS_RESPONSE. rewrite Hj.
    simpl. rewrite !andb_false_r.
    unfold Handle_dispatch. rewrite Hj, Htx. simpl.
    unfold Handle_closeTransactionWithError.
    rewrite (closeTransactionWithError_owner id tx) by done.
    split; [done|]. by apply close_effect_settles.
  - intros Htx. unfold Handle_handleMessage. rewrite Hh, Htx.
    unfold isAckData, isResponseData, JANUS_ACK, JANUS_RESPONSE. rewrite Hj.
    simpl. unfold Handle_dispatch. rewrite Hj, Htx. simpl.
    unfold Handle_closeTransactionWithError, closeTransactionWithError. simpl.
    by rewrite with_tm_same.
Qed.

Lemma unmanaged_event_rejects_the_request_witness :
  rejects "T4" demo_tx4 (Error "unmanaged event") demo_world
    (Handle_handleMessage 1 demo_event demo_world).2.
Proof.
  destruct (unmanaged_event_rejects_the_request demo_world 1 demo_handle_object demo_event)
    as [H _]; try reflexivity.
  destruct (H "T4" demo_tx4) as [_ H']; try reflexivity. exact H'.
Defined.

(** ** Malformed and temporary answers *)

Lemma error_flags m :
  prop "janus" m = JStr "error" ->
  isResponseData m = true /\ isErrorData m = true /\ isAckData m = false.
Proof.
  intros Hj. unfold isResponseData, isErrorData, isAckData. by rewrite Hj.
Qed.

Lemma ToString_throws v err : ToString v = Throw err -> err = TypeError.
Proof.
  destruct v as [| | [|] | | |props]; simpl; try done.
  destruct (Map_has "toString" props); congruence.
Qed.

(** When the text of the rejection cannot be built: no [error] member, or
    a code or a reason that has no string form. *)
Lemma response_error_throws m :
  (prop "error" m = JUndefined \/ prop "error" m = JNull \/
   exists e, prop "error" m = JObj e /\
             (ToString (prop "code" e) = Throw TypeError \/
              ToString (prop "reason" e) = Throw TypeError)) <->
  response_error m = Throw TypeError.
Proof.
  unfold response_error. split.
  - intros [-> | [-> | (e & -> & H)]]; [done|done|]. cbn [member].
    destruct (ToString (prop "code" e)) as [c|err] eqn:Ec.
    + destruct H as [H|H]; [done|]. by rewrite H.
    + by rewrite (ToString_throws _ _ Ec).
  - destruct (prop "error" m) as [| | | | |e]; cbn [member]; simpl; try done.
    + by left.
    + by right; left.
    + intros H. right. right. exists e. split; [done|].
      destruct (ToString (prop "code" e)) as [c|err] eqn:Ec.
      * destruct (ToString (prop "reason" e)) as [r|err]; [done|].
        right. by injection H as ->.
      * left. by injection H as ->.
Qed.

(** X23. An [error] response from which the text of the rejection cannot
    be built settles nothing.  When the [error] member is missing, or when
    its code or its reason has no string form, building the [Error] throws
    before the transaction is closed: the request stays pending and the
    state is unchanged.  For a transaction of the connection the exception
    escapes [_handleMessage]; for a transaction of a session or of a handle
    it is caught by the connection. *)
Theorem error_response_without_text_settles_nothing
    (w : World) (id : string) (tx : PendingTransaction) (m : JanusMessage)
    (err : JsError) :
  tm_get id (_tm w) = Some tx ->
  prop "transaction" m = JStr id ->
  prop "janus" m = JStr "error" ->
  response_error m = Throw err ->
  (owner_ref (tx_owner tx) = RConnection (c_addr (connection w)) ->
   truthy (prop "session_id" m)
     && negb (is_admin (_config (c_link (connection w)))) = false ->
   Connection_handleMessage m w = (Throw err, w))
  /\
  (forall a s,
     is_admin (_config (c_link (connection w))) = false ->
     _sessions (connection w) !! s_id s = Some a ->
     sessions w !! a = Some s ->
     owner_ref (tx_owner tx) = RSession a ->
     prop "session_id" m = JNum (s_id s) -> s_id s <> 0 ->
     truthy (prop "sender" m) = false ->
     Session_handleMessage a m w = (Throw err, w) /\
     Connection_handleMessage m w = (Return None, w))
  /\
  (forall a s ha h,
     is_admin (_config (c_link (connection w))) = false ->
     _sessions (connection w) !! s_id s = Some a ->
     sessions w !! a = Some s ->
     _handles s !! h_id h = Some ha ->
     handles w !! ha = Some h ->
     owner_ref (tx_owner tx) = RHandle ha ->
     owner_id (tx_owner tx) = h_id h ->
     prop "session_id" m = JNum (s_id s) -> s_id s <> 0 ->
     prop "sender" m = JNum (h_id h) \/ prop "sender" m = JUndefined ->
     Handle_handleMessage ha m w = (Throw err, w) /\
     Connection_handleMessage m w = (Return None, w)).
Proof.
  intros Hg Htx Hj K4.
  destruct (error_flags m Hj) as (K1 & K2 & K3).
  assert (Hhandle : forall ha h, handles w !! ha = Some h ->
            owner_ref (tx_owner tx) = RHandle ha ->
            Handle_handleMessage ha m w = (Throw err, w)).
  { intros ha h Hh Ho. unfold Handle_handleMessage. rewrite Hh, Htx.
    simpl transaction_id. simpl truthy.
    rewrite (truthy_transaction id _ tx Hg), (ownsTransaction_owner ha id tx w Hg).
    rewrite bool_decide_eq_true_2 by done. cbn [andb].
    by rewrite K3, K1, K2, K4. }
  split; [|split].
  - intros Ho Hsid. unfold Connection_handleMessage. rewrite Hsid, Htx.
    simpl transaction_id. simpl truthy.
    rewrite (truthy_transaction id _ tx Hg), (not_owned_by_owner _ id tx w Hg).
    rewrite bool_decide_eq_true_2 by done. cbn [negb].
    by rewrite K1, K2, K4.
  - intros a s Hadm Hst Hs Ho Hsid Hne Hsender.
    assert (HS : Session_handleMessage a m w = (Throw err, w)).
    { unfold Session_handleMessage. rewrite Hs, Hsender, Htx.
      simpl transaction_id. simpl truthy.
      rewrite (truthy_transaction id _ tx Hg).
      rewrite (owning_handle_other s id tx w Hg) by (intros ha; by rewrite Ho).
      rewrite (not_owned_by_owner _ id tx w Hg).
      rewrite bool_decide_eq_true_2 by done. cbn [negb].
      by rewrite K1, K2, K4. }
    split; [done|].
    rewrite (Connection_routes_to_session w a m (s_id s)) by done. by rewrite HS.
  - intros a s ha h Hadm Hst Hs Hht Hh Ho Hoid Hsid Hne Hsender.
    split; [by apply (Hhandle ha h)|].
    rewrite (Connection_routes_to_session w a m (s_id s)) by done.
    rewrite (Session_routes_to_handle w a s ha h id tx m) by done.
    by rewrite (Hhandle ha h).
Qed.

Lemma error_response_without_text_settles_nothing_witness :
  (Handle_handleMessage 1 demo_bare_error demo_world = (Throw TypeError, demo_world) /\
   Connection_handleMessage demo_bare_error demo_world = (Return None, demo_world)) /\
  (Handle_handleMessage 1 demo_odd_error demo_world = (Throw TypeError, demo_world) /\
   Connection_handleMessage demo_odd_error demo_world = (Return None, demo_world)).
Proof.
  split.
  - refine (proj2 (proj2 (error_response_without_text_settles_nothing demo_world "T4"
                            demo_tx4 demo_bare_error TypeError eq_refl eq_refl eq_refl eq_refl))
              0%nat demo_session 1%nat demo_handle_object _ _ _ _ _ _ _ _ _ _);
      try reflexivity; [discriminate|by left].
  - refine (proj2 (proj2 (error_response_without_text_settles_nothing demo_world "T4"
                            demo_tx4 demo_odd_error TypeError eq_refl eq_refl eq_refl eq_refl))
              0%nat demo_session 1%nat demo_handle_object _ _ _ _ _ _ _ _ _ _);
      try reflexivity; [discriminate|by left].
Defined.

(** X24. The [ack] of a keep-alive settles it.  For a pending transaction
    of a session and an [ack] with its id and no sender: when the recorded
    verb is [keepalive] the session closes it with success, resolving the
    caller with the message; for any other verb of the session (such as
    [destroy]) the [ack] is temporary and nothing changes. *)
Theorem keepalive_ack_resolves
    (w : World) (a : nat) (s : Session) (id : string) (tx : PendingTransaction)
    (m : JanusMessage) :
  sessions w !! a = Some s ->
  tm_get id (_tm w) = Some tx ->
  owner_ref (tx_owner tx) = RSession a ->
  truthy (prop "sender" m) = false ->
  prop "transaction" m = JStr id ->
  prop "janus" m = JStr "ack" ->
  (tx_request tx = "keepalive" ->
   (Session_handleMessage a m w).1 = Return tt /\
   resolves id tx (JObj m) w (Session_handleMessage a m w).2) /\
  (tx_request tx <> "keepalive" -> Session_handleMessage a m w = (Return tt, w)).
Proof.
  intros Hs Hg Ho Hsender Htx Hj.
  unfold Session_handleMessage. rewrite Hs, Hsender, Htx.
  simpl transaction_id. simpl truthy.
  rewrite (truthy_transaction id _ tx Hg).
  rewrite (owning_handle_other s id tx w Hg) by (intros ha; by rewrite Ho).
  rewrite (not_owned_by_owner _ id tx w Hg).
  rewrite bool_decide_eq_true_2 by done. cbn [negb].
  unfold isResponseData, isErrorData, JANUS_RESPONSE. rewrite Hj.
  unfold _isKeepaliveTx. rewrite (is_request_tx_request _ id tx w Hg).
  unfold JANUS_REQUEST_KEEPALIVE. simpl.
  split.
  - intros ->. simpl. unfold Session_closeTransactionWithSuccess.
    rewrite (closeTransactionWithSuccess_owner id tx) by done.
    split; [done|]. by apply close_effect_settles.
  - intros Hne. apply String.eqb_neq in Hne. by rewrite Hne.
Qed.

Lemma keepalive_ack_resolves_witness :
  let ka := mkTx "K1" demo_session_owner "keepalive" (Resolve 7) (Reject 7) None 4 in
  let w := with_tm (createTransaction "K1" demo_session_owner "keepalive" (Resolve 7)
                      (Reject 7) 0 (_tm demo_world)).2 demo_world in
  let m := [("janus", JStr "ack"); ("transaction", JStr "K1"); ("session_id", JNum 42)] in
  resolves "K1" ka (JObj m) w (Session_handleMessage 0 m w).2 /\
  Session_handleMessage 0
    [("janus", JStr "ack"); ("transaction", JStr "T3"); ("session_id", JNum 42)] w
  = (Return tt, w).
Proof.
  intros ka w m. split.
  - destruct (keepalive_ack_resolves w 0 demo_session "K1" ka m) as [H _];
      try reflexivity.
    by destruct H.
  - apply (proj2 (keepalive_ack_resolves w 0 demo_session "T3" demo_tx3
                    [("janus", JStr "ack"); ("transaction", JStr "T3"); ("session_id", JNum 42)]
                    eq_refl eq_refl eq_refl eq_refl eq_refl eq_refl)).
    discriminate.
Defined.

(** ** Decorating a request *)

Lemma prop_Map_set_eq (m : JanodeRequest) k v : prop k (Map_set k v m) = v.
Proof.
  unfold prop. induction m as [|[k' v'] m IH]; simpl.
  - by rewrite String.eqb_refl.
  - destruct (String.eqb_spec k' k) as [->|Hne]; simpl.
    + by rewrite String.eqb_refl.
    + destruct (String.eqb_spec k' k); [done|]. exact IH.
Qed.

Lemma prop_Map_set_ne (m : JanodeRequest) k k' v :
  k' <> k -> prop k' (Map_set k v m) = prop k' m.
Proof.
  intros Hne. unfold prop. induction m as [|[k1 v1] m IH]; simpl.
  - by destruct (String.eqb_spec k k').
  - destruct (String.eqb_spec k1 k) as [->|Hk]; simpl.
    + destruct (String.eqb_spec k k'); [congruence|done].
    + destruct (String.eqb_spec k1 k'); [done|exact IH].
Qed.

Lemma Map_set_same (m : JanodeRequest) k :
  Map_has k m = true -> Map_set k (prop k m) m = m.
Proof.
  unfold prop, Map_has. induction m as [|[k' v'] m IH]; simpl; [done|].
  destruct (String.eqb_spec k' k) as [->|Hne]; [done|].
  intros H. f_equal. by apply IH.
Qed.

Lemma Map_has_Map_set (m : JanodeRequest) k k' v :
  Map_has k' (Map_set k v m) = (String.eqb k k' || Map_has k' m)%bool.
Proof.
  unfold Map_has. induction m as [|[k1 v1] m IH]; simpl.
  - by destruct (String.eqb k k').
  - destruct (String.eqb_spec k1 k) as [->|Hk]; simpl.
    + by destruct (String.eqb k k').
    + destruct (String.eqb_spec k1 k') as [->|Hk'].
      * by rewrite orb_true_r.
      * exact IH.
Qed.

Lemma pretty_N_go_nonempty (x : N) (s : string) : s <> "" -> pretty_N_go x s <> "".
Proof.
  revert s. induction (N.lt_wf_0 x) as [x _ IH]. intros s Hs.
  destruct (decide (x = 0%N)) as [->|Hx].
  - by rewrite pretty_N_go_0.
  - rewrite pretty_N_go_step by lia. apply IH; [|done].
    apply N.div_lt; lia.
Qed.

Lemma pretty_Z_nonempty (n : Z) : 0 <= n -> pretty n <> "".
Proof.
  intros Hn. destruct n as [|p|p]; [done| |lia].
  change (pretty (Z.pos p)) with (pretty (N.pos p)).
  unfold pretty, pretty_N. destruct (decide (N.pos p = 0%N)); [done|].
  rewrite pretty_N_go_step by lia. by apply pretty_N_go_nonempty.
Qed.

Lemma decorate_transaction_spec request next :
  0 <= next < MAX_SAFE_INTEGER ->
  let r := decorate_transaction request next in
  prop "transaction" r.1 =
    (if truthy (prop "transaction" request) then prop "transaction" request
     else JStr (pretty next)) /\
  truthy (prop "transaction" r.1) = true /\
  r.2 = (if truthy (prop "transaction" request) then next
         else (next + 1) mod MAX_SAFE_INTEGER) /\
  (forall k, k <> "transaction" -> prop k r.1 = prop k request).
Proof.
  intros Hn. unfold decorate_transaction.
  destruct (truthy (prop "transaction" request)) eqn:E; cbn [fst snd].
  - rewrite prop_Map_set_eq. split; [done|]. split; [done|]. split; [done|].
    intros k Hk. by apply prop_Map_set_ne.
  - rewrite getNumericID_step by done. cbn [fst snd]. rewrite prop_Map_set_eq.
    split; [done|]. split.
    { simpl. apply negb_true_iff, String.eqb_neq, pretty_Z_nonempty. lia. }
    split; [done|]. intros k Hk. by apply prop_Map_set_ne.
Qed.

Lemma decorate_transaction_again request next :
  truthy (prop "transaction" request) = true ->
  decorate_transaction request next = (request, next).
Proof.
  intros H. unfold decorate_transaction. rewrite H. f_equal.
  apply Map_set_same. unfold Map_has, prop in *.
  by destruct (Map_get "transaction" request).
Qed.

Lemma keep_or_set_prop k v (m : JanodeRequest) :
  prop k (keep_or_set k v m) = if truthy (prop k m) then prop k m else v.
Proof. apply prop_Map_set_eq. Qed.

Lemma keep_or_set_prop_ne k k' v (m : JanodeRequest) :
  k' <> k -> prop k' (keep_or_set k v m) = prop k' m.
Proof. apply prop_Map_set_ne. Qed.

Lemma keep_or_set_has k k' v (m : JanodeRequest) :
  Map_has k' (keep_or_set k v m) = (String.eqb k k' || Map_has k' m)%bool.
Proof. apply Map_has_Map_set. Qed.

Lemma keep_or_set_fixed k v (m : JanodeRequest) :
  Map_has k m = true ->
  truthy (prop k m) = true \/ prop k m = v ->
  keep_or_set k v m = m.
Proof.
  intros Hhas H. unfold keep_or_set.
  destruct (truthy (prop k m)) eqn:E.
  - by apply Map_set_same.
  - destruct H as [H|H]; [done|]. rewrite <- H. by apply Map_set_same.
Qed.

Lemma Map_set_fixed k v (m : JanodeRequest) :
  Map_has k m = true -> prop k m = v -> Map_set k v m = m.
Proof. intros Hhas <-. by apply Map_set_same. Qed.

Lemma kept_or_set v x : truthy (if truthy v then v else x) = true \/
                        (if truthy v then v else x) = x.
Proof. destruct (truthy v) eqn:E; [by left|by right]. Qed.

Local Ltac props :=
  repeat first
    [ rewrite keep_or_set_prop
    | rewrite prop_Map_set_eq
    | rewrite keep_or_set_prop_ne by discriminate
    | rewrite prop_Map_set_ne by discriminate
    | rewrite keep_or_set_has
    | rewrite Map_has_Map_set ].

(** X25. A request sent from a handle is decorated by the handle, by its
    session and by the connection.  Together they give it one transaction:
    the one of the caller when it has one, else a fresh numeric id, taken
    by the handle and kept by the other two, so that the counter is stepped
    once.  [handle_id] and [session_id] are those of the handle and of the
    session unless the caller gave others.  The secret of the current
    address is added under [apisecret] (under [admin_secret] on an admin
    connection, where [apisecret] is left alone) unless the caller gave
    one, whereas a configured token always replaces the token of the
    caller.  No other member is touched.  Decorating the result again
    changes nothing and takes no new id: a request object that is sent a
    second time goes out under the same transaction. *)
Theorem request_is_decorated_once
    (h : Handle) (s : Session) (c : Link) (server : ServerObjectConf)
    (request : JanodeRequest) (next : Z) :
  0 <= next < MAX_SAFE_INTEGER ->
  currElem (_address_iterator c) = Some server ->
  let r := decorated h s c request next in
  let kept name value :=
    if truthy (prop name request) then prop name request else value in
  r.1 = Return tt /\
  prop "transaction" r.2.1 = kept "transaction" (JStr (pretty next)) /\
  truthy (prop "transaction" r.2.1) = true /\
  r.2.2 = (if truthy (prop "transaction" request) then next
           else (next + 1) mod MAX_SAFE_INTEGER) /\
  prop "handle_id" r.2.1 = kept "handle_id" (JNum (h_id h)) /\
  prop "session_id" r.2.1 = kept "session_id" (JNum (s_id s)) /\
  prop "apisecret" r.2.1 =
    (if negb (String.eqb (apisecret server) "") && negb (is_admin (_config c))
     then kept "apisecret" (JStr (apisecret server))
     else prop "apisecret" request) /\
  prop "admin_secret" r.2.1 =
    (if negb (String.eqb (apisecret server) "") && is_admin (_config c)
     then kept "admin_secret" (JStr (apisecret server))
     else prop "admin_secret" request) /\
  prop "token" r.2.1 =
    match token server with
    | Some t => if String.eqb t "" then prop "token" request else JStr t
    | None => prop "token" request
    end /\
  (forall k, k ∉ ["transaction"; "handle_id"; "session_id"; "apisecret";
                  "admin_secret"; "token"] ->
             prop k r.2.1 = prop k request) /\
  decorated h s c r.2.1 r.2.2 = r.
Proof.
  intros Hn Hc r kept.
  destruct (decorate_transaction_spec request next Hn) as (T1 & T2 & T3 & T4).
  set (d := decorate_transaction request next) in *.
  assert (D2 : decorate_transaction
                 (keep_or_set "handle_id" (JNum (h_id h)) d.1) d.2
               = (keep_or_set "handle_id" (JNum (h_id h)) d.1, d.2)).
  { apply decorate_transaction_again. by props. }
  assert (D3 : decorate_transaction
                 (keep_or_set "session_id" (JNum (s_id s))
                    (keep_or_set "handle_id" (JNum (h_id h)) d.1)) d.2
               = (keep_or_set "session_id" (JNum (s_id s))
                    (keep_or_set "handle_id" (JNum (h_id h)) d.1), d.2)).
  { apply decorate_transaction_again. by props. }
  set (q := keep_or_set "session_id" (JNum (s_id s))
              (keep_or_set "handle_id" (JNum (h_id h)) d.1)) in *.
  assert (Hr : r = decorated h s c request next) by done.
  unfold decorated, Handle_decorateRequest, Session_decorateRequest,
    Connection_decorateRequest in Hr.
  fold d in Hr. cbn [fst snd] in Hr. rewrite D2 in Hr. cbn [fst snd] in Hr.
  fold q in Hr. rewrite D3, Hc in Hr. cbn [fst snd] in Hr.
  assert (Hq : forall k, k <> "transaction" -> k <> "handle_id" -> k <> "session_id" ->
                         prop k q = prop k request).
  { intros k H1 H2 H3. subst q.
    rewrite !keep_or_set_prop_ne by done. by apply T4. }
  assert (Hqh : prop "handle_id" q = kept "handle_id" (JNum (h_id h))).
  { subst q kept. props. by rewrite T4. }
  assert (Hqs : prop "session_id" q = kept "session_id" (JNum (s_id s))).
  { subst q kept. props. by rewrite T4. }
  assert (Hqt : prop "transaction" q = prop "transaction" d.1) by (subst q; by props).
  assert (Hhas : Map_has "transaction" q = true /\ Map_has "handle_id" q = true /\
                 Map_has "session_id" q = true).
  { subst q. props. simpl. split; [|done].
    unfold Map_has, prop in *. by destruct (Map_get "transaction" d.1). }
  destruct Hhas as (Ht & Hh & Hs).
  clearbody q d.
  destruct server as [u secret tok]. cbn [apisecret token] in *.
  rewrite Hr. cbn [fst snd].
  split; [done|].
  assert (Hcases :
    forall F,
      F = (match tok with
           | Some t => if negb (String.eqb t "") then Map_set "token" (JStr t)
                       else fun x => x
           | None => fun x => x
           end)
            (if negb (String.eqb secret "") then
               if negb (is_admin (_config c))
               then keep_or_set "apisecret" (JStr secret) q
               else keep_or_set "admin_secret" (JStr secret) q
             else q) ->
      prop "transaction" F = prop "transaction" q /\
      prop "handle_id" F = prop "handle_id" q /\
      prop "session_id" F = prop "session_id" q /\
      Map_has "transaction" F = true /\ Map_has "handle_id" F = true /\
      Map_has "session_id" F = true /\
      prop "apisecret" F =
        (if negb (String.eqb secret "") && negb (is_admin (_config c))
         then kept "apisecret" (JStr secret) else prop "apisecret" request) /\
      prop "admin_secret" F =
        (if negb (String.eqb secret "") && is_admin (_config c)
         then kept "admin_secret" (JStr secret) else prop "admin_secret" request) /\
      prop "token" F =
        match tok with
        | Some t => if String.eqb t "" then prop "token" request else JStr t
        | None => prop "token" request
        end /\
      (forall k, k ∉ ["transaction"; "handle_id"; "session_id"; "apisecret";
                      "admin_secret"; "token"] -> prop k F = prop k request) /\
      (negb (String.eqb secret "") && negb (is_admin (_config c)) = true ->
       Map_has "apisecret" F = true) /\
      (negb (String.eqb secret "") && is_admin (_config c) = true ->
       Map_has "admin_secret" F = true) /\
      (forall t, tok = Some t -> t <> "" -> Map_has "token" F = true)).
  { intros F ->. subst kept.
    assert (Hframe : forall k : string,
              k ∉ ["transaction"; "handle_id"; "session_id"; "apisecret";
                   "admin_secret"; "token"] ->
              k <> "transaction" /\ k <> "handle_id" /\ k <> "session_id" /\
              k <> "apisecret" /\ k <> "admin_secret" /\ k <> "token").
    { intros k Hk. repeat (apply not_elem_of_cons in Hk as [? Hk]). done. }
    destruct tok as [t|]; [destruct (String.eqb_spec t "") as [->|Htk]|];
      destruct (String.eqb_spec secret "") as [->|Hsec];
      destruct (is_admin (_config c)); cbn [negb andb];
      props;
      try rewrite (Hq "apisecret") by discriminate;
      try rewrite (Hq "admin_secret") by discriminate;
      try rewrite (Hq "token") by discriminate;
      simpl; rewrite ?orb_true_r;
      repeat split; try done;
      try (intros k Hk; destruct (Hframe k Hk) as (?&?&?&?&?&?);
           rewrite ?prop_Map_set_ne, ?keep_or_set_prop_ne by done; by apply Hq);
      try (intros t' [= <-] ?; done). }
  match goal with |- context [(Return tt, (?F, _))] => set (F0 := F) end.
  destruct (Hcases F0) as (F1 & F2 & F3 & F4 & F5 & F6 & F7 & F8 & F9 & F10 & F11 & F12 & F13).
  { subst F0. by destruct tok as [t|]; [destruct (negb (String.eqb t ""))|]. }
  clearbody F0.
  split; [by rewrite F1, Hqt|]. split; [by rewrite F1, Hqt|].
  split; [done|]. split; [by rewrite F2|]. split; [by rewrite F3|].
  split; [done|]. split; [done|]. split; [done|]. split; [done|].
  (* decorating again *)
  unfold decorated, Handle_decorateRequest, Session_decorateRequest,
    Connection_decorateRequest.
  rewrite (decorate_transaction_again F0) by (by rewrite F1, Hqt).
  cbn [fst snd].
  rewrite (keep_or_set_fixed "handle_id") by
    (first [done | rewrite F2, Hqh; apply kept_or_set]).
  rewrite (decorate_transaction_again F0) by (by rewrite F1, Hqt).
  cbn [fst snd].
  rewrite (keep_or_set_fixed "session_id") by
    (first [done | rewrite F3, Hqs; apply kept_or_set]).
  rewrite (decorate_transaction_again F0) by (by rewrite F1, Hqt).
  rewrite Hc. cbn [fst snd apisecret token].
  do 2 f_equal.
  assert (Hsecret :
    (if negb (String.eqb secret "") then
       if negb (is_admin (_config c))
       then keep_or_set "apisecret" (JStr secret) F0
       else keep_or_set "admin_secret" (JStr secret) F0
     else F0) = F0).
  { subst kept. revert F7 F8 F11 F12.
    destruct (String.eqb_spec secret "") as [->|Hsec]; [done|].
    apply String.eqb_neq in Hsec.
    destruct (is_admin (_config c)); cbn [negb andb]; intros F7 F8 F11 F12.
    - apply keep_or_set_fixed; [by apply F12|]. rewrite F8. left.
      destruct (truthy (prop "admin_secret" request)) eqn:E; [done|].
      simpl. by rewrite Hsec.
    - apply keep_or_set_fixed; [by apply F11|]. rewrite F7. left.
      destruct (truthy (prop "apisecret" request)) eqn:E; [done|].
      simpl. by rewrite Hsec. }
  rewrite Hsecret.
  destruct tok as [t|]; [|done].
  destruct (String.eqb_spec t "") as [->|Htk]; [done|]. cbn [negb].
  apply Map_set_fixed; [by apply (F13 t)|].
  rewrite F9. by destruct (String.eqb_spec t "").
Qed.

Lemma request_is_decorated_once_witness :
  let c := mkLink (mkConfiguration [demo_C] 0 0 false) (newIterator [demo_C])
                  (new_Transport WebSocketTransport) in
  let r := decorated demo_handle_object demo_session c demo_request 5 in
  r = (Return tt,
       ([("janus", JStr "message"); ("body", JObj [("request", JStr "list")]);
         ("apisecret", JStr "mine"); ("token", JStr "tk");
         ("transaction", JStr "5"); ("handle_id", JNum 7); ("session_id", JNum 42)],
        6)) /\
  decorated demo_handle_object demo_session c r.2.1 r.2.2 = r.
Proof.
  intros c r. split; [reflexivity|].
  pose proof (request_is_decorated_once demo_handle_object demo_session c demo_C
                demo_request 5) as H.
  cbv zeta in H.
  assert (H5 : 0 <= 5 < MAX_SAFE_INTEGER) by (unfold MAX_SAFE_INTEGER; lia).
  specialize (H H5 eq_refl).
  destruct H as (_ & _ & _ & _ & _ & _ & _ & _ & _ & _ & H). exact H.
Defined.
